(** * E-Chat: the e-mail transport engine, embedded in Rocq

    The development follows [src/utils.py], [src/message_parser.py] and
    [src/email_manager.py].  Python values are modelled as the code has
    them: a [str] is a list of Unicode code points, [bytes] a list of
    octets, a [dict] an insertion-ordered association list, and the
    stateful workers thread an explicit world through every call. *)

From Stdlib Require Import List NArith ZArith Bool Lia String Ascii.
From Stdlib Require DecimalPos DecimalN DecimalFacts.
Import ListNotations.

Local Open Scope N_scope.

(** ** Python strings *)

Module PyStr.

(** A code point; a Python [str] never holds one above U+10FFFF. *)
Abbreviation char := N (only parsing).
Abbreviation str := (list N) (only parsing).
Abbreviation bytes := (list N) (only parsing).

Definition octet (b : N) : Prop := b < 256.

Definition valid_char (c : char) : bool := c <? 0x110000.
Definition valid_str (s : str) : bool := forallb valid_char s.

Definition octets (s : string) : bytes :=
  map N_of_ascii (list_ascii_of_string s).

Definition is_cont (b : N) : bool := (0x80 <=? b) && (b <=? 0xBF).

(** [bytes.decode('utf-8')], strict: overlong forms, surrogates and values
    above U+10FFFF raise [UnicodeDecodeError] ([None]). *)
Fixpoint utf8_decode (fuel : nat) (b : bytes) : option str :=
  match fuel with
  | O => match b with [] => Some [] | _ => None end
  | S fuel =>
    match b with
    | [] => Some []
    | b0 :: r =>
      if b0 <? 0x80 then option_map (cons b0) (utf8_decode fuel r)
      else if (0xC2 <=? b0) && (b0 <=? 0xDF) then
        match r with
        | b1 :: r' =>
          if is_cont b1
          then option_map (cons ((b0 - 0xC0) * 64 + (b1 - 0x80)))
                          (utf8_decode fuel r')
          else None
        | _ => None
        end
      else if (0xE0 <=? b0) && (b0 <=? 0xEF) then
        match r with
        | b1 :: b2 :: r' =>
          let c := (b0 - 0xE0) * 4096 + (b1 - 0x80) * 64 + (b2 - 0x80) in
          if is_cont b1 && is_cont b2 && (0x800 <=? c)
             && negb ((0xD800 <=? c) && (c <=? 0xDFFF))
          then option_map (cons c) (utf8_decode fuel r')
          else None
        | _ => None
        end
      else if (0xF0 <=? b0) && (b0 <=? 0xF4) then
        match r with
        | b1 :: b2 :: b3 :: r' =>
          let c := (b0 - 0xF0) * 262144 + (b1 - 0x80) * 4096
                   + (b2 - 0x80) * 64 + (b3 - 0x80) in
          if is_cont b1 && is_cont b2 && is_cont b3
             && (0x10000 <=? c) && (c <=? 0x10FFFF)
          then option_map (cons c) (utf8_decode fuel r')
          else None
        | _ => None
        end
      else None
    end
  end.

Definition decode_utf8 (b : bytes) : option str :=
  utf8_decode (List.length b) b.

(** A literal of the source file, read as the interpreter reads it. *)
Definition u (s : string) : str :=
  match decode_utf8 (octets s) with Some r => r | None => [] end.

Fixpoint eqb (a b : str) : bool :=
  match a, b with
  | [], [] => true
  | x :: a', y :: b' => (x =? y) && eqb a' b'
  | _, _ => false
  end.

Fixpoint startswith (s p : str) {struct p} : bool :=
  match p, s with
  | [], _ => true
  | c :: p', d :: s' => (c =? d) && startswith s' p'
  | _ :: _, [] => false
  end.

Definition endswith (s p : str) : bool := startswith (rev s) (rev p).

(** [s.find(c)] for a one-character needle; [None] stands for [-1]. *)
Fixpoint find_char (c : char) (s : str) : option nat :=
  match s with
  | [] => None
  | d :: s' => if d =? c then Some O else option_map S (find_char c s')
  end.

(** [needle in s]. *)
Fixpoint contains (s needle : str) : bool :=
  startswith s needle ||
  match s with
  | [] => false
  | _ :: s' => contains s' needle
  end.

(** [str.isspace] on one character: bidirectional classes WS, B, S and
    category Zs of the Unicode database. *)
Definition isspace (c : char) : bool :=
  ((0x09 <=? c) && (c <=? 0x0D)) || ((0x1C <=? c) && (c <=? 0x20))
  || (c =? 0x85) || (c =? 0xA0) || (c =? 0x1680)
  || ((0x2000 <=? c) && (c <=? 0x200A))
  || (c =? 0x2028) || (c =? 0x2029) || (c =? 0x202F) || (c =? 0x205F)
  || (c =? 0x3000).

Fixpoint lstrip_by (f : char -> bool) (s : str) : str :=
  match s with
  | c :: s' => if f c then lstrip_by f s' else s
  | [] => []
  end.

Definition rstrip_by (f : char -> bool) (s : str) : str :=
  rev (lstrip_by f (rev s)).

Definition strip (s : str) : str := rstrip_by isspace (lstrip_by isspace s).

Definition isascii (s : str) : bool := forallb (fun c => c <? 128) s.

(** [s.replace(a, b)] for one-character [a] and [b]. *)
Definition replace_char (a b : char) (s : str) : str :=
  map (fun c => if c =? a then b else c) s.

(** [s.split(sep)] for a one-character separator. *)
Fixpoint split_char (sep : char) (s : str) : list str :=
  match s with
  | [] => [[]]
  | c :: s' =>
    match split_char sep s' with
    | w :: ws => if c =? sep then [] :: w :: ws else (c :: w) :: ws
    | [] => [[c]]
    end
  end.

Definition ascii_lower (c : char) : char :=
  if (0x41 <=? c) && (c <=? 0x5A) then c + 32 else c.

(** The numbers [start], [start + 1], ..., [count] of them. *)
Fixpoint N_range (start : N) (count : nat) : list N :=
  match count with
  | O => []
  | S k => start :: N_range (N.succ start) k
  end.

(** [test] holds of every number below [2 ^ bits]. *)
Definition all_below (bits : nat) (test : N -> bool) : bool :=
  forallb test (N_range 0 (2 ^ bits)).

(** ['{' not in s] *)
Definition no_brace (s : str) : bool := forallb (fun c => negb (c =? 123)) s.

(** For examples: a text written with apostrophes, read with double
    quotes in their place. *)
Definition dq (s : string) : str := replace_char 39 34 (u s).

End PyStr.
Import PyStr.


(** ** Regular expressions, as far as [validate_email] needs them *)

Module Regex.

Inductive regex :=
| Void                       (* matches nothing *)
| Eps                        (* the empty string *)
| Cls (f : char -> bool)     (* one character of a class *)
| Cat (r1 r2 : regex)
| Alt (r1 r2 : regex)
| Star (r : regex).

Definition Plus (r : regex) : regex := Cat r (Star r).
Definition Opt (r : regex) : regex := Alt Eps r.
Definition Chr (c : char) : regex := Cls (N.eqb c).

Fixpoint nullable (r : regex) : bool :=
  match r with
  | Void => false
  | Eps => true
  | Cls _ => false
  | Cat r1 r2 => nullable r1 && nullable r2
  | Alt r1 r2 => nullable r1 || nullable r2
  | Star _ => true
  end.

Fixpoint deriv (c : char) (r : regex) : regex :=
  match r with
  | Void => Void
  | Eps => Void
  | Cls f => if f c then Eps else Void
  | Cat r1 r2 =>
    if nullable r1
    then Alt (Cat (deriv c r1) r2) (deriv c r2)
    else Cat (deriv c r1) r2
  | Alt r1 r2 => Alt (deriv c r1) (deriv c r2)
  | Star r1 => Cat (deriv c r1) (Star r1)
  end.

(** The whole of [s] is in the language of [r]. *)
Fixpoint fullmatch (r : regex) (s : str) : bool :=
  match s with
  | [] => nullable r
  | c :: s' => fullmatch (deriv c r) s'
  end.

(** The characters that occur in some class of [r]. *)
Fixpoint alphabet (r : regex) (c : char) : bool :=
  match r with
  | Void | Eps => false
  | Cls f => f c
  | Cat r1 r2 | Alt r1 r2 => alphabet r1 c || alphabet r2 c
  | Star r1 => alphabet r1 c
  end.

(** A syntactic test for the empty language. *)
Fixpoint void (r : regex) : bool :=
  match r with
  | Void => true
  | Eps | Cls _ | Star _ => false
  | Cat r1 r2 => void r1 || void r2
  | Alt r1 r2 => void r1 && void r2
  end.

End Regex.
Import Regex.

(** ** [src/utils.py]: DataValidator *)

Module DataValidator.

Definition is_lower (c : char) : bool := (0x61 <=? c) && (c <=? 0x7A).
Definition is_upper (c : char) : bool := (0x41 <=? c) && (c <=? 0x5A).
Definition is_alpha (c : char) : bool := is_lower c || is_upper c.
Definition is_digit (c : char) : bool := (0x30 <=? c) && (c <=? 0x39).

(** [[a-zA-Z0-9._%+-]] *)
Definition local_class (c : char) : bool :=
  is_alpha c || is_digit c
  || (c =? 46) || (c =? 95) || (c =? 37) || (c =? 43) || (c =? 45).

(** [[a-zA-Z0-9.-]] *)
Definition domain_class (c : char) : bool :=
  is_alpha c || is_digit c || (c =? 46) || (c =? 45).

(** [r'^[a-zA-Z0-9._%+-]+@[a-zA-Z0-9.-]+\.[a-zA-Z]{2,}$'] under [re.match]:
    [^] is the start of the subject and [$] its end or the position before
    a final newline. *)
Definition email_pattern : regex :=
  Cat (Plus (Cls local_class))
 (Cat (Chr 64)
 (Cat (Plus (Cls domain_class))
 (Cat (Chr 46)
 (Cat (Cat (Cls is_alpha) (Cat (Cls is_alpha) (Star (Cls is_alpha))))
      (Opt (Chr 10)))))).

(** [validate_email]: an empty address is refused before the pattern is
    tried on the stripped address. *)
Definition validate_email (email : str) : bool :=
  match email with
  | [] => false
  | _ => fullmatch email_pattern (strip email)
  end.

(** [validate_message_length], called on a [str]. *)
Definition validate_message_length (message : str) (max_length : nat) : bool :=
  Nat.leb (List.length message) max_length.

Definition default_max_length : nat := 5000.

End DataValidator.
Import DataValidator.

(** ** The [json] module of the standard library *)

Module Json.

(** A value that [json.loads] can return and [json.dumps] can print.  A
    [dict] keeps its insertion order; a float is kept as the literal that
    denotes it (no property below computes with floats). *)
Unset Elimination Schemes.
Inductive json :=
| JNull
| JBool (b : bool)
| JInt (z : Z)
| JFloat (literal : str)
| JStr (s : str)
| JList (l : list json)
| JDict (d : list (str * json)).
Set Elimination Schemes.

Definition dict := list (str * json).

(** *** Dictionaries *)

Fixpoint dict_get (k : str) (d : dict) : option json :=
  match d with
  | [] => None
  | (k', v) :: d' => if PyStr.eqb k k' then Some v else dict_get k d'
  end.

Definition dict_mem (k : str) (d : dict) : bool :=
  match dict_get k d with Some _ => true | None => false end.

(** [d[k] = v]: an existing key keeps its place, a new one goes last. *)
Fixpoint dict_set (k : str) (v : json) (d : dict) : dict :=
  match d with
  | [] => [(k, v)]
  | (k', v') :: d' =>
    if PyStr.eqb k k' then (k', v) :: d' else (k', v') :: dict_set k v d'
  end.

(** [del d[k]] *)
Fixpoint dict_del (k : str) (d : dict) : dict :=
  match d with
  | [] => []
  | (k', v') :: d' =>
    if PyStr.eqb k k' then d' else (k', v') :: dict_del k d'
  end.

(** [dict(pairs)] and [d.update(pairs)] *)
Definition dict_update (d : dict) (pairs : list (str * json)) : dict :=
  fold_left (fun acc kv => dict_set (fst kv) (snd kv) acc) pairs d.

Definition dict_of_pairs (pairs : list (str * json)) : dict :=
  dict_update [] pairs.

Definition keys (d : dict) : list str := map fst d.

(** *** Printing: [json.dumps(v, ensure_ascii=False, indent=2)] *)

Definition hex_digit (n : N) : char := if n <? 10 then 48 + n else 87 + n.

(** [ESCAPE_DCT] of [json.encoder], applied by [encode_basestring]. *)
Definition escape_char (c : char) : str :=
  if c =? 34 then [92; 34]
  else if c =? 92 then [92; 92]
  else if c =? 10 then [92; 110]
  else if c =? 13 then [92; 114]
  else if c =? 9 then [92; 116]
  else if c =? 8 then [92; 98]
  else if c =? 12 then [92; 102]
  else if c <? 32 then [92; 117; 48; 48; hex_digit (c / 16); hex_digit (c mod 16)]
  else [c].

Definition encode_basestring (s : str) : str :=
  34 :: flat_map escape_char s ++ [34].

Fixpoint uint_chars (d : Decimal.uint) : str :=
  match d with
  | Decimal.Nil => []
  | Decimal.D0 d => 48 :: uint_chars d
  | Decimal.D1 d => 49 :: uint_chars d
  | Decimal.D2 d => 50 :: uint_chars d
  | Decimal.D3 d => 51 :: uint_chars d
  | Decimal.D4 d => 52 :: uint_chars d
  | Decimal.D5 d => 53 :: uint_chars d
  | Decimal.D6 d => 54 :: uint_chars d
  | Decimal.D7 d => 55 :: uint_chars d
  | Decimal.D8 d => 56 :: uint_chars d
  | Decimal.D9 d => 57 :: uint_chars d
  end.

(** [int.__repr__] *)
Definition repr_int (z : Z) : str :=
  match z with
  | Z0 => [48]
  | Zpos p => uint_chars (Pos.to_uint p)
  | Zneg p => 45 :: uint_chars (Pos.to_uint p)
  end.

(** ['\n' + ' ' * (indent * level)] *)
Definition newline_indent (level : nat) : str :=
  10 :: repeat 32 (2 * level)%nat.

Section Items.

Variable A : Type.
Variable item : A -> str.
Variable sep : str.

(** The items after the first one, each behind the separator. *)
Fixpoint more_items (l : list A) : str :=
  match l with
  | [] => []
  | x :: l' => sep ++ item x ++ more_items l'
  end.

Definition join_items (l : list A) : str :=
  match l with
  | [] => []
  | x :: l' => item x ++ more_items l'
  end.

End Items.
Arguments more_items {A}.
Arguments join_items {A}.

Fixpoint dumps_at (level : nat) (v : json) : str :=
  match v with
  | JNull => u "null"
  | JBool true => u "true"
  | JBool false => u "false"
  | JInt z => repr_int z
  | JFloat literal => literal
  | JStr s => encode_basestring s
  | JList [] => u "[]"
  | JList l =>
    [91] ++ newline_indent (S level)
    ++ join_items (dumps_at (S level)) (44 :: newline_indent (S level)) l
    ++ newline_indent level ++ [93]
  | JDict [] => u "{}"
  | JDict d =>
    [123] ++ newline_indent (S level)
    ++ join_items
         (fun kv => encode_basestring (fst kv) ++ [58; 32]
                    ++ dumps_at (S level) (snd kv))
         (44 :: newline_indent (S level)) d
    ++ newline_indent level ++ [125]
  end.

(** One member of a printed [dict]: the key, [": "] and the value. *)
Definition member_text (lvl : nat) (kv : str * json) : str :=
  encode_basestring (fst kv) ++ [58; 32] ++ dumps_at lvl (snd kv).

Definition dumps (v : json) : str := dumps_at 0 v.

(** The values of the round trip: no float, and in every [dict] each key
    once, as a Python [dict] has it. *)
Unset Elimination Schemes.
Inductive plain : json -> Prop :=
| plain_null : plain JNull
| plain_bool (b : bool) : plain (JBool b)
| plain_int (z : Z) : plain (JInt z)
| plain_str (s : str) : plain (JStr s)
| plain_list (l : list json) : Forall plain l -> plain (JList l)
| plain_dict (d : dict) :
    NoDup (keys d) -> Forall (fun kv => plain (snd kv)) d -> plain (JDict d).
Set Elimination Schemes.

(** The number of nodes of a value, a container counted twice. *)
Fixpoint json_size (v : json) : nat :=
  match v with
  | JList l => 2 + list_sum (map json_size l)
  | JDict d => 2 + list_sum (map (fun kv => json_size (snd kv)) d)
  | _ => 1
  end.

Definition sizes (l : list json) : nat := list_sum (map json_size l).

Definition member_sizes (d : dict) : nat :=
  list_sum (map (fun kv => json_size (snd kv)) d).

End Json.
Import Json.

(** *** Parsing: [json.loads] *)

Module JsonDecoder.

(** [DecodeError] is [json.JSONDecodeError]; [NoFuel] is the recursion
    bound of the embedding and is shown below never to be returned by
    [loads]. *)
Inductive result (A : Type) :=
| Ok (a : A)
| DecodeError
| NoFuel.
Arguments Ok {A}.
Arguments DecodeError {A}.
Arguments NoFuel {A}.

(** [WHITESPACE_STR = ' \t\n\r'] *)
Definition is_ws (c : char) : bool :=
  (c =? 32) || (c =? 9) || (c =? 10) || (c =? 13).

Definition skip_ws (s : str) : str := lstrip_by is_ws s.

Definition hexval (c : char) : option N :=
  if (48 <=? c) && (c <=? 57) then Some (c - 48)
  else if (97 <=? c) && (c <=? 102) then Some (c - 87)
  else if (65 <=? c) && (c <=? 70) then Some (c - 55)
  else None.

Definition hex4 (a b c d : char) : option N :=
  match hexval a, hexval b, hexval c, hexval d with
  | Some x, Some y, Some z, Some w => Some (x * 4096 + y * 256 + z * 16 + w)
  | _, _, _, _ => None
  end.

(** [BACKSLASH] of [json.decoder] *)
Definition unescape (e : char) : option char :=
  if (e =? 34) || (e =? 92) || (e =? 47) then Some e
  else if e =? 98 then Some 8
  else if e =? 102 then Some 12
  else if e =? 110 then Some 10
  else if e =? 114 then Some 13
  else if e =? 116 then Some 9
  else None.

Definition is_high_surrogate (c : N) : bool := (0xD800 <=? c) && (c <=? 0xDBFF).
Definition is_low_surrogate (c : N) : bool := (0xDC00 <=? c) && (c <=? 0xDFFF).

Definition cons_fst (c : char) (r : option (str * str)) : option (str * str) :=
  match r with
  | Some (s, rest) => Some (c :: s, rest)
  | None => None
  end.

(** [scanstring], strict, entered behind the opening quote: the string and
    the input behind its closing quote. *)
Fixpoint scanstring (s : str) : option (str * str) :=
  match s with
  | [] => None
  | c :: r =>
    if c =? 34 then Some ([], r)
    else if c =? 92 then
      match r with
      | [] => None
      | e :: r1 =>
        if e =? 117 then
          match r1 with
          | h1 :: h2 :: h3 :: h4 :: r2 =>
            match hex4 h1 h2 h3 h4 with
            | None => None
            | Some uni =>
              match r2 with
              | b :: v :: g1 :: g2 :: g3 :: g4 :: r3 =>
                if is_high_surrogate uni && (b =? 92) && (v =? 117) then
                  match hex4 g1 g2 g3 g4 with
                  | None => None
                  | Some uni2 =>
                    if is_low_surrogate uni2
                    then cons_fst (0x10000 + (uni - 0xD800) * 1024
                                   + (uni2 - 0xDC00)) (scanstring r3)
                    else cons_fst uni (scanstring r2)
                  end
                else cons_fst uni (scanstring r2)
              | _ => cons_fst uni (scanstring r2)
              end
            end
          | _ => None
          end
        else
          match unescape e with
          | Some c' => cons_fst c' (scanstring r1)
          | None => None
          end
      end
    else if c <? 32 then None
    else cons_fst c (scanstring r)
  end.

Fixpoint span_digits (s : str) : str * str :=
  match s with
  | [] => ([], [])
  | c :: r =>
    if is_digit c
    then let (ds, r') := span_digits r in (c :: ds, r')
    else ([], s)
  end.

Fixpoint chars_uint (s : str) : Decimal.uint :=
  match s with
  | [] => Decimal.Nil
  | c :: r =>
    let d := chars_uint r in
    if c =? 48 then Decimal.D0 d else if c =? 49 then Decimal.D1 d
    else if c =? 50 then Decimal.D2 d else if c =? 51 then Decimal.D3 d
    else if c =? 52 then Decimal.D4 d else if c =? 53 then Decimal.D5 d
    else if c =? 54 then Decimal.D6 d else if c =? 55 then Decimal.D7 d
    else if c =? 56 then Decimal.D8 d else Decimal.D9 d
  end.

(** [int(digits)] *)
Definition digits_value (ds : str) : Z := Z.of_N (N.of_uint (chars_uint ds)).

(** The fraction [(\.\d+)?] of [NUMBER_RE]. *)
Definition scan_frac (s : str) : str * str :=
  match s with
  | p :: f :: r =>
    if (p =? 46) && is_digit f
    then let (fs, r') := span_digits (f :: r) in (p :: fs, r')
    else ([], s)
  | _ => ([], s)
  end.

(** The exponent [([eE][-+]?\d+)?] of [NUMBER_RE]. *)
Definition scan_exp (s : str) : str * str :=
  match s with
  | e :: r =>
    if (e =? 101) || (e =? 69) then
      let (sign, r1) :=
        match r with
        | g :: t => if (g =? 43) || (g =? 45) then ([g], t) else ([], r)
        | [] => ([], r)
        end in
      match r1 with
      | d :: _ =>
        if is_digit d
        then let (ds, r2) := span_digits r1 in (e :: sign ++ ds, r2)
        else ([], s)
      | [] => ([], s)
      end
    else ([], s)
  | [] => ([], s)
  end.

(** [NUMBER_RE.match]: an optional minus sign, then [0] or a digit string
    without leading zero, then the optional fraction and exponent; an [int]
    when there is neither fraction nor exponent. *)
Definition match_number (s : str) : option (json * str) :=
  let (neg, s1) :=
    match s with
    | c :: r => if c =? 45 then (true, r) else (false, s)
    | [] => (false, s)
    end in
  match s1 with
  | [] => None
  | d :: r =>
    if is_digit d then
      let (ip, r1) :=
        if d =? 48 then ([d], r)
        else let (ds, r') := span_digits r in (d :: ds, r') in
      let (frac, r2) := scan_frac r1 in
      let (ex, r3) := scan_exp r2 in
      match frac, ex with
      | [], [] =>
        Some (JInt (if neg then - digits_value ip else digits_value ip)%Z, r3)
      | _, _ =>
        Some (JFloat ((if neg then [45] else []) ++ ip ++ frac ++ ex), r3)
      end
    else None
  end.

Definition literal (s : str) (word : string) (v : json)
  : option (json * str) :=
  if startswith s (u word)
  then Some (v, skipn (List.length (u word)) s)
  else None.

Definition or_else {A} (a b : option A) : option A :=
  match a with Some _ => a | None => b end.

Definition of_option {A} (a : option A) : result A :=
  match a with Some x => Ok x | None => DecodeError end.

(** The scanner [scan_once] with [JSONObject] and [JSONArray].
    [parse_members] is entered behind the opening quote of a key,
    [parse_elements] at the first character of an element. *)
Fixpoint parse_value (fuel : nat) (s : str) : result (json * str) :=
  match fuel with
  | O => NoFuel
  | S fuel =>
    match s with
    | [] => DecodeError
    | c :: r =>
      if c =? 34 then
        match scanstring r with
        | Some (x, r') => Ok (JStr x, r')
        | None => DecodeError
        end
      else if c =? 123 then
        match skip_ws r with
        | c' :: r' =>
          if c' =? 125 then Ok (JDict [], r')
          else if c' =? 34 then
            match parse_members fuel r' [] with
            | Ok (d, r'') => Ok (JDict d, r'')
            | DecodeError => DecodeError
            | NoFuel => NoFuel
            end
          else DecodeError
        | [] => DecodeError
        end
      else if c =? 91 then
        match skip_ws r with
        | c' :: r' =>
          if c' =? 93 then Ok (JList [], r')
          else
            match parse_elements fuel (c' :: r') [] with
            | Ok (l, r'') => Ok (JList l, r'')
            | DecodeError => DecodeError
            | NoFuel => NoFuel
            end
        | [] => DecodeError
        end
      else
        of_option
          (or_else (literal s "null" JNull)
          (or_else (literal s "true" (JBool true))
          (or_else (literal s "false" (JBool false))
          (or_else (match_number s)
          (or_else (literal s "NaN" (JFloat (u "NaN")))
          (or_else (literal s "Infinity" (JFloat (u "Infinity")))
                   (literal s "-Infinity" (JFloat (u "-Infinity")))))))))
    end
  end

with parse_members (fuel : nat) (s : str) (acc : dict)
  : result (dict * str) :=
  match fuel with
  | O => NoFuel
  | S fuel =>
    match scanstring s with
    | None => DecodeError
    | Some (key, r) =>
      match skip_ws r with
      | c :: r1 =>
        if c =? 58 then
          match parse_value fuel (skip_ws r1) with
          | Ok (v, r2) =>
            match skip_ws r2 with
            | d :: r3 =>
              if d =? 125 then Ok (dict_set key v acc, r3)
              else if d =? 44 then
                match skip_ws r3 with
                | q :: r4 =>
                  if q =? 34
                  then parse_members fuel r4 (dict_set key v acc)
                  else DecodeError
                | [] => DecodeError
                end
              else DecodeError
            | [] => DecodeError
            end
          | DecodeError => DecodeError
          | NoFuel => NoFuel
          end
        else DecodeError
      | [] => DecodeError
      end
    end
  end

with parse_elements (fuel : nat) (s : str) (acc : list json)
  : result (list json * str) :=
  match fuel with
  | O => NoFuel
  | S fuel =>
    match parse_value fuel s with
    | Ok (v, r) =>
      match skip_ws r with
      | d :: r1 =>
        if d =? 93 then Ok (acc ++ [v], r1)
        else if d =? 44
        then parse_elements fuel (skip_ws r1) (acc ++ [v])
        else DecodeError
      | [] => DecodeError
      end
    | DecodeError => DecodeError
    | NoFuel => NoFuel
    end
  end.

(** [json.loads(s)] for a [str], the limits of the interpreter aside (they
    are those of [json_loads] below): a byte-order mark is refused, white
    space around the document is skipped, anything behind it is "Extra
    data". *)
Definition loads_fuel (fuel : nat) (s : str) : result json :=
  if startswith s [0xFEFF] then DecodeError
  else
    match parse_value fuel (skip_ws s) with
    | Ok (v, r) =>
      match skip_ws r with
      | [] => Ok v
      | _ => DecodeError
      end
    | DecodeError => DecodeError
    | NoFuel => NoFuel
    end.

Definition loads (s : str) : result json :=
  loads_fuel (S (2 * List.length s)) s.

(** A rest at which a number ends: it does not go on with a digit, a
    fraction or an exponent. *)
Definition number_stop (rest : str) : bool :=
  match rest with
  | [] => true
  | c :: _ => negb (is_digit c || (c =? 46) || (c =? 101) || (c =? 69))
  end.

(** What follows a value that [dumps_at] printed inside a container. *)
Definition follows_value (rest : str) : Prop :=
  rest = [] \/ exists r, rest = 44 :: r \/ rest = 10 :: r.


(** The answer of a parser that had fuel enough: a value and a rest shorter
    than [n], or a decoding error. *)
Definition fuel_ok {A} (n : nat) (p : result (A * str)) : Prop :=
  p <> NoFuel /\ forall a r, p = Ok (a, r) -> (List.length r < n)%nat.

End JsonDecoder.
Import JsonDecoder.

(** *** [json.loads] in an interpreter with limits *)

Module JsonLimits.

(** What the interpreter that the program runs in leaves to a call of
    [json.loads] and of [print].  The scanner enters every object and
    array through [Py_EnterRecursiveCall], which raises [RecursionError]
    once the recursion limit is reached, and [int] refuses a literal of
    more than [sys.get_int_max_str_digits()] digits with [ValueError];
    that limit is 0 where there is none (and in the interpreters that have
    no such limit).

    How many containers may be open at once depends on the recursion limit
    and on the stack at the call.  The two levels that every message of
    E-Chat has (the message and its content) are taken to fit, as every
    call that the program makes itself is taken to fit; [spare_nesting] is
    the room beyond them, several hundred levels under the default
    recursion limit of 1000.

    [stdout_shows v] says whether the standard output can write a line
    that shows [v] as an f-string does; [print] raises
    [UnicodeEncodeError] when it cannot, as for a [str] with a lone
    surrogate on an output in UTF-8.  The lines that the program prints
    without data of a message are taken to be written. *)
Record limits := {
  spare_nesting : nat;
  max_str_digits : N;
  stdout_shows : json -> bool
}.

Definition max_nesting (L : limits) : nat := 2 + spare_nesting L.

(** The check of [PyLong_FromString]: a literal of at most 640 digits
    ([_PY_LONG_MAX_STR_DIGITS_THRESHOLD]) is never refused. *)
Definition too_many_digits (L : limits) (digits : nat) : bool :=
  (0 <? max_str_digits L) && (max_str_digits L <? N.of_nat digits)
  && (640 <? N.of_nat digits).

(** The number of digits of the integer part of the number that
    [NUMBER_RE] matches at [s]. *)
Definition integer_digits (s : str) : nat :=
  let s1 :=
    match s with
    | c :: r => if c =? 45 then r else s
    | [] => s
    end in
  match s1 with
  | d :: r => if d =? 48 then 1 else S (List.length (fst (span_digits r)))
  | [] => 0
  end.

(** What a call of [json.loads] ends in.  [DigitsError] is the
    [ValueError] of the digit limit; [Unfinished] is the recursion bound
    of the embedding and is shown below never to be returned by
    [json_loads]. *)
Inductive loaded (A : Type) :=
| Loaded (a : A)
| JSONDecodeError
| RecursionError
| DigitsError
| Unfinished.
Arguments Loaded {A}.
Arguments JSONDecodeError {A}.
Arguments RecursionError {A}.
Arguments DigitsError {A}.
Arguments Unfinished {A}.

Definition and_then {A B} (x : loaded A) (k : A -> loaded B) : loaded B :=
  match x with
  | Loaded a => k a
  | JSONDecodeError => JSONDecodeError
  | RecursionError => RecursionError
  | DigitsError => DigitsError
  | Unfinished => Unfinished
  end.

(** A value that is neither a string nor a container; [int(integer)] is
    called on a number without fraction and exponent. *)
Definition scan_atom (L : limits) (s : str) : loaded (json * str) :=
  match
    or_else (literal s "null" JNull)
    (or_else (literal s "true" (JBool true))
    (or_else (literal s "false" (JBool false))
    (or_else (match_number s)
    (or_else (literal s "NaN" (JFloat (u "NaN")))
    (or_else (literal s "Infinity" (JFloat (u "Infinity")))
             (literal s "-Infinity" (JFloat (u "-Infinity"))))))))
  with
  | Some (JInt z, r) =>
    if too_many_digits L (integer_digits s) then DigitsError
    else Loaded (JInt z, r)
  | Some (v, r) => Loaded (v, r)
  | None => JSONDecodeError
  end.

(** The scanner of [JsonDecoder] with the two limits: [room] is the number
    of containers that may still be entered. *)
Fixpoint scan_value (L : limits) (fuel room : nat) (s : str)
  : loaded (json * str) :=
  match fuel with
  | O => Unfinished
  | S fuel =>
    match s with
    | [] => JSONDecodeError
    | c :: r =>
      if c =? 34 then
        match scanstring r with
        | Some (x, r') => Loaded (JStr x, r')
        | None => JSONDecodeError
        end
      else if c =? 123 then
        match room with
        | O => RecursionError
        | S room =>
          match skip_ws r with
          | c' :: r' =>
            if c' =? 125 then Loaded (JDict [], r')
            else if c' =? 34 then
              and_then (scan_members L fuel room r' [])
                (fun dr => Loaded (JDict (fst dr), snd dr))
            else JSONDecodeError
          | [] => JSONDecodeError
          end
        end
      else if c =? 91 then
        match room with
        | O => RecursionError
        | S room =>
          match skip_ws r with
          | c' :: r' =>
            if c' =? 93 then Loaded (JList [], r')
            else
              and_then (scan_elements L fuel room (c' :: r') [])
                (fun lr => Loaded (JList (fst lr), snd lr))
          | [] => JSONDecodeError
          end
        end
      else scan_atom L s
    end
  end

with scan_members (L : limits) (fuel room : nat) (s : str) (acc : dict)
  : loaded (dict * str) :=
  match fuel with
  | O => Unfinished
  | S fuel =>
    match scanstring s with
    | None => JSONDecodeError
    | Some (key, r) =>
      match skip_ws r with
      | c :: r1 =>
        if c =? 58 then
          and_then (scan_value L fuel room (skip_ws r1)) (fun vr =>
            match skip_ws (snd vr) with
            | d :: r3 =>
              if d =? 125 then Loaded (dict_set key (fst vr) acc, r3)
              else if d =? 44 then
                match skip_ws r3 with
                | q :: r4 =>
                  if q =? 34
                  then scan_members L fuel room r4 (dict_set key (fst vr) acc)
                  else JSONDecodeError
                | [] => JSONDecodeError
                end
              else JSONDecodeError
            | [] => JSONDecodeError
            end)
        else JSONDecodeError
      | [] => JSONDecodeError
      end
    end
  end

with scan_elements (L : limits) (fuel room : nat) (s : str) (acc : list json)
  : loaded (list json * str) :=
  match fuel with
  | O => Unfinished
  | S fuel =>
    and_then (scan_value L fuel room s) (fun vr =>
      match skip_ws (snd vr) with
      | d :: r1 =>
        if d =? 93 then Loaded (acc ++ [fst vr], r1)
        else if d =? 44
        then scan_elements L fuel room (skip_ws r1) (acc ++ [fst vr])
        else JSONDecodeError
      | [] => JSONDecodeError
      end)
  end.

(** [json.loads(s)] for a [str] in an interpreter with the limits [L]. *)
Definition json_loads (L : limits) (s : str) : loaded json :=
  if startswith s [0xFEFF] then JSONDecodeError
  else
    and_then (scan_value L (S (2 * List.length s)) (max_nesting L) (skip_ws s))
      (fun vr =>
         match skip_ws (snd vr) with
         | [] => Loaded (fst vr)
         | _ => JSONDecodeError
         end).

(** The number of digits of [int.__repr__], the sign apart. *)
Definition int_digits (z : Z) : nat := List.length (repr_int (Z.abs z)).

(** A value that the scanner can read within the limits when [room]
    containers may still be entered. *)
Fixpoint fits (L : limits) (room : nat) (v : json) {struct v} : bool :=
  match v with
  | JInt z => negb (too_many_digits L (int_digits z))
  | JList l =>
    match room with
    | O => false
    | S room' => forallb (fits L room') l
    end
  | JDict d =>
    match room with
    | O => false
    | S room' => forallb (fun kv => fits L room' (snd kv)) d
    end
  | _ => true
  end.

(** The scanner with limits against the scanner without: they agree
    unless a limit was met. *)
Definition agrees {A} (x : loaded A) (y : result A) : Prop :=
  match x with
  | Loaded a => y = Ok a
  | JSONDecodeError => y = DecodeError
  | Unfinished => y = NoFuel
  | RecursionError | DigitsError => True
  end.

(** [v], printed at any depth, is read back within the limits. *)
Definition reads_back (L : limits) (v : json) : Prop :=
  forall level fuel room rest,
    (json_size v <= fuel)%nat -> fits L room v = true -> follows_value rest ->
    scan_value L fuel room (dumps_at level v ++ rest) = Loaded (v, rest).

End JsonLimits.
Import JsonLimits.

(** ** The [base64] module and the UTF-16 codec of the standard library *)

Module Base64.

Definition PAD : char := 61.

(** [table_b2a_base64] *)
Definition b2a (n : N) : char :=
  if n <? 26 then 65 + n
  else if n <? 52 then 71 + n
  else if n <? 62 then n - 4
  else if n =? 62 then 43 else 47.

(** [table_a2b_base64]; [None] for an octet outside the alphabet. *)
Definition a2b (c : N) : option N :=
  if (65 <=? c) && (c <=? 90) then Some (c - 65)
  else if (97 <=? c) && (c <=? 122) then Some (c - 71)
  else if (48 <=? c) && (c <=? 57) then Some (c + 4)
  else if c =? 43 then Some 62
  else if c =? 47 then Some 63
  else None.

(** [base64.b64encode] *)
Fixpoint b64encode (b : bytes) : bytes :=
  match b with
  | [] => []
  | [x] =>
    [b2a (N.shiftr x 2); b2a (N.shiftl (N.land x 3) 4); PAD; PAD]
  | [x; y] =>
    [b2a (N.shiftr x 2);
     b2a (N.lor (N.shiftl (N.land x 3) 4) (N.shiftr y 4));
     b2a (N.shiftl (N.land y 15) 2); PAD]
  | x :: y :: z :: r =>
    b2a (N.shiftr x 2)
    :: b2a (N.lor (N.shiftl (N.land x 3) 4) (N.shiftr y 4))
    :: b2a (N.lor (N.shiftl (N.land y 15) 2) (N.shiftr z 6))
    :: b2a (N.land z 63)
    :: b64encode r
  end.

(** The loop of [binascii.a2b_base64] with [strict_mode] off: octets
    outside the alphabet are skipped, a pad sequence that completes a quad
    ends the input, and an incomplete quad at the end is
    [binascii.Error] ([None]). *)
Fixpoint a2b_loop (s : bytes) (quad_pos leftchar pads : N) (out : bytes)
  : option bytes :=
  match s with
  | [] => if quad_pos =? 0 then Some out else None
  | c :: r =>
    if c =? PAD then
      if 2 <=? quad_pos then
        if 4 <=? quad_pos + (pads + 1) then Some out
        else a2b_loop r quad_pos leftchar (pads + 1) out
      else a2b_loop r quad_pos leftchar pads out
    else
      match a2b c with
      | None => a2b_loop r quad_pos leftchar pads out
      | Some v =>
        if quad_pos =? 0 then a2b_loop r 1 v 0 out
        else if quad_pos =? 1 then
          a2b_loop r 2 (N.land v 0x0f) 0
            (out ++ [N.land (N.lor (N.shiftl leftchar 2) (N.shiftr v 4)) 0xff])
        else if quad_pos =? 2 then
          a2b_loop r 3 (N.land v 0x03) 0
            (out ++ [N.land (N.lor (N.shiftl leftchar 4) (N.shiftr v 2)) 0xff])
        else
          a2b_loop r 0 0 0
            (out ++ [N.land (N.lor (N.shiftl leftchar 6) v) 0xff])
      end
  end.

Definition a2b_base64 (s : bytes) : option bytes := a2b_loop s 0 0 0 [].

(** [base64.b64decode(s)] for a [str]: [s.encode('ascii')] raises
    [ValueError] on a character above U+007F. *)
Definition b64decode (s : str) : option bytes :=
  if isascii s then a2b_base64 s else None.

(** A character that stands for a sextet. *)
Definition sextet_char (c : N) : Prop := exists v, v < 64 /\ c = b2a v.

End Base64.

Module Utf16.

Definition is_surrogate (c : N) : bool := (0xD800 <=? c) && (c <=? 0xDFFF).

(** [s.encode('utf-16be')]; a lone surrogate raises [UnicodeEncodeError]. *)
Fixpoint encode_be (s : str) : option bytes :=
  match s with
  | [] => Some []
  | c :: r =>
    if is_surrogate c then None
    else
      match encode_be r with
      | None => None
      | Some b =>
        if c <? 0x10000 then Some (N.shiftr c 8 :: N.land c 0xff :: b)
        else
          let c' := c - 0x10000 in
          let hi := 0xD800 + N.shiftr c' 10 in
          let lo := 0xDC00 + N.land c' 0x3ff in
          Some (N.shiftr hi 8 :: N.land hi 0xff
                :: N.shiftr lo 8 :: N.land lo 0xff :: b)
      end
  end.

(** [b.decode('utf-16be')]; truncated data and unpaired surrogates raise
    [UnicodeDecodeError]. *)
Fixpoint decode_units (fuel : nat) (b : bytes) : option str :=
  match fuel with
  | O => match b with [] => Some [] | _ => None end
  | S fuel =>
    match b with
    | [] => Some []
    | [_] => None
    | h :: l :: r =>
      let w := N.lor (N.shiftl h 8) l in
      if negb (is_surrogate w) then option_map (cons w) (decode_units fuel r)
      else if w <=? 0xDBFF then
        match r with
        | h2 :: l2 :: r' =>
          let w2 := N.lor (N.shiftl h2 8) l2 in
          if (0xDC00 <=? w2) && (w2 <=? 0xDFFF)
          then option_map
                 (cons (0x10000 + N.lor (N.shiftl (w - 0xD800) 10) (w2 - 0xDC00)))
                 (decode_units fuel r')
          else None
        | _ => None
        end
      else None
    end
  end.

Definition decode_be (b : bytes) : option str :=
  decode_units (List.length b) b.

(** A code point that is not a surrogate and that a [str] can hold. *)
Definition scalar (c : N) : Prop := c < 1114112 /\ is_surrogate c = false.

End Utf16.
Import Base64 Utf16.

(** ** Exceptions, the clock and the interpreter *)

Module Py.

Inductive exn :=
| ValueError (msg : str)
| KeyError (key : str)
| TypeError
| AttributeError
| UnboundLocalError (name : str)
| UnicodeEncodeError
| TransportError                       (* raised by smtplib, imaplib, sqlite3 *)
| Exception (prefix : str) (cause : exn). (* [raise Exception(f"{prefix}{e}")] *)

Inductive outcome (A : Type) :=
| Return (a : A)
| Raise (e : exn).
Arguments Return {A}.
Arguments Raise {A}.

Definition bind {A B} (c : outcome A) (k : A -> outcome B) : outcome B :=
  match c with
  | Return a => k a
  | Raise e => Raise e
  end.

(** [try: c except Exception as e: raise Exception(f"{prefix}{e}")] *)
Definition rewrap {A} (prefix : str) (c : outcome A) : outcome A :=
  match c with
  | Return a => Return a
  | Raise e => Raise (Exception prefix e)
  end.

(** [d[k]] *)
Definition subscript (d : dict) (k : string) : outcome json :=
  match dict_get (u k) d with
  | Some v => Return v
  | None => Raise (KeyError (u k))
  end.

(** [d.get(k, default)] *)
Definition get_default (d : dict) (k : string) (default : json) : json :=
  match dict_get (u k) d with
  | Some v => v
  | None => default
  end.

(** [v == 'literal'] *)
Definition is_str (s : str) (v : json) : bool :=
  match v with
  | JStr s' => PyStr.eqb s s'
  | _ => false
  end.

Record datetime := {
  year : N; month : N; day : N;
  hour : N; minute : N; second : N; microsecond : N
}.

Definition decimal (n : N) : str := uint_chars (N.to_uint n).

Definition zero_pad (width : nat) (n : N) : str :=
  repeat 48 (width - List.length (decimal n)) ++ decimal n.

(** [t.strftime("%Y%m%d%H%M%S")] *)
Definition strftime_compact (t : datetime) : str :=
  zero_pad 4 (year t) ++ zero_pad 2 (month t) ++ zero_pad 2 (day t)
  ++ zero_pad 2 (hour t) ++ zero_pad 2 (minute t) ++ zero_pad 2 (second t).

(** [t.isoformat()] of a naive [datetime] *)
Definition isoformat (t : datetime) : str :=
  zero_pad 4 (year t) ++ [45] ++ zero_pad 2 (month t) ++ [45]
  ++ zero_pad 2 (day t) ++ [84]
  ++ zero_pad 2 (hour t) ++ [58] ++ zero_pad 2 (minute t) ++ [58]
  ++ zero_pad 2 (second t)
  ++ (if microsecond t =? 0 then [] else 46 :: zero_pad 6 (microsecond t)).

(** ['%0*x'] *)
Fixpoint hex_fixed (width : nat) (n : N) : str :=
  match width with
  | O => []
  | S w => hex_fixed w (n / 16) ++ [hex_digit (n mod 16)]
  end.

(** What the interpreter decides and the embedding leaves open: the text
    of [str(v)] for a value that is not a [str], whether a float literal
    denotes zero, and [str.lower], which follows the case mappings of the
    Unicode database. *)
Record interp := {
  py_repr : json -> str;
  float_is_zero : str -> bool;
  lower : str -> str
}.

(** [f"{v}"] *)
Definition format_value (I : interp) (v : json) : str :=
  match v with
  | JStr s => s
  | _ => py_repr I v
  end.

(** [bool(v)] *)
Definition truthy (I : interp) (v : json) : bool :=
  match v with
  | JNull => false
  | JBool b => b
  | JInt z => negb (z =? 0)%Z
  | JFloat l => negb (float_is_zero I l)
  | JStr s => match s with [] => false | _ => true end
  | JList l => match l with [] => false | _ => true end
  | JDict d => match d with [] => false | _ => true end
  end.

(** [type(v).__name__] *)
Definition type_name (v : json) : str :=
  match v with
  | JNull => u "NoneType"
  | JBool _ => u "bool"
  | JInt _ => u "int"
  | JFloat _ => u "float"
  | JStr _ => u "str"
  | JList _ => u "list"
  | JDict _ => u "dict"
  end.

End Py.
Import Py.

(** ** [src/utils.py]: MessageUtils *)

Module MessageUtils.

(** The readings a call takes from outside: the clock, once per
    [datetime.now()], and [uuid.uuid4()]. *)
Record env := {
  now_status : datetime;   (* [create_status_message] *)
  now_id : datetime;       (* [generate_message_id] *)
  uuid4 : N;
  now_stamp : datetime     (* the ["timestamp"] field *)
}.

Definition generate_message_id (E : env) : str :=
  u "echat_" ++ strftime_compact (now_id E) ++ u "_"
  ++ firstn 8 (hex_fixed 32 (uuid4 E)).

End MessageUtils.
Import MessageUtils.

(** ** [src/message_parser.py]: MessageParser *)

Module MessageParser.

Definition MESSAGE_VERSION : str := u "1.0".
Definition SUBJECT_PREFIX : str := u "[E-Chat]".
Definition MESSAGE_TYPES : list str :=
  [u "text"; u "file"; u "image"; u "status"; u "system"].

Definition app_info : dict :=
  [(u "app", JStr (u "E-Chat"));
   (u "version", JStr (u "1.0.0"));
   (u "protocol_version", JStr MESSAGE_VERSION)].

(** [x in MESSAGE_TYPES] for a [str] *)
Definition known_type (t : str) : bool := existsb (PyStr.eqb t) MESSAGE_TYPES.

Definition _create_base_message (E : env) (sender recipient message_type : str)
    (content : dict) : outcome dict :=
  if negb (validate_email sender)
  then Raise (ValueError (u "发送者邮箱格式无效: " ++ sender))
  else if negb (validate_email recipient)
  then Raise (ValueError (u "接收者邮箱格式无效: " ++ recipient))
  else if negb (known_type message_type)
  then Raise (ValueError (u "不支持的消息类型: " ++ message_type))
  else Return
    [(u "version", JStr MESSAGE_VERSION);
     (u "message_id", JStr (generate_message_id E));
     (u "type", JStr message_type);
     (u "sender", JStr sender);
     (u "recipient", JStr recipient);
     (u "timestamp", JStr (isoformat (now_stamp E)));
     (u "content", JDict content);
     (u "client_info", JDict app_info)].

Definition create_text_message (E : env) (sender recipient content : str)
  : outcome dict :=
  _create_base_message E sender recipient (u "text")
    [(u "text", JStr content)].

(** [file_data] is [None] when the caller passes no data; empty data is
    falsy as well. *)
Definition create_file_message (E : env) (sender recipient content file_name : str)
    (file_size : Z) (file_data : option bytes) : outcome dict :=
  let file_content :=
    [(u "text", JStr content);
     (u "file_name", JStr file_name);
     (u "file_size", JInt file_size)] in
  let file_content :=
    match file_data with
    | Some (b :: data) =>
      dict_set (u "encoding") (JStr (u "base64"))
        (dict_set (u "file_data") (JStr (Base64.b64encode (b :: data)))
           file_content)
    | _ => file_content
    end in
  _create_base_message E sender recipient (u "file") file_content.

Definition create_status_message (E : env) (sender recipient status_type : str)
    (status_data : option dict) : outcome dict :=
  let status_content :=
    [(u "status_type", JStr status_type);
     (u "timestamp", JStr (isoformat (now_status E)))] in
  let status_content :=
    match status_data with
    | Some (kv :: more) => dict_update status_content (kv :: more)
    | _ => status_content
    end in
  _create_base_message E sender recipient (u "status") status_content.

(** The subject is stamped with its own reading [now] of the clock. *)
Definition format_email_subject (I : interp) (now : datetime) (message : dict)
  : outcome str :=
  let message_type := get_default message "type" (JStr (u "text")) in
  let timestamp := strftime_compact now in
  let message_id := get_default message "message_id" (JStr (u "unknown")) in
  bind
    match message_id with
    | JStr s =>
      Return (JStr (if contains s (u "_")
                    then firstn 8 (last (split_char 95 s) [])
                    else firstn 8 s))
    | JList l =>
      if existsb (is_str (u "_")) l then Raise AttributeError
      else Return (JList (firstn 8 l))
    | JDict d =>
      if dict_mem (u "_") d then Raise AttributeError else Raise TypeError
    | _ => Raise TypeError
    end
    (fun short_id =>
       Return (SUBJECT_PREFIX ++ u " " ++ format_value I message_type
               ++ u "_" ++ timestamp ++ u "_" ++ format_value I short_id)).

(** The copy of the message that goes into the body: the inline file data
    of a file message is left to the attachment. *)
Definition body_message (message : dict) : outcome dict :=
  bind (subscript message "type") (fun ty =>
  if is_str (u "file") ty then
    bind (subscript message "content") (fun content =>
    match content with
    | JDict d =>
      if dict_mem (u "file_data") d
      then Return
             (dict_set (u "content")
                (JDict (dict_del (u "file_data")
                          (dict_set (u "has_attachment") (JBool true) d)))
                message)
      else Return message
    | JStr s =>
      if contains s (u "file_data") then Raise AttributeError
      else Return message
    | JList l =>
      if existsb (is_str (u "file_data")) l then Raise TypeError
      else Return message
    | _ => Raise TypeError
    end)
  else Return message).

Definition readable_header (I : interp) (sender recipient ty timestamp : json)
  : str :=
  u "
E-Chat Message
==============
From: " ++ format_value I sender ++ u "
To: " ++ format_value I recipient ++ u "
Type: " ++ format_value I ty ++ u "
Time: " ++ format_value I timestamp ++ u "

Raw Message Data:
-----------------
".

Definition format_message_body (I : interp) (message : dict) : outcome str :=
  rewrap (u "格式化消息体失败: ")
    (bind (body_message message) (fun body =>
     let json_body := dumps (JDict body) in
     bind (subscript message "sender") (fun sender =>
     bind (subscript message "recipient") (fun recipient =>
     bind (subscript message "type") (fun ty =>
     bind (subscript message "timestamp") (fun timestamp =>
     Return (readable_header I sender recipient ty timestamp ++ json_body))))))).

Definition is_echat_message (email_subject : str) : bool :=
  startswith email_subject SUBJECT_PREFIX.

Definition _create_fallback_message (body : str) : dict :=
  [(u "version", JStr (u "unknown"));
   (u "type", JStr (u "text"));
   (u "content", JDict [(u "text", JStr (strip body))]);
   (u "client_info",
    JDict [(u "app", JStr (u "Unknown")); (u "version", JStr (u "Unknown"))]);
   (u "fallback", JBool true)].

Definition _validate_message_format (message : dict) : bool :=
  if negb (forallb (fun field => dict_mem field message)
             [u "version"; u "type"; u "content"])
  then false
  else
    match dict_get (u "type") message, dict_get (u "content") message with
    | Some ty, Some content =>
      if negb (existsb (fun t => is_str t ty) MESSAGE_TYPES) then false
      else match content with JDict _ => true | _ => false end
    | _, _ => false
    end.

(** Of the lines that [_validate_message_format] prints before it returns
    [False], the one about a type that is not supported shows the value of
    the type: the function raises instead of returning when the standard
    output cannot write it. *)
Definition validation_print_raises (L : limits) (message : dict) : bool :=
  forallb (fun field => dict_mem field message)
    [u "version"; u "type"; u "content"]
  && match dict_get (u "type") message with
     | Some ty =>
       negb (existsb (fun t => is_str t ty) MESSAGE_TYPES)
       && negb (stdout_shows L ty)
     | None => false
     end.

(** [None] is the answer of the handler [except Exception]: what is
    raised besides [JSONDecodeError] ends there, which is the
    [RecursionError] of a document nested too deep, the [ValueError] of an
    integer with too many digits, and the [UnicodeEncodeError] of a line
    that cannot be printed.  A document that opens with a brace is never a
    value other than a [dict]. *)
Definition parse_message_body (L : limits) (body : str) : option dict :=
  match find_char 123 body with
  | None => Some (_create_fallback_message body)
  | Some json_start =>
    match json_loads L (skipn json_start body) with
    | Loaded (JDict message_data) =>
      if _validate_message_format message_data
      then Some message_data
      else if validation_print_raises L message_data then None
      else Some (_create_fallback_message body)
    | Loaded _ => None
    | JSONDecodeError => Some (_create_fallback_message body)
    | RecursionError | DigitsError => None
    | Unfinished => None
    end
  end.

(** [DataValidator.validate_email] and [validate_message_length] on a value
    of any type: anything but a [str] is refused. *)
Definition validate_email_value (v : json) : bool :=
  match v with JStr s => validate_email s | _ => false end.

Definition validate_length_value (v : json) : bool :=
  match v with
  | JStr s => validate_message_length s default_max_length
  | _ => false
  end.

Definition validate_file_content (I : interp) (content : dict) : bool * str :=
  if negb (dict_mem (u "file_name") content)
  then (false, u "文件消息缺少file_name字段")
  else if negb (dict_mem (u "file_size") content)
  then (false, u "文件消息缺少file_size字段")
  else
    let size_ok :=
      match dict_get (u "file_size") content with
      | Some (JInt z) => (0 <=? z)%Z
      | Some (JBool _) => true
      | _ => false
      end in
    if negb size_ok then (false, u "文件大小无效")
    else
      match dict_get (u "file_name") content with
      | Some file_name =>
        if negb (truthy I file_name) then (false, u "文件名无效")
        else
          match file_name with
          | JStr s =>
            match strip s with
            | [] => (false, u "文件名无效")
            | _ => (true, u "消息验证通过")
            end
          | _ =>
            (false, u "消息验证出错: '" ++ type_name file_name
                    ++ u "' object has no attribute 'strip'")
          end
      | None => (false, u "文件消息缺少file_name字段")
      end.

(** ['k' in message and not validate_email(message['k'])] *)
Definition bad_address (message : dict) (k : string) : option json :=
  match dict_get (u k) message with
  | Some a => if validate_email_value a then None else Some a
  | None => None
  end.

Definition validate_typed_content (I : interp) (ty : json) (content : dict)
  : bool * str :=
  if is_str (u "text") ty then
    match dict_get (u "text") content with
    | None => (false, u "文本消息缺少text字段")
    | Some text_content =>
      if negb (validate_length_value text_content)
      then (false, u "消息内容过长")
      else (true, u "消息验证通过")
    end
  else if is_str (u "file") ty then validate_file_content I content
  else (true, u "消息验证通过").

Definition validate_message_content (I : interp) (message : dict) : bool * str :=
  if negb (_validate_message_format message) then (false, u "消息格式无效")
  else
    match bad_address message "sender" with
    | Some s => (false, u "发送者邮箱格式无效: " ++ format_value I s)
    | None =>
      match bad_address message "recipient" with
      | Some r => (false, u "接收者邮箱格式无效: " ++ format_value I r)
      | None =>
        match dict_get (u "type") message, dict_get (u "content") message with
        | Some ty, Some (JDict content) => validate_typed_content I ty content
        | _, _ => (false, u "消息格式无效")
        end
      end
    end.

(** An attachment as [extract_attachments_from_email] returns it. *)
Record attachment := {
  att_filename : str;
  att_size : Z;
  att_data : str
}.

Definition attachment_dict (a : attachment) : json :=
  JDict [(u "filename", JStr (att_filename a));
         (u "size", JInt (att_size a));
         (u "data", JStr (att_data a))].

(** Called on a message that passed [parse_message_body]: it has a
    ["type"], and its ["content"] is a [dict]. *)
Definition merge_message_with_attachments (message : dict)
    (attachments : list attachment) : outcome dict :=
  match attachments with
  | [] => Return message
  | first :: _ =>
    bind (subscript message "type") (fun ty =>
    bind
      (if is_str (u "file") ty then
         bind (subscript message "content") (fun content =>
         match content with
         | JDict d =>
           Return (dict_set (u "content")
                     (JDict (dict_update d
                               [(u "file_data", JStr (att_data first));
                                (u "file_size", JInt (att_size first));
                                (u "encoding", JStr (u "base64"))]))
                     message)
         | _ => Raise AttributeError
         end)
       else Return message)
      (fun merged =>
         Return (dict_set (u "attachments")
                   (JList (map attachment_dict attachments)) merged)))
  end.

End MessageParser.
Import MessageParser.

(** ** [src/email_manager.py]: folder names and the inbox *)

Module Folders.

(** [s[1:-1]] *)
Definition inner (s : str) : str := removelast (tl s).

Definition pad_base64 (b64_str : str) : str :=
  let missing_padding := (List.length b64_str mod 4)%nat in
  match missing_padding with
  | O => b64_str
  | _ => b64_str ++ repeat Base64.PAD (4 - missing_padding)
  end.

(** Every exception of the body is answered with the argument itself. *)
Definition _decode_imap_utf7 (encoded_str : str) : str :=
  if negb (startswith encoded_str (u "&")) || negb (endswith encoded_str (u "-"))
  then encoded_str
  else
    let b64_str := inner encoded_str in
    match b64_str with
    | [] => u "&"
    | _ =>
      let b64_str := pad_base64 (replace_char 44 47 b64_str) in
      match Base64.b64decode b64_str with
      | None => encoded_str
      | Some decoded_bytes =>
        match Utf16.decode_be decoded_bytes with
        | None => encoded_str
        | Some decoded_str => decoded_str
        end
      end
    end.

Definition _encode_imap_utf7 (unicode_str : str) : str :=
  if isascii unicode_str then unicode_str
  else
    match Utf16.encode_be unicode_str with
    | None => unicode_str
    | Some utf16_bytes =>
      let b64_str := Base64.b64encode utf16_bytes in
      let b64_str := replace_char 47 44 b64_str in
      let b64_str := rstrip_by (N.eqb Base64.PAD) b64_str in
      u "&" ++ b64_str ++ u "-"
    end.

(** An entry of [priority_folders]: a folder name, or a test on a name. *)
Definition priority := (str + (str -> bool))%type.

Definition priority_folders (I : interp) : list priority :=
  [inl (u "INBOX");
   inr (fun f => existsb (PyStr.eqb (lower I (_decode_imap_utf7 f)))
                   [u "收件箱"; u "inbox"; u "邮箱"]);
   inr (fun f => contains (lower I (_decode_imap_utf7 f)) (u "inbox"));
   inr (fun f => contains (_decode_imap_utf7 f) (u "收件"));
   inr (fun _ => true)].

(** The loop over the priorities: a name is looked up in the listing, a
    test is tried on the folders in listing order. *)
Fixpoint first_priority (priorities : list priority)
    (available_folders : list str) : option str :=
  match priorities with
  | [] => None
  | inl name :: rest =>
    if existsb (PyStr.eqb name) available_folders then Some name
    else first_priority rest available_folders
  | inr test :: rest =>
    match find test available_folders with
    | Some folder => Some folder
    | None => first_priority rest available_folders
    end
  end.

(** [connected] says that [self.imap_connection] and its [connection] are
    there; [available_folders] is what [_list_imap_folders] returned and
    [inbox_folder] the configured name (empty when none is configured). *)
Definition _find_inbox_folder (I : interp) (connected : bool)
    (available_folders : list str) (inbox_folder : str) : option str :=
  if negb connected then None
  else
    match available_folders with
    | [] => None
    | _ =>
      let custom_inbox := strip inbox_folder in
      match custom_inbox with
      | _ :: _ =>
        if existsb (PyStr.eqb custom_inbox) available_folders
        then Some custom_inbox
        else first_priority (priority_folders I) available_folders
      | [] => first_priority (priority_folders I) available_folders
      end
    end.

End Folders.
Import Folders.

(** ** [src/email_manager.py]: the send pipeline *)

Module SendPipeline.

(** What a run leaves behind for an observer, oldest first. *)
Inductive event :=
| Sleep (seconds : nat)                        (* [time.sleep] *)
| QueueTimeout                                 (* [queue.Empty] after one second *)
| ConnectionStatus (channel : str) (up : bool) (* [_notify_connection_status] *)
| ErrorNotified (kind : str) (cause : exn)     (* [_notify_error(kind, str(e))] *)
| SendFailed (attempt total : nat)             (* the line the handler prints *)
| Sent (message : dict)                        (* [connection.send_message] *)
| Stored (message : dict)                      (* [database_manager.add_message] *)
| WorkerError (cause : exn).                   (* the line the worker prints *)

(** [SMTPConnection]: [handle] says that [self.connection] is set. *)
Record connection := {
  handle : bool;
  is_connected : bool
}.

(** The answers of the outside during one pass of the retry loop:
    [is_alive] beyond the two flags (idle time and NOOP), the stored
    credentials, [SMTPConnection.connect], and the statements from
    [get_email_config] to [add_message]. *)
Inductive probe := ProbeOk | ProbeTimedOut | ProbeNoopFailed.
Inductive login := LoginOk | LoginRefused | Unreachable.
Inductive transmission :=
| Delivered
| SendRaises (e : exn)     (* before or in [send_message] *)
| StoreRaises (e : exn).   (* in [add_message], the mail being out *)

Record pass_env := {
  probe_answer : probe;
  config_complete : bool;
  login_answer : login;
  transmit_answer : transmission
}.

Record world := {
  smtp_connection : option connection;
  send_queue : list dict;
  stat_errors : nat;
  stat_messages_sent : nat;
  stat_connections : nat;
  trace : list event
}.

Definition log (ev : event) (w : world) : world :=
  {| smtp_connection := smtp_connection w; send_queue := send_queue w;
     stat_errors := stat_errors w; stat_messages_sent := stat_messages_sent w;
     stat_connections := stat_connections w; trace := trace w ++ [ev] |}.

Definition set_smtp (c : option connection) (w : world) : world :=
  {| smtp_connection := c; send_queue := send_queue w;
     stat_errors := stat_errors w; stat_messages_sent := stat_messages_sent w;
     stat_connections := stat_connections w; trace := trace w |}.

Definition set_queue (q : list dict) (w : world) : world :=
  {| smtp_connection := smtp_connection w; send_queue := q;
     stat_errors := stat_errors w; stat_messages_sent := stat_messages_sent w;
     stat_connections := stat_connections w; trace := trace w |}.

Definition count_error (w : world) : world :=
  {| smtp_connection := smtp_connection w; send_queue := send_queue w;
     stat_errors := S (stat_errors w);
     stat_messages_sent := stat_messages_sent w;
     stat_connections := stat_connections w; trace := trace w |}.

Definition count_sent (w : world) : world :=
  {| smtp_connection := smtp_connection w; send_queue := send_queue w;
     stat_errors := stat_errors w;
     stat_messages_sent := S (stat_messages_sent w);
     stat_connections := stat_connections w; trace := trace w |}.

Definition count_connection (w : world) : world :=
  {| smtp_connection := smtp_connection w; send_queue := send_queue w;
     stat_errors := stat_errors w; stat_messages_sent := stat_messages_sent w;
     stat_connections := S (stat_connections w); trace := trace w |}.

(** [EmailConnection.is_alive]: a failed NOOP clears [is_connected]. *)
Definition is_alive (c : connection) (p : probe) : bool * connection :=
  if negb (handle c) || negb (is_connected c) then (false, c)
  else
    match p with
    | ProbeOk => (true, c)
    | ProbeTimedOut => (false, c)
    | ProbeNoopFailed => (false, {| handle := handle c; is_connected := false |})
    end.

(** [not self.smtp_connection or not self.smtp_connection.is_alive()] *)
Definition smtp_unusable (env : pass_env) (w : world) : bool * world :=
  match smtp_connection w with
  | None => (true, w)
  | Some c =>
    let (alive, c') := is_alive c (probe_answer env) in
    (negb alive, set_smtp (Some c') w)
  end.

(** [connect_smtp]: the old connection is dropped and a new
    [SMTPConnection] takes its place, connected or not. *)
Definition connect_smtp (env : pass_env) (w : world) : bool * world :=
  if negb (config_complete env) then (false, w)
  else
    match login_answer env with
    | LoginOk =>
      (true,
       log (ConnectionStatus (u "smtp") true)
         (count_connection
            (set_smtp (Some {| handle := true; is_connected := true |}) w)))
    | LoginRefused =>
      (false,
       log (ConnectionStatus (u "smtp") false)
         (count_error
            (set_smtp (Some {| handle := true; is_connected := false |}) w)))
    | Unreachable =>
      (false,
       log (ConnectionStatus (u "smtp") false)
         (count_error
            (set_smtp (Some {| handle := false; is_connected := false |}) w)))
    end.

Definition max_retries : nat := 2.

(** The handler [except Exception as e] of the retry loop, up to the
    point where the block ends and [e] is unbound again. *)
Definition send_failed (retry_count : nat) (w : world) : nat * world :=
  let w := log (SendFailed (retry_count + 1) (max_retries + 1)) w in
  let w :=
    match smtp_connection w with
    | Some _ => set_smtp (Some {| handle := false; is_connected := false |}) w
    | None => w
    end in
  let retry_count := S retry_count in
  let w := if Nat.leb retry_count max_retries then log (Sleep 2) w else w in
  (retry_count, w).

(** The statements behind the loop.  [e] is the local variable of that
    name: it holds the exception inside the handler only. *)
Definition after_retries (e : option exn) (w : world) : outcome bool * world :=
  let w := count_error w in
  match e with
  | Some cause => (Return false, log (ErrorNotified (u "send") cause) w)
  | None => (Raise (UnboundLocalError (u "e")), w)
  end.

(** [while retry_count <= max_retries], entered with [remaining] equal to
    [max_retries + 1 - retry_count]; [envs k] answers the pass that runs
    with [retry_count = k]. *)
Fixpoint retry_loop (remaining retry_count : nat) (e : option exn)
    (message : dict) (envs : nat -> pass_env) (w : world)
  : outcome bool * world :=
  match remaining with
  | O => after_retries e w
  | S remaining' =>
    let env := envs retry_count in
    let (unusable, w) := smtp_unusable env w in
    let (usable, w) := if unusable then connect_smtp env w else (true, w) in
    if negb usable then (Return false, w)
    else
      match transmit_answer env with
      | Delivered =>
        (Return true,
         log (Stored message) (count_sent (log (Sent message) w)))
      | SendRaises cause =>
        let (retry_count, w) := send_failed retry_count w in
        retry_loop remaining' retry_count None message envs w
      | StoreRaises cause =>
        let w := count_sent (log (Sent message) w) in
        let (retry_count, w) := send_failed retry_count w in
        retry_loop remaining' retry_count None message envs w
      end
  end.

Definition send_message_sync (message : dict) (envs : nat -> pass_env)
    (w : world) : outcome bool * world :=
  retry_loop (S max_retries) 0 None message envs w.

(** One turn of [while self.send_running] in [_send_worker].  The queue
    holds what [send_message_async] built and what this loop put back, so
    a [_retry_count] is an [int]. *)
Definition worker_turn (envs : nat -> pass_env) (w : world) : world :=
  match send_queue w with
  | [] => log QueueTimeout w
  | message :: rest =>
    let w := set_queue rest w in
    match send_message_sync message envs w with
    | (Return true, w) => w
    | (Return false, w) =>
      match get_default message "_retry_count" (JInt 0) with
      | JInt retry_count =>
        if (retry_count <? 3)%Z then
          let message :=
            dict_set (u "_retry_count") (JInt (retry_count + 1)) message in
          log (Sleep 5) (set_queue (send_queue w ++ [message]) w)
        else w
      | _ => log (Sleep 1) (log (WorkerError TypeError) w)
      end
    | (Raise cause, w) => log (Sleep 1) (log (WorkerError cause) w)
    end
  end.


Definition is_sleep (ev : event) : bool :=
  match ev with Sleep _ => true | _ => false end.

Definition is_attempt_event (ev : event) : bool :=
  match ev with Sleep _ | SendFailed _ _ | Sent _ => true | _ => false end.

Definition is_error_notified (ev : event) : bool :=
  match ev with ErrorNotified _ _ => true | _ => false end.

(** A pass that reaches the transmission and raises there. *)
Definition raises (env : pass_env) : bool :=
  match transmit_answer env with
  | Delivered => false
  | _ => true
  end.

(** A pass in which the connection can be used or is made anew. *)
Definition connects (env : pass_env) : bool :=
  match probe_answer env, login_answer env with
  | _, LoginOk => config_complete env
  | _, _ => false
  end.


(** The attempt events of [remaining] passes that all raise, the first of
    them run with [retry_count]. *)
Fixpoint failed_attempts (remaining retry_count : nat) (message : dict)
    (envs : nat -> pass_env) : list event :=
  match remaining with
  | O => []
  | S remaining' =>
    match transmit_answer (envs retry_count) with
    | StoreRaises _ => [Sent message]
    | _ => []
    end
    ++ [SendFailed (retry_count + 1) (max_retries + 1)]
    ++ (if Nat.leb (S retry_count) max_retries then [Sleep 2] else [])
    ++ failed_attempts remaining' (S retry_count) message envs
  end.

End SendPipeline.
Import SendPipeline.

(** ** [src/email_manager.py]: the inbox watcher *)

Module Inbox.

(** A fetched mail as the [email] library hands it over: the headers, the
    text that [_extract_email_body] returns and the attachments that
    [extract_attachments_from_email] returns. *)
Record email := {
  email_subject : str;
  email_from : str;
  email_to : str;
  email_body : str;
  email_attachments : list attachment
}.

(** The answer to [connection.fetch(msg_id, '(RFC822)')]. *)
Inductive fetch_answer :=
| FetchNotOk
| FetchRaises
| Fetched (m : email).

Inductive event :=
| Saved (message : dict)                       (* [_save_received_message] *)
| Received (msg_id : bytes) (message : dict).  (* [message_received_callback] *)

(** [_fetch_email]: the message it returns and what it lets be observed.
    Every exception of the body ends in [return None]. *)
Definition _fetch_email (L : limits) (callback_set : bool) (msg_id : bytes)
    (answer : fetch_answer) : option dict * list event :=
  match answer with
  | FetchNotOk | FetchRaises => (None, [])
  | Fetched m =>
    if negb (is_echat_message (email_subject m)) then (None, [])
    else
      match parse_message_body L (email_body m) with
      | None => (None, [])
      | Some parsed_message =>
        match
          match email_attachments m with
          | [] => Return parsed_message
          | attachments =>
            merge_message_with_attachments parsed_message attachments
          end
        with
        | Raise _ => (None, [])
        | Return parsed_message =>
          match decode_utf8 msg_id with
          | None => (None, [])
          | Some id_text =>
            let parsed_message :=
              dict_set (u "email_msg_id") (JStr id_text)
                (dict_set (u "email_subject") (JStr (email_subject m))
                   (dict_set (u "email_recipient") (JStr (email_to m))
                      (dict_set (u "email_sender") (JStr (email_from m))
                         parsed_message))) in
            (Some parsed_message,
             Saved parsed_message
             :: (if callback_set then [Received msg_id parsed_message] else []))
          end
        end
      end
  end.

(** The mailbox on the server.  As RFC 3501 has it, a message is listed by
    [SEARCH UNSEEN] until a fetch of its text sets the flag [\Seen]. *)
Record entry := {
  entry_id : bytes;
  entry_seen : bool;
  entry_mail : email
}.

Definition search_unseen (box : list entry) : list bytes :=
  map entry_id (filter (fun e => negb (entry_seen e)) box).

Definition same_id (a b : bytes) : bool := PyStr.eqb a b.

Fixpoint server_fetch (msg_id : bytes) (box : list entry)
  : fetch_answer * list entry :=
  match box with
  | [] => (FetchNotOk, [])
  | e :: box' =>
    if same_id msg_id (entry_id e)
    then (Fetched (entry_mail e),
          {| entry_id := entry_id e; entry_seen := true;
             entry_mail := entry_mail e |} :: box')
    else let (answer, box'') := server_fetch msg_id box' in
         (answer, e :: box'')
  end.

(** The two workers that call [check_new_messages], and what a pass keeps
    in its local variables: the ids still to fetch and [new_messages]. *)
Inductive worker := IdleWorker | PollWorker.

Record pass := {
  pending : list bytes;
  new_messages : list dict
}.

Record state := {
  interpreter : limits;   (* the limits the manager's interpreter runs under *)
  box : list entry;
  callback_set : bool;
  idle_pass : pass;
  poll_pass : pass;
  observed : list event;
  stat_messages_received : nat
}.

Definition pass_of (t : worker) (s : state) : pass :=
  match t with
  | IdleWorker => idle_pass s
  | PollWorker => poll_pass s
  end.

Definition set_pass (t : worker) (p : pass) (s : state) : state :=
  match t with
  | IdleWorker =>
    {| interpreter := interpreter s; box := box s;
       callback_set := callback_set s; idle_pass := p;
       poll_pass := poll_pass s; observed := observed s;
       stat_messages_received := stat_messages_received s |}
  | PollWorker =>
    {| interpreter := interpreter s; box := box s;
       callback_set := callback_set s; idle_pass := idle_pass s;
       poll_pass := p; observed := observed s;
       stat_messages_received := stat_messages_received s |}
  end.

(** [check_new_messages] up to the search.  [ready] says that the
    connection is up, the inbox was found and selected, and the search
    answered OK; otherwise the pass returns an empty list at once. *)
Definition begin_check (t : worker) (ready : bool) (s : state) : state :=
  set_pass t
    {| pending := if ready then search_unseen (box s) else [];
       new_messages := [] |} s.

(** One turn of [for msg_id in message_ids[0].split()]. *)
Definition fetch_next (t : worker) (s : state) : state :=
  match pending (pass_of t s) with
  | [] => s
  | msg_id :: rest =>
    let (answer, box') := server_fetch msg_id (box s) in
    let (message_data, events) :=
      _fetch_email (interpreter s) (callback_set s) msg_id answer in
    let p := {| pending := rest;
                new_messages :=
                  new_messages (pass_of t s)
                  ++ match message_data with Some m => [m] | None => [] end |} in
    set_pass t p
      {| interpreter := interpreter s; box := box';
         callback_set := callback_set s;
         idle_pass := idle_pass s; poll_pass := poll_pass s;
         observed := observed s ++ events;
         stat_messages_received := stat_messages_received s |}
  end.

Fixpoint fetch_turns (turns : nat) (t : worker) (s : state) : state :=
  match turns with
  | O => s
  | S turns' => fetch_turns turns' t (fetch_next t s)
  end.

(** The statements behind the loop. *)
Definition finish_check (t : worker) (s : state) : list dict * state :=
  let found := new_messages (pass_of t s) in
  (found,
   {| interpreter := interpreter s; box := box s;
      callback_set := callback_set s;
      idle_pass := idle_pass s; poll_pass := poll_pass s;
      observed := observed s;
      stat_messages_received :=
        stat_messages_received s + List.length found |}).

(** A pass that no other pass interleaves with. *)
Definition check_new_messages (t : worker) (ready : bool) (s : state)
  : list dict * state :=
  let s := begin_check t ready s in
  finish_check t (fetch_turns (List.length (pending (pass_of t s))) t s).

(** The two workers side by side: a schedule says whose step is next. *)
Inductive step :=
| Search (t : worker)
| Fetch (t : worker)
| Finish (t : worker).

Definition run_step (s : state) (st : step) : state :=
  match st with
  | Search t => begin_check t true s
  | Fetch t => fetch_next t s
  | Finish t => snd (finish_check t s)
  end.

Definition run (schedule : list step) (s : state) : state :=
  fold_left run_step schedule s.

(** The watcher's life as passes that do not overlap, with mail arriving
    in between. *)
Inductive action :=
| Check (t : worker) (ready : bool)
| Arrive (e : entry).

Definition act (s : state) (a : action) : state :=
  match a with
  | Check t ready => snd (check_new_messages t ready s)
  | Arrive e =>
    {| interpreter := interpreter s; box := box s ++ [e];
       callback_set := callback_set s;
       idle_pass := idle_pass s; poll_pass := poll_pass s;
       observed := observed s;
       stat_messages_received := stat_messages_received s |}
  end.

(** Mail arrives under an id that the mailbox does not hold yet. *)
Fixpoint fresh_arrivals (ids : list bytes) (actions : list action) : Prop :=
  match actions with
  | [] => True
  | Check _ _ :: rest => fresh_arrivals ids rest
  | Arrive e :: rest =>
    ~ In (entry_id e) ids /\ fresh_arrivals (ids ++ [entry_id e]) rest
  end.

(** The ids the callback was invoked with, in order. *)
Fixpoint received_ids (events : list event) : list bytes :=
  match events with
  | [] => []
  | Received msg_id _ :: rest => msg_id :: received_ids rest
  | Saved _ :: rest => received_ids rest
  end.

(** A manager that starts watching. *)
Definition start (L : limits) (box0 : list entry) (callback : bool)
  : state :=
  {| interpreter := L; box := box0; callback_set := callback;
     idle_pass := {| pending := []; new_messages := [] |};
     poll_pass := {| pending := []; new_messages := [] |};
     observed := []; stat_messages_received := 0 |}.

(** What holds between passes: the ids of the mailbox are distinct, no id
    was handed to the callback twice, and what was handed to it is in the
    mailbox and seen. *)
Definition delivered_once (s : state) : Prop :=
  NoDup (map entry_id (box s))
  /\ NoDup (received_ids (observed s))
  /\ forall id, In id (received_ids (observed s)) ->
                In id (map entry_id (box s))
                /\ ~ In id (search_unseen (box s)).

(** What holds inside the loop of a pass of [t] that runs alone: the ids
    still to fetch are distinct and unseen. *)
Definition pass_alone (t : worker) (s : state) : Prop :=
  delivered_once s
  /\ NoDup (pending (pass_of t s))
  /\ forall id, In id (pending (pass_of t s)) -> In id (search_unseen (box s)).

End Inbox.
Import Inbox.

(** ** The inbox order in the words of the specification *)

Module InboxOrder.

Definition is_inbox_name (folders : list str) : bool :=
  existsb (PyStr.eqb (u "INBOX")) folders.

Definition is_synonym (I : interp) (folder : str) : bool :=
  existsb (PyStr.eqb (lower I (_decode_imap_utf7 folder)))
    [u "收件箱"; u "inbox"; u "邮箱"].

Definition mentions_inbox (I : interp) (folder : str) : bool :=
  contains (lower I (_decode_imap_utf7 folder)) (u "inbox").

Definition mentions_received (folder : str) : bool :=
  contains (_decode_imap_utf7 folder) (u "收件").

Definition or_find (test : str -> bool) (folders : list str)
    (otherwise : option str) : option str :=
  match find test folders with
  | Some folder => Some folder
  | None => otherwise
  end.

(** The stated order: exact "INBOX", else a synonym, else a name that
    contains "inbox", else the first listed folder. *)
Definition stated_order (I : interp) (folders : list str) : option str :=
  if is_inbox_name folders then Some (u "INBOX")
  else or_find (is_synonym I) folders
      (or_find (mentions_inbox I) folders
         (hd_error folders)).

(** The same order with the step the code has before the last resort: a
    decoded name that contains "收件". *)
Definition amended_order (I : interp) (folders : list str) : option str :=
  if is_inbox_name folders then Some (u "INBOX")
  else or_find (is_synonym I) folders
      (or_find (mentions_inbox I) folders
         (or_find mentions_received folders
            (hd_error folders))).

End InboxOrder.
Import InboxOrder.

(** ** Sample values for the examples *)

Module Samples.

(** An interpreter for ASCII and caseless text; [str(v)] is left blank. *)
Definition I0 : interp := {|
  py_repr := fun _ => [];
  float_is_zero := fun _ => false;
  lower := map ascii_lower
|}.

Definition t0 : datetime := {|
  year := 2024; month := 3; day := 9;
  hour := 14; minute := 5; second := 7; microsecond := 120034
|}.

Definition E0 : env := {|
  now_status := t0; now_id := t0; uuid4 := 0x1f2e3d4c5b6a79880123456789abcdef;
  now_stamp := t0
|}.

(** The defaults of CPython 3.11: integers of up to 4300 digits, the
    nesting that the recursion limit of 1000 admits at most, and a
    standard output in UTF-8, which writes everything but surrogates
    ([str] of a value that is not a [str] escapes them). *)
Definition L0 : limits := {|
  spare_nesting := 998;
  max_str_digits := 4300;
  stdout_shows := fun v =>
    match v with
    | JStr s => negb (existsb is_surrogate s)
    | _ => true
    end
|}.

Definition alice : str := u "alice@example.com".
Definition bob : str := u "bob@mail.example.org".

(** A text message as [send_message_async] queues it. *)
Definition hello : dict :=
  match create_text_message E0 alice bob (u "hello") with
  | Return m => m
  | Raise _ => []
  end.

(** A manager that has not connected yet, with [hello] queued. *)
Definition w0 : world := {|
  smtp_connection := None; send_queue := [hello];
  stat_errors := 0; stat_messages_sent := 0; stat_connections := 0;
  trace := []
|}.

(** A server that refuses the login, and one that accepts it and then
    fails every transmission. *)
Definition login_refused : nat -> pass_env := fun _ => {|
  probe_answer := ProbeTimedOut; config_complete := true;
  login_answer := LoginRefused; transmit_answer := Delivered
|}.

Definition always_failing : nat -> pass_env := fun _ => {|
  probe_answer := ProbeOk; config_complete := true;
  login_answer := LoginOk; transmit_answer := SendRaises TransportError
|}.


(** [hello] as it lies in the recipient's mailbox, unseen. *)
Definition hello_mail : email := {|
  email_subject := u "[E-Chat] text_20240309140507_1f2e3d4c";
  email_from := alice; email_to := bob;
  email_body :=
    match format_message_body I0 hello with
    | Return body => body
    | Raise _ => []
    end;
  email_attachments := []
|}.

Definition box0 : list entry :=
  [{| entry_id := u "1"; entry_seen := false; entry_mail := hello_mail |}].

Definition second_mail : entry :=
  {| entry_id := u "2"; entry_seen := false; entry_mail := hello_mail |}.

(** Another message of the same sender, written seven minutes later, as
    it lies in the mailbox. *)
Definition t1 : datetime := {|
  year := 2024; month := 3; day := 9;
  hour := 14; minute := 12; second := 33; microsecond := 0
|}.

Definition E1 : env := {|
  now_status := t1; now_id := t1; uuid4 := 0x9a8b7c6d5e4f30211032547698badcfe;
  now_stamp := t1
|}.

Definition news : dict :=
  match create_text_message E1 alice bob (u "news") with
  | Return m => m
  | Raise _ => []
  end.

Definition news_mail : entry :=
  {| entry_id := u "2"; entry_seen := false;
     entry_mail :=
       {| email_subject := u "[E-Chat] text_20240309141240_9a8b7c6d";
          email_from := alice; email_to := bob;
          email_body :=
            match format_message_body I0 news with
            | Return body => body
            | Raise _ => []
            end;
          email_attachments := [] |} |}.

End Samples.
Import Samples.

(** ** What a run of the send pipeline delivers *)

Module SendFacts.

(** The mail going out and the copy going into the database. *)
Definition is_delivery_event (ev : SendPipeline.event) : bool :=
  match ev with Sent _ | Stored _ => true | _ => false end.

(** The mails that [remaining] raising passes send before they raise: a
    pass that fails in [add_message] has sent its mail already. *)
Fixpoint resent (remaining retry_count : nat) (message : dict)
    (envs : nat -> pass_env) : list SendPipeline.event :=
  match remaining with
  | O => []
  | S remaining' =>
    match transmit_answer (envs retry_count) with
    | StoreRaises _ => [Sent message]
    | _ => []
    end ++ resent remaining' (S retry_count) message envs
  end.

End SendFacts.
Import SendFacts.

(** ** What a pass over the inbox lets be observed *)

Module InboxFacts.

(** The messages given to [_save_received_message], in order. *)
Fixpoint saved_messages (events : list Inbox.event) : list dict :=
  match events with
  | [] => []
  | Saved m :: rest => m :: saved_messages rest
  | Received _ _ :: rest => saved_messages rest
  end.

(** The messages given to the callback, in order. *)
Fixpoint received_messages (events : list Inbox.event) : list dict :=
  match events with
  | [] => []
  | Saved _ :: rest => received_messages rest
  | Received _ m :: rest => m :: received_messages rest
  end.

End InboxFacts.
Import InboxFacts.

(** ** [src/utils.py]: validators and formatters *)

Module Utils.

(** [sep.join(parts)] *)
Fixpoint join (sep : str) (parts : list str) : str :=
  match parts with
  | [] => []
  | [p] => p
  | p :: rest => p ++ sep ++ join sep rest
  end.

(** [s[:n]] for an [int] [n]: a negative [n] counts from the end. *)
Definition slice_to (n : Z) (s : str) : str :=
  if (0 <=? n)%Z then firstn (Z.to_nat n) s
  else firstn (List.length s - Z.to_nat (- n)) s.

(** [c in s] for a character *)
Definition has_char (c : char) (s : str) : bool := existsb (N.eqb c) s.

(** [s.strip(chars)] *)
Definition strip_chars (chars : str) (s : str) : str :=
  rstrip_by (fun c => has_char c chars) (lstrip_by (fun c => has_char c chars) s).

(** [re.sub(r'\s+', ' ', s)]: [in_run] says that the character before was
    white space. *)
Fixpoint collapse_ws_from (in_run : bool) (s : str) : str :=
  match s with
  | [] => []
  | c :: r =>
    if isspace c
    then if in_run then collapse_ws_from true r
         else 32 :: collapse_ws_from true r
    else c :: collapse_ws_from false r
  end.

Definition collapse_ws (s : str) : str := collapse_ws_from false s.

(** The characters that the pattern of [validate_nickname] looks for:
    the angle brackets, the double quote, both slashes, the bar, the
    question mark and the star. *)
Definition nickname_illegal (c : char) : bool :=
  has_char c [60; 62; 34; 92; 47; 124; 63; 42].

(** [DataValidator.validate_nickname] *)
Definition validate_nickname (nickname : str) : bool * str :=
  match nickname with
  | [] => (false, u "昵称不能为空")
  | _ =>
    let nickname := strip nickname in
    if Nat.ltb (List.length nickname) 1 then (false, u "昵称不能为空")
    else if Nat.ltb 50 (List.length nickname)
    then (false, u "昵称长度不能超过50个字符")
    else if existsb nickname_illegal nickname then (false, u "昵称包含非法字符")
    else (true, u "昵称格式正确")
  end.

(** [FormatUtils.format_message_preview] *)
Definition format_message_preview (message : str) (max_length : Z) : str :=
  match message with
  | [] => []
  | _ =>
    let cleaned := collapse_ws (strip message) in
    if (Z.of_nat (List.length cleaned) <=? max_length)%Z then cleaned
    else slice_to max_length cleaned ++ u "..."
  end.

(** [FormatUtils.format_contact_name]; [nickname] is [None] by default. *)
Definition format_contact_name (email : str) (nickname : option str) : str :=
  let from_email :=
    if has_char 64 email then hd [] (split_char 64 email) else email in
  match nickname with
  | Some (c :: n) =>
    match strip (c :: n) with
    | [] => from_email
    | stripped => stripped
    end
  | _ => from_email
  end.

(** The characters that [sanitize_filename] replaces: those of
    [validate_nickname] and the colon. *)
Definition filename_unsafe (c : char) : bool :=
  has_char c [60; 62; 58; 34; 47; 92; 124; 63; 42].

(** What [pathlib] answers for [Path(filename).stem] and
    [Path(filename).suffix]; the flavour of the path follows the
    platform. *)
Record pathlib := {
  stem : str -> str;
  suffix : str -> str
}.

(** [SecurityUtils.sanitize_filename] *)
Definition sanitize_filename (P : pathlib) (filename : str) : str :=
  let safe_chars := map (fun c => if filename_unsafe c then 95 else c) filename in
  let safe_chars := strip_chars (u ". ") safe_chars in
  if Nat.ltb 255 (List.length safe_chars) then
    let name := stem P filename in
    let ext := suffix P filename in
    slice_to (255 - Z.of_nat (List.length ext)) name ++ ext
  else safe_chars.

(** A character that is neither the underscore nor white space: the parts
    of a subject are written in such characters. *)
Definition token_char (c : char) : bool := negb (c =? 95) && negb (isspace c).

(** [MessageUtils.create_email_subject]: [now] is the reading of the clock
    and [uuid] the value of [uuid.uuid4()]. *)
Definition create_email_subject (now : datetime) (uuid : N)
    (message_type extra_info : str) : str :=
  let timestamp := strftime_compact now in
  let random_id := firstn 6 (hex_fixed 32 uuid) in
  let subject :=
    u "[E-Chat] " ++ message_type ++ u "_" ++ timestamp ++ u "_" ++ random_id in
  match extra_info with
  | [] => subject
  | _ => subject ++ u "_" ++ extra_info
  end.

(** [MessageUtils.parse_email_subject] *)
Definition parse_email_subject (subject : str) : dict :=
  if negb (startswith subject (u "[E-Chat]")) then []
  else
    let content := strip (skipn 9 subject) in
    match split_char 95 content with
    | p0 :: p1 :: p2 :: more =>
      [(u "message_type", JStr p0);
       (u "timestamp", JStr p1);
       (u "random_id", JStr p2);
       (u "extra_info",
        JStr match more with
             | [] => []
             | _ => join (u "_") more
             end)]
    | _ => []
    end.


(** [MessageUtils.parse_message_body]: the value of [json.loads], of
    whatever type, or the stand-in for a body that is no JSON.  [None] is
    the decoder out of fuel, which [loads] never is. *)
Definition parse_message_body (body : str) : option json :=
  match loads body with
  | Ok v => Some v
  | DecodeError =>
    Some (JDict
            [(u "version", JStr (u "1.0"));
             (u "type", JStr (u "text"));
             (u "content", JDict [(u "text", JStr body)]);
             (u "client_info",
              JDict [(u "app", JStr (u "Unknown"));
                     (u "version", JStr (u "Unknown"))])])
  | NoFuel => None
  end.

End Utils.

(** ** [src/message_parser.py]: the subject line read back *)

Module MessageParserSubject.

(** [MessageParser.parse_email_subject] *)
Definition parse_email_subject (subject : str) : dict :=
  if negb (is_echat_message subject) then []
  else
    let content := strip (skipn (List.length SUBJECT_PREFIX) subject) in
    Utils.parse_email_subject (SUBJECT_PREFIX ++ u " " ++ content).

End MessageParserSubject.

(** ** [src/email_manager.py]: the folder listing *)

Module FolderListing.

(** [s.split()]: the runs of characters that are not white space;
    [word] is the run being read. *)
Fixpoint split_ws_from (word : str) (s : str) : list str :=
  match s with
  | [] => match word with [] => [] | _ => [word] end
  | c :: r =>
    if isspace c
    then match word with
         | [] => split_ws_from [] r
         | _ => word :: split_ws_from [] r
         end
    else split_ws_from (word ++ [c]) r
  end.

Definition split_ws (s : str) : list str := split_ws_from [] s.

(** The body of the loop of [_list_imap_folders] up to the test for a
    name already listed: the name taken from one line of the answer to
    LIST.  The empty name stands for [None] as well; both are falsy. *)
Definition folder_name_of (folder_str : str) : str :=
  let folder_name :=
    if Utils.has_char 34 folder_str then
      match rev (split_char 34 folder_str) with
      | _ :: name :: _ :: _ => name
      | _ => []
      end
    else [] in
  let folder_name :=
    match folder_name with
    | [] =>
      match rev (split_ws (strip folder_str)) with
      | name :: _ => name
      | [] => []
      end
    | _ => folder_name
    end in
  match folder_name with
  | [] => strip folder_str
  | _ => folder_name
  end.

Fixpoint collect_folders (lines : list str) (folder_names : list str)
  : list str :=
  match lines with
  | [] => folder_names
  | folder_str :: rest =>
    let folder_name := folder_name_of folder_str in
    collect_folders rest
      match folder_name with
      | [] => folder_names
      | _ =>
        if existsb (PyStr.eqb folder_name) folder_names then folder_names
        else folder_names ++ [folder_name]
      end
  end.

(** The answer to [connection.list()]: it raises, or gives a status and
    the lines, each line as the text that [decode] or [str] makes of
    it. *)
Inductive list_answer :=
| ListRaises
| ListAnswer (status_ok : bool) (lines : list str).

Definition _list_imap_folders (connected : bool) (answer : list_answer)
  : list str :=
  if negb connected then []
  else
    match answer with
    | ListRaises => []
    | ListAnswer status_ok lines =>
      if negb status_ok then [] else collect_folders lines []
    end.

End FolderListing.
Import FolderListing.

(** ** [src/message_parser.py]: attachments *)

Module Attachments.

(** [c.encode('utf-8')] for one code point; a surrogate raises
    [UnicodeEncodeError]. *)
Definition encode_utf8_char (c : char) : option bytes :=
  if c <? 0x80 then Some [c]
  else if c <? 0x800 then Some [0xC0 + c / 64; 0x80 + c mod 64]
  else if is_surrogate c then None
  else if c <? 0x10000
  then Some [0xE0 + c / 4096; 0x80 + (c / 64) mod 64; 0x80 + c mod 64]
  else Some [0xF0 + c / 262144; 0x80 + (c / 4096) mod 64;
             0x80 + (c / 64) mod 64; 0x80 + c mod 64].

Fixpoint encode_utf8 (s : str) : option bytes :=
  match s with
  | [] => Some []
  | c :: r =>
    match encode_utf8_char c, encode_utf8 r with
    | Some b, Some br => Some (b ++ br)
    | _, _ => None
    end
  end.

(** A part of a mail: whether its disposition is [attachment], the file
    name of the disposition, and the decoded payload.  The sender gives
    such a part to the [email] library; what the recipient's [walk] yields
    for it is [carried] below. *)
Record part := {
  part_is_attachment : bool;
  part_filename : option str;
  part_payload : option bytes
}.

(** [_attach_file_to_email]: the parts it attaches.  Every exception of
    the body is printed and nothing is attached. *)
Definition _attach_file_to_email (P : Utils.pathlib) (I : interp)
    (message : dict) : list part :=
  match dict_get (u "content") message with
  | Some (JDict content) =>
    let file_name := get_default content "file_name" (JStr (u "attachment")) in
    let file_data := get_default content "file_data" (JStr []) in
    if negb (truthy I file_data) then []
    else
      match file_data with
      | JStr data =>
        match encode_utf8 data with
        | Some octets =>
          match Base64.a2b_base64 octets with
          | Some file_bytes =>
            match file_name with
            | JStr name =>
              [{| part_is_attachment := true;
                  part_filename := Some (Utils.sanitize_filename P name);
                  part_payload := Some file_bytes |}]
            | _ => []
            end
          | None => []
          end
        | None => []
        end
      | _ => []
      end
  | _ => []
  end.

(** The last statement of [create_email_message]: a message of type
    [file] with [file_data] in its content gets the parts of
    [_attach_file_to_email].  The test raises on a message without type
    or content, and on a content that is no container. *)
Definition attached_parts (P : Utils.pathlib) (I : interp) (message : dict)
  : outcome (list part) :=
  bind (subscript message "type") (fun ty =>
  if is_str (u "file") ty then
    bind (subscript message "content") (fun content =>
    match content with
    | JDict d =>
      Return (if dict_mem (u "file_data") d
              then _attach_file_to_email P I message else [])
    | JStr s =>
      Return (if contains s (u "file_data")
              then _attach_file_to_email P I message else [])
    | JList l =>
      Return (if existsb (is_str (u "file_data")) l
              then _attach_file_to_email P I message else [])
    | _ => Raise TypeError
    end)
  else Return []).

(** The mail that [create_email_message] builds: the headers as they are
    assigned (the [email] library stores any value), the text part, which
    [MIMEText] encodes in UTF-8, and the parts attached behind it. *)
Record mail := {
  header_from : json;
  header_to : json;
  header_subject : str;
  x_echat_version : str;
  x_echat_type : json;
  x_echat_message_id : json;
  text_part : bytes;
  file_parts : list part
}.

(** [create_email_message]; [username] is [smtp_config.get('username')],
    whose default [message['sender']] is evaluated in any case, and [now]
    is the reading of the clock for the subject. *)
Definition create_email_message (P : Utils.pathlib) (I : interp)
    (now : datetime) (username : option json) (message : dict)
  : outcome mail :=
  rewrap (u "创建邮件消息失败: ")
    (bind (subscript message "sender") (fun sender =>
     bind (subscript message "recipient") (fun recipient =>
     bind (format_email_subject I now message) (fun subject =>
     bind (subscript message "type") (fun ty =>
     bind (subscript message "message_id") (fun message_id =>
     bind (format_message_body I message) (fun message_body =>
     match encode_utf8 message_body with
     | None => Raise UnicodeEncodeError
     | Some text =>
       bind (attached_parts P I message) (fun parts =>
       Return {| header_from :=
                   match username with Some name => name | None => sender end;
                 header_to := recipient;
                 header_subject := subject;
                 x_echat_version := MESSAGE_VERSION;
                 x_echat_type := ty;
                 x_echat_message_id := message_id;
                 text_part := text;
                 file_parts := parts |})
     end))))))).

(** The way of a part through the [email] library.  The generator writes
    the header [Content-Disposition: attachment; filename=...] with the
    file name between quotes, and the recipient's parser reads it:
    - a name of graphic ASCII characters other than the quote, the
      backslash and the angle brackets is written and read as it is;
    - a name with a character outside ASCII (and no surrogate) makes the
      generator write the whole header as encoded words of RFC 2047, in
      which [get_content_disposition] finds no [attachment];
    - any other name is left to the library ([reread]): a long header is
      folded at white space and the fold stays in the name that is read,
      quotes, backslashes and angle brackets are taken off by the
      unquoting, and a header with a line break or a surrogate may be
      refused, so that no mail is written ([None]). *)
Definition verbatim (c : char) : bool :=
  (0x21 <=? c) && (c <=? 0x7E)
  && negb (Utils.has_char c [34; 92; 60; 62]).

Record email_library := {
  reread : part -> option part
}.

Definition carried (M : email_library) (p : part) : option part :=
  match part_filename p with
  | Some name =>
    if forallb verbatim name then Some p
    else if negb (isascii name) && negb (existsb is_surrogate name)
    then Some {| part_is_attachment := false;
                 part_filename := None;
                 part_payload := part_payload p |}
    else reread M p
  | None => Some p
  end.

(** The parts that the recipient's [walk] yields for the parts that were
    attached. *)
Fixpoint walk (M : email_library) (parts : list part) : option (list part) :=
  match parts with
  | [] => Some []
  | p :: rest =>
    match carried M p, walk M rest with
    | Some q, Some qs => Some (q :: qs)
    | _, _ => None
    end
  end.

(** [extract_attachments_from_email] on the parts that [walk] yields. *)
Fixpoint extract_attachments_from_email (P : Utils.pathlib) (parts : list part)
  : list attachment :=
  match parts with
  | [] => []
  | p :: rest =>
    match part_is_attachment p, part_filename p with
    | true, Some (c :: name) =>
      let file_data := part_payload p in
      [{| att_filename := Utils.sanitize_filename P (c :: name);
          att_size :=
            match file_data with
            | Some (b :: data) => Z.of_nat (List.length (b :: data))
            | _ => 0
            end;
          att_data :=
            match file_data with
            | Some (b :: data) => Base64.b64encode (b :: data)
            | _ => []
            end |}]
    | _, _ => []
    end ++ extract_attachments_from_email P rest
  end.

(** A path library for names without directories and extensions. *)
Definition P0 : Utils.pathlib :=
  {| Utils.stem := fun s => s; Utils.suffix := fun _ => [] |}.

End Attachments.
Import Attachments.

(** ** [src/email_manager.py]: what goes into the database and the queue *)

Module Storing.

(** The arguments of [add_message] in [send_message_sync], evaluated in
    the order in which they are written.  The mail is out when they are
    evaluated. *)
Definition stored_fields (message : dict) : outcome (list json) :=
  bind (subscript message "recipient") (fun contact_email =>
  bind (subscript message "sender") (fun sender_email =>
  bind (subscript message "recipient") (fun receiver_email =>
  bind (subscript message "content") (fun content =>
  bind match content with
       | JDict d => subscript d "text"
       | _ => Raise TypeError
       end (fun text =>
  bind (subscript message "type") (fun message_type =>
  bind (subscript message "message_id") (fun message_id =>
  Return [contact_email; sender_email; receiver_email; text;
          message_type; message_id]))))))).

(** What the statements behind [send_message] make of a mail that the
    server accepted. *)
Definition transmit_accepted (message : dict) : transmission :=
  match stored_fields message with
  | Return _ => Delivered
  | Raise cause => StoreRaises cause
  end.

(** The row that [_save_received_message] hands to [add_message]. *)
Record row := {
  contact_email : json;
  sender_email : json;
  receiver_email : str;
  row_content : json;
  message_type : json;
  row_message_id : json
}.

(** The display name is taken off an address of the form
    [Name <address>]. *)
Definition clean_sender (sender_email : json) : outcome json :=
  match sender_email with
  | JStr s =>
    if Utils.has_char 60 s && Utils.has_char 62 s
    then Return (JStr (hd [] (split_char 62 (nth 1 (split_char 60 s) []))))
    else Return (JStr s)
  | JList l =>
    if existsb (is_str (u "<")) l && existsb (is_str (u ">")) l
    then Raise AttributeError
    else Return (JList l)
  | JDict d =>
    if dict_mem (u "<") d && dict_mem (u ">") d
    then Raise AttributeError
    else Return (JDict d)
  | _ => Raise TypeError
  end.

(** [_save_received_message]: [None] when an exception was printed and
    nothing was handed to [add_message]; [username] is the configured
    address. *)
Definition _save_received_message (username : str) (message : dict)
  : option row :=
  let sender_email :=
    get_default message "sender"
      (get_default message "email_sender" (JStr [])) in
  match clean_sender sender_email with
  | Raise _ => None
  | Return sender_email =>
    match get_default message "content" (JDict []) with
    | JDict content =>
      Some {| contact_email := sender_email;
              sender_email := sender_email;
              receiver_email := username;
              row_content := get_default content "text" (JStr []);
              message_type := get_default message "type" (JStr (u "text"));
              row_message_id := get_default message "message_id" (JStr []) |}
    | _ => None
    end
  end.

(** [send_message_async]: the answer, the world with its queue, and
    whether the sender thread runs afterwards.  [username] is the
    configured address, empty when none is configured. *)
Definition send_message_async (E : env) (username recipient content : str)
    (message_type : str) (send_running : bool) (w : world)
  : bool * world * bool :=
  match username with
  | [] => (false, w, send_running)
  | _ =>
    if PyStr.eqb message_type (u "text") then
      match create_text_message E username recipient content with
      | Return message =>
        (true, set_queue (send_queue w ++ [message]) w, true)
      | Raise _ => (false, w, send_running)
      end
    else (false, w, send_running)
  end.

End Storing.
Import Storing.

(** * Properties *)

Example u_ascii : u "[E-Chat]" = [91; 69; 45; 67; 104; 97; 116; 93].
Proof. reflexivity. Qed.

Example u_cjk : u "收件箱" = [25910; 20214; 31665].
Proof. reflexivity. Qed.

Example strip_ex : strip (u "  hi there
 ") = u "hi there".
Proof. reflexivity. Qed.

Example split_ex :
  split_char 95 (u "echat_2024_ab") = [u "echat"; u "2024"; u "ab"].
Proof. reflexivity. Qed.

Example email_ok : validate_email (u "alice.b+tag@mail.example.org") = true.
Proof. vm_compute. reflexivity. Qed.

Example email_padded : validate_email (u " bob@example.com ") = true.
Proof. vm_compute. reflexivity. Qed.

Example email_bad : validate_email (u "bob@example") = false.
Proof. vm_compute. reflexivity. Qed.

Example email_bad_tld : validate_email (u "bob@example.c0m") = false.
Proof. vm_compute. reflexivity. Qed.

Example dumps_ex :
  dumps (JDict [(u "a", JInt (-12)); (u "b", JList [JStr (dq "x'y"); JBool true]);
                (u "c", JDict [])])
  = dq "{
  'a': -12,
  'b': [
    'x\'y',
    true
  ],
  'c': {}
}".
Proof. vm_compute. reflexivity. Qed.

Example loads_ex :
  loads (dq "{ 'a' : [1, -20, true, null, 'x\né'], 'b': {}, 'a': 3 } ")
  = Ok (JDict [(u "a", JInt 3); (u "b", JDict [])]).
Proof. vm_compute. reflexivity. Qed.

Example loads_float : loads (u "[1.5e3, 0]") = Ok (JList [JFloat (u "1.5e3"); JInt 0]).
Proof. vm_compute. reflexivity. Qed.

Example loads_bad1 : loads (dq "{'a': 01}") = DecodeError.
Proof. vm_compute. reflexivity. Qed.

Example loads_bad2 : loads (u "[1, 2,]") = DecodeError.
Proof. vm_compute. reflexivity. Qed.

Example loads_bad3 : loads (dq "{'a': 1} x") = DecodeError.
Proof. vm_compute. reflexivity. Qed.

Example loads_dumps_ex :
  let v := JDict [(u "a", JInt (-12));
                  (u "b", JList [JStr (dq "x'y\z"); JBool true; JNull]);
                  (u "c", JDict []); (u "d", JList [])] in
  loads (dumps v) = Ok v.
Proof. vm_compute. reflexivity. Qed.

Example b64encode_ex : Base64.b64encode (u "hello!!") = u "aGVsbG8hIQ==".
Proof. vm_compute. reflexivity. Qed.

Example b64decode_ex : Base64.b64decode (u "aGVs bG8hIQ==") = Some (u "hello!!").
Proof. vm_compute. reflexivity. Qed.

Example b64decode_bad : Base64.b64decode (u "aGVsb") = None.
Proof. vm_compute. reflexivity. Qed.

Example utf16_ex :
  Utf16.encode_be (u "收𝄞") = Some [0x65; 0x36; 0xD8; 0x34; 0xDD; 0x1E]
  /\ Utf16.decode_be [0x65; 0x36; 0xD8; 0x34; 0xDD; 0x1E] = Some (u "收𝄞").
Proof. vm_compute. split; reflexivity. Qed.

Example encode_folder_ex : _encode_imap_utf7 (u "收件箱") = u "&ZTZO9nux-".
Proof. vm_compute. reflexivity. Qed.

Example decode_folder_ex : _decode_imap_utf7 (u "&ZTZO9nux-") = u "收件箱".
Proof. vm_compute. reflexivity. Qed.

Example decode_sent_ex : _decode_imap_utf7 (u "&XfJT0ZAB-") = u "已发送".
Proof. vm_compute. reflexivity. Qed.

(** ** Strings *)

Lemma str_eqb_eq (a b : str) : PyStr.eqb a b = true <-> a = b.
Proof.
  revert b; induction a as [|x a IH]; intros [|y b]; simpl;
    try (split; [discriminate | congruence]); try tauto.
  rewrite andb_true_iff, N.eqb_eq, IH. split.
  - intros [-> ->]; reflexivity.
  - intros H; injection H; auto.
Qed.

Lemma str_eqb_refl (a : str) : PyStr.eqb a a = true.
Proof. apply str_eqb_eq; reflexivity. Qed.

Lemma str_eqb_neq (a b : str) : PyStr.eqb a b = false <-> a <> b.
Proof.
  rewrite <- str_eqb_eq. destruct (PyStr.eqb a b); split; congruence.
Qed.

Lemma existsb_eqb_In (a : str) (l : list str) :
  existsb (PyStr.eqb a) l = true <-> In a l.
Proof.
  rewrite existsb_exists. split.
  - intros (x & Hx & E). apply str_eqb_eq in E. subst; assumption.
  - intros H. exists a. split; [assumption | apply str_eqb_refl].
Qed.

Lemma startswith_app (p rest : str) : startswith (p ++ rest) p = true.
Proof.
  induction p as [|c p IH]; simpl.
  - destruct rest; reflexivity.
  - rewrite N.eqb_refl, IH. reflexivity.
Qed.

Lemma startswith_prefix (s p : str) :
  startswith s p = true <-> exists rest, s = p ++ rest.
Proof.
  split.
  - revert s; induction p as [|c p IH]; intros s H.
    + exists s; reflexivity.
    + destruct s as [|d s]; simpl in H; [discriminate|].
      apply andb_true_iff in H as [E H]. apply N.eqb_eq in E. subst d.
      destruct (IH _ H) as [rest ->]. exists rest; reflexivity.
  - intros [rest ->]. apply startswith_app.
Qed.

Lemma lstrip_by_keeps (f : char -> bool) (s : str) (c : char) :
  In c s -> f c = true \/ In c (lstrip_by f s).
Proof.
  induction s as [|d s IH]; simpl; [tauto|].
  intros [-> | H].
  - destruct (f c) eqn:E; [left; reflexivity | right; left; reflexivity].
  - destruct (f d) eqn:E; [auto | right; right; assumption].
Qed.

Lemma strip_keeps (s : str) (c : char) :
  In c s -> isspace c = true \/ In c (strip s).
Proof.
  intros H. unfold strip, rstrip_by.
  destruct (lstrip_by_keeps isspace s c H) as [|H1]; [auto|].
  apply in_rev in H1.
  destruct (lstrip_by_keeps isspace _ c H1) as [|H2]; [auto|].
  right. apply in_rev. rewrite rev_involutive. assumption.
Qed.

(** ** The envelope codec: kinds and subjects *)

Example message_id_ex :
  generate_message_id E0 = u "echat_20240309140507_1f2e3d4c".
Proof. vm_compute. reflexivity. Qed.

Example isoformat_ex : isoformat t0 = u "2024-03-09T14:05:07.120034".
Proof. vm_compute. reflexivity. Qed.

Lemma known_type_In (t : str) : known_type t = true <-> In t MESSAGE_TYPES.
Proof. apply existsb_eqb_In. Qed.

(** C6, as the claim states it, fails: ["image"] is outside the four kinds
    of the claim, and a base message of that kind is built. *)
Lemma image_kind_is_built :
  ~ In (u "image") [u "text"; u "file"; u "status"; u "system"]
  /\ validate_email alice = true /\ validate_email bob = true
  /\ exists m, _create_base_message E0 alice bob (u "image") [] = Return m
               /\ dict_get (u "type") m = Some (JStr (u "image")).
Proof.
  split; [|split; [|split]].
  - vm_compute. intros H.
    repeat (destruct H as [H|H]; [discriminate H|]). exact H.
  - vm_compute. reflexivity.
  - vm_compute. reflexivity.
  - eexists. split; vm_compute; reflexivity.
Qed.

(** C6, amended: with valid sender and recipient addresses
    [_create_base_message] builds an envelope of the requested kind for
    each of the five kinds text, file, image, status and system, and raises
    [ValueError] for every other kind. *)
Theorem create_base_message_kinds
    (E : env) (sender recipient message_type : str) (content : dict) :
  validate_email sender = true ->
  validate_email recipient = true ->
  (In message_type [u "text"; u "file"; u "image"; u "status"; u "system"] ->
   exists m, _create_base_message E sender recipient message_type content
             = Return m
             /\ dict_get (u "type") m = Some (JStr message_type))
  /\ (~ In message_type [u "text"; u "file"; u "image"; u "status"; u "system"] ->
      _create_base_message E sender recipient message_type content
      = Raise (ValueError (u "不支持的消息类型: " ++ message_type))).
Proof.
  intros Hs Hr. unfold _create_base_message. rewrite Hs, Hr. simpl negb.
  cbv iota. split; intros H.
  - apply known_type_In in H. rewrite H. simpl negb. cbv iota.
    eexists. split; reflexivity.
  - destruct (known_type message_type) eqn:K.
    + apply known_type_In in K. contradiction.
    + reflexivity.
Qed.

Lemma create_base_message_kinds_witness :
  (exists m, _create_base_message E0 alice bob (u "status") [] = Return m
             /\ dict_get (u "type") m = Some (JStr (u "status")))
  /\ _create_base_message E0 alice bob (u "video") []
     = Raise (ValueError (u "不支持的消息类型: " ++ u "video")).
Proof.
  destruct (create_base_message_kinds E0 alice bob (u "status") [])
    as [A _]; [vm_compute; reflexivity | vm_compute; reflexivity |].
  destruct (create_base_message_kinds E0 alice bob (u "video") [])
    as [_ B]; [vm_compute; reflexivity | vm_compute; reflexivity |].
  split.
  - apply A. vm_compute. tauto.
  - apply B. vm_compute. intros H.
    repeat (destruct H as [H|H]; [discriminate H|]). exact H.
Defined.

(** C9: [is_echat_message] answers [False] for every subject that does not
    start with the prefix ["[E-Chat]"], and [True] for every subject that
    [format_email_subject] produces, whatever the message. *)
Theorem is_echat_message_gate :
  (forall subject : str,
      ~ (exists rest, subject = u "[E-Chat]" ++ rest) ->
      is_echat_message subject = false)
  /\ (forall (I : interp) (now : datetime) (message : dict) (subject : str),
         format_email_subject I now message = Return subject ->
         is_echat_message subject = true).
Proof.
  split.
  - intros subject H. unfold is_echat_message.
    destruct (startswith subject SUBJECT_PREFIX) eqn:E; [|reflexivity].
    apply startswith_prefix in E. contradiction.
  - intros I now message subject H. unfold format_email_subject in H.
    destruct (get_default message "message_id" (JStr (u "unknown")))
      as [| | | | s | l | d]; simpl in H; try discriminate H.
    + injection H as <-. reflexivity.
    + destruct (existsb _ l); [discriminate H|].
      injection H as <-. reflexivity.
    + destruct (dict_mem _ d); discriminate H.
Qed.

Lemma is_echat_message_gate_witness :
  is_echat_message (u "Re: [E-Chat] text_1_2") = false
  /\ is_echat_message (u "[E-Chat] text_20240309140507_1f2e3d4c") = true.
Proof.
  destruct is_echat_message_gate as [A B]. split.
  - apply A. intros [rest H]. vm_compute in H. discriminate H.
  - apply (B I0 t0
             [(u "message_id", JStr (u "echat_20240309140507_1f2e3d4c"));
              (u "type", JStr (u "text"))]).
    vm_compute. reflexivity.
Defined.

(** ** The length limit of text messages *)

Lemma dict_get_here (k : str) (v : json) (d : dict) :
  dict_get k ((k, v) :: d) = Some v.
Proof. simpl. rewrite str_eqb_refl. reflexivity. Qed.

Lemma dict_get_next (k k' : str) (v : json) (d : dict) :
  PyStr.eqb k k' = false -> dict_get k ((k', v) :: d) = dict_get k d.
Proof. intros H. simpl. rewrite H. reflexivity. Qed.

(** Looks a literal key up in a dictionary whose keys are literals. *)
Ltac dict_lookup :=
  repeat first [ rewrite dict_get_here
               | rewrite dict_get_next by reflexivity ].

(** C5, as the claim states it, fails: a text of 6000 characters is built
    into an envelope. *)
Lemma long_text_is_built :
  List.length (repeat 120 (60 * 100)) = (60 * 100)%nat
  /\ validate_email alice = true /\ validate_email bob = true
  /\ exists m, create_text_message E0 alice bob (repeat 120 (60 * 100))
               = Return m.
Proof.
  split; [|split; [|split]]; try (vm_compute; reflexivity).
  eexists. vm_compute. reflexivity.
Qed.

(** C5, amended: with valid addresses [create_text_message] builds an
    envelope for a text of any length; the limit of 5000 code points is
    applied by [validate_message_content], which accepts the built
    envelope when the text has at most 5000 code points and rejects it as
    too long otherwise. *)
Theorem text_length_checked_by_validator
    (I : interp) (E : env) (sender recipient content : str) :
  validate_email sender = true ->
  validate_email recipient = true ->
  exists m, create_text_message E sender recipient content = Return m
    /\ ((List.length content <= 5000)%nat ->
        validate_message_content I m = (true, u "消息验证通过"))
    /\ ((5000 < List.length content)%nat ->
        validate_message_content I m = (false, u "消息内容过长")).
Proof.
  intros Hs Hr.
  unfold create_text_message, _create_base_message.
  rewrite Hs, Hr. simpl negb. cbv iota.
  change (known_type (u "text")) with true. simpl negb. cbv iota.
  eexists. split; [reflexivity|].
  unfold validate_message_content.
  match goal with |- context [_validate_message_format ?m] =>
    change (_validate_message_format m) with true end.
  simpl negb. cbv iota.
  unfold bad_address. dict_lookup.
  unfold validate_email_value. rewrite Hs, Hr.
  unfold validate_typed_content.
  change (is_str (u "text") (JStr (u "text"))) with true. cbv iota.
  dict_lookup.
  unfold validate_length_value, validate_message_length, default_max_length.
  split; intros H.
  - apply Nat.leb_le in H. rewrite H. reflexivity.
  - apply Nat.leb_gt in H. rewrite H. reflexivity.
Qed.

Lemma text_length_checked_by_validator_witness :
  (exists m, create_text_message E0 alice bob (repeat 120 100) = Return m
      /\ validate_message_content I0 m = (true, u "消息验证通过"))
  /\ (exists m, create_text_message E0 alice bob (repeat 120 (51 * 100)) = Return m
      /\ validate_message_content I0 m = (false, u "消息内容过长")).
Proof.
  split.
  - destruct (text_length_checked_by_validator I0 E0 alice bob (repeat 120 100))
      as (m & A & B & _); [vm_compute; reflexivity ..|].
    exists m. split; [exact A|]. apply B. rewrite repeat_length. lia.
  - destruct (text_length_checked_by_validator I0 E0 alice bob (repeat 120 (51 * 100)))
      as (m & A & _ & B); [vm_compute; reflexivity ..|].
    exists m. split; [exact A|]. apply B. rewrite repeat_length. lia.
Defined.

(** ** The inbox folder *)

Lemma find_any_is_head (folders : list str) :
  find (fun _ => true) folders = hd_error folders.
Proof. destruct folders; reflexivity. Qed.

Lemma first_priority_amended (I : interp) (folders : list str) :
  first_priority (priority_folders I) folders = amended_order I folders.
Proof.
  unfold priority_folders, amended_order, or_find, is_inbox_name,
    is_synonym, mentions_inbox, mentions_received.
  cbn [first_priority]. rewrite find_any_is_head.
  repeat match goal with
         | |- context [if ?c then _ else _] => destruct c; try reflexivity
         | |- context [match find ?t folders with _ => _ end] =>
           destruct (find t folders); try reflexivity
         end.
  destruct (hd_error folders); reflexivity.
Qed.

(** C8, as the claim states it, fails: no folder of this listing is named
    "INBOX", is a synonym or mentions "inbox"; the stated order ends at the
    first folder, the code picks the folder that decodes to "我的收件夹". *)
Lemma received_folder_before_first :
  let folders := [u "Sent"; u "&YhF2hGU2TvZZOQ-"] in
  _decode_imap_utf7 (u "&YhF2hGU2TvZZOQ-") = u "我的收件夹"
  /\ stated_order I0 folders = Some (u "Sent")
  /\ _find_inbox_folder I0 true folders [] = Some (u "&YhF2hGU2TvZZOQ-").
Proof. vm_compute. repeat split; reflexivity. Qed.

(** C8, amended: with the connection up and no folder configured,
    [_find_inbox_folder] is a function of the listing alone and selects, in
    this order: the exact name "INBOX"; else the first folder whose decoded
    name is an inbox synonym, case-insensitively; else the first whose
    decoded name contains "inbox", case-insensitively; else the first whose
    decoded name contains "收件"; else the first listed folder.  The
    listing Sent, Trash, INBOX resolves to "INBOX", and a listing whose
    entries decode to "已发送" and "收件箱" resolves to the latter entry. *)
Theorem find_inbox_folder_order (I : interp) (inbox_folder : str) :
  strip inbox_folder = [] ->
  lower I (u "已发送") = u "已发送" ->
  lower I (u "收件箱") = u "收件箱" ->
  (forall folders : list str,
      _find_inbox_folder I true folders inbox_folder
      = amended_order I folders)
  /\ _find_inbox_folder I true [u "Sent"; u "Trash"; u "INBOX"] inbox_folder
     = Some (u "INBOX")
  /\ _find_inbox_folder I true [u "已发送"; u "收件箱"] inbox_folder
     = Some (u "收件箱")
  /\ _find_inbox_folder I true [u "&XfJT0ZAB-"; u "&ZTZO9nux-"] inbox_folder
     = Some (u "&ZTZO9nux-").
Proof.
  intros Hcfg Hsent Hinbox.
  assert (Heq : forall folders,
             _find_inbox_folder I true folders inbox_folder
             = amended_order I folders).
  { intros folders. unfold _find_inbox_folder. simpl negb. cbv iota.
    rewrite Hcfg. destruct folders as [|f folders]; [reflexivity|].
    apply first_priority_amended. }
  split; [exact Heq|]. rewrite !Heq.
  split; [reflexivity|].
  unfold amended_order, or_find, is_inbox_name.
  split.
  - change (existsb (PyStr.eqb (u "INBOX")) [u "已发送"; u "收件箱"]) with false.
    cbv iota. unfold find, is_synonym.
    change (_decode_imap_utf7 (u "已发送")) with (u "已发送").
    change (_decode_imap_utf7 (u "收件箱")) with (u "收件箱").
    rewrite Hsent, Hinbox. reflexivity.
  - change (existsb (PyStr.eqb (u "INBOX")) [u "&XfJT0ZAB-"; u "&ZTZO9nux-"])
      with false.
    cbv iota. unfold find, is_synonym.
    change (_decode_imap_utf7 (u "&XfJT0ZAB-")) with (u "已发送").
    change (_decode_imap_utf7 (u "&ZTZO9nux-")) with (u "收件箱").
    rewrite Hsent, Hinbox. reflexivity.
Qed.

Lemma find_inbox_folder_order_witness :
  _find_inbox_folder I0 true [u "Drafts"; u "My Inbox 2"; u "Archive"] (u " ")
  = Some (u "My Inbox 2")
  /\ _find_inbox_folder I0 true [u "已发送"; u "收件箱"] (u " ")
     = Some (u "收件箱").
Proof.
  destruct (find_inbox_folder_order I0 (u " ")) as (A & _ & B & _);
    [vm_compute; reflexivity ..|].
  split.
  - rewrite A. vm_compute. reflexivity.
  - exact B.
Defined.

(** ** The JSON decoder always answers *)

Lemma lstrip_by_length (f : char -> bool) (s : str) :
  (List.length (lstrip_by f s) <= List.length s)%nat.
Proof.
  induction s as [|c s IH]; simpl; [lia|].
  destruct (f c); simpl; lia.
Qed.

Lemma skip_ws_length (s : str) :
  (List.length (skip_ws s) <= List.length s)%nat.
Proof. apply lstrip_by_length. Qed.

Lemma cons_fst_length (c : char) (o : option (str * str)) (x r : str) (n : nat) :
  (forall x' r', o = Some (x', r') -> (List.length r' < n)%nat) ->
  cons_fst c o = Some (x, r) -> (List.length r < n)%nat.
Proof.
  intros H E. destruct o as [[x' r']|]; simpl in E; [|discriminate].
  injection E as _ <-. eapply H. reflexivity.
Qed.

Lemma scanstring_length_aux (n : nat) :
  forall s x r, (List.length s <= n)%nat ->
    scanstring s = Some (x, r) -> (List.length r < List.length s)%nat.
Proof.
  induction n as [|n IH]; intros s x r Hn E.
  - destruct s; simpl in Hn; [discriminate E | lia].
  - destruct s as [|c s]; [discriminate E|].
    simpl in Hn. cbn [scanstring] in E.
    destruct (c =? 34).
    { injection E as _ <-. simpl. lia. }
    destruct (c =? 92).
    2:{ destruct (c <? 32); [discriminate|].
        eapply cons_fst_length in E; [simpl; apply Nat.lt_lt_succ_r, E|].
        intros x' r' E'. eapply IH; [|exact E']. lia. }
    destruct s as [|e r1]; [discriminate|].
    destruct (e =? 117).
    2:{ destruct (unescape e); [|discriminate].
        eapply cons_fst_length in E; [simpl; apply Nat.lt_lt_succ_r, Nat.lt_lt_succ_r, E|].
        intros x' r' E'. eapply IH; [|exact E']. simpl in Hn. lia. }
    destruct r1 as [|h1 [|h2 [|h3 [|h4 r2]]]]; try discriminate.
    destruct (hex4 h1 h2 h3 h4) as [uni|]; [|discriminate].
    simpl in Hn.
    assert (K2 : forall x' r', scanstring r2 = Some (x', r') ->
                 (List.length r' < List.length r2)%nat).
    { intros x' r' E'. eapply IH; [|exact E']. lia. }
    assert (G : forall c', cons_fst c' (scanstring r2) = Some (x, r) ->
                (List.length r < List.length (c :: e :: h1 :: h2 :: h3 :: h4 :: r2))%nat).
    { intros c' E'. eapply cons_fst_length in E'.
      - simpl. instantiate (1 := List.length r2) in E'. lia.
      - exact K2. }
    destruct r2 as [|b [|v [|g1 [|g2 [|g3 [|g4 r3]]]]]]; try (eapply G; exact E).
    destruct (is_high_surrogate uni && (b =? 92) && (v =? 117));
      [|eapply G; exact E].
    destruct (hex4 g1 g2 g3 g4) as [uni2|]; [|discriminate].
    destruct (is_low_surrogate uni2); [|eapply G; exact E].
    eapply cons_fst_length in E.
    + simpl. instantiate (1 := List.length r3) in E. lia.
    + intros x' r' E'. eapply IH; [|exact E']. simpl in Hn. lia.
Qed.

Lemma scanstring_length (s x r : str) :
  scanstring s = Some (x, r) -> (List.length r < List.length s)%nat.
Proof. apply (scanstring_length_aux (List.length s)). lia. Qed.

Lemma span_digits_length (s ds r : str) :
  span_digits s = (ds, r) -> (List.length r <= List.length s)%nat.
Proof.
  revert ds r; induction s as [|c s IH]; intros ds r E; simpl in E.
  - injection E as _ <-. simpl; lia.
  - destruct (is_digit c).
    + destruct (span_digits s) as [ds' r'] eqn:E'. injection E as _ <-.
      specialize (IH _ _ eq_refl). simpl; lia.
    + injection E as _ <-. lia.
Qed.

Lemma scan_frac_length (s f r : str) :
  scan_frac s = (f, r) -> (List.length r <= List.length s)%nat.
Proof.
  unfold scan_frac. intros E.
  destruct s as [|p [|d s]]; try (injection E as _ <-; lia).
  destruct ((p =? 46) && is_digit d); [|injection E as _ <-; lia].
  destruct (span_digits (d :: s)) as [fs r'] eqn:E'. injection E as _ <-.
  apply span_digits_length in E'. simpl in *; lia.
Qed.

Lemma scan_exp_length (s x r : str) :
  scan_exp s = (x, r) -> (List.length r <= List.length s)%nat.
Proof.
  unfold scan_exp. intros E.
  destruct s as [|e s]; [injection E as _ <-; lia|].
  destruct ((e =? 101) || (e =? 69)); [|injection E as _ <-; lia].
  destruct (match s with
            | [] => ([], s)
            | g :: t => if (g =? 43) || (g =? 45) then ([g], t) else ([], s)
            end) as [sign r1] eqn:E1.
  assert (L1 : (List.length r1 <= List.length s)%nat).
  { destruct s as [|g t]; [injection E1 as _ <-; lia|].
    destruct ((g =? 43) || (g =? 45)); injection E1 as _ <-; simpl; lia. }
  destruct r1 as [|d r1']; [injection E as _ <-; lia|].
  destruct (is_digit d); [|injection E as _ <-; lia].
  destruct (span_digits (d :: r1')) as [ds r2] eqn:E2. injection E as _ <-.
  apply span_digits_length in E2. simpl in *; lia.
Qed.

Lemma match_number_length (s : str) (v : json) (r : str) :
  match_number s = Some (v, r) -> (List.length r < List.length s)%nat.
Proof.
  unfold match_number. intros E.
  destruct (match s with
            | [] => (false, s)
            | c :: r0 => if c =? 45 then (true, r0) else (false, s)
            end) as [neg s1] eqn:E1.
  assert (L1 : (List.length s1 <= List.length s)%nat).
  { destruct s as [|c r0]; [injection E1 as _ <-; lia|].
    destruct (c =? 45); injection E1 as _ <-; simpl; lia. }
  destruct s1 as [|d r0]; [discriminate|].
  destruct (is_digit d); [|discriminate].
  destruct (if d =? 48 then ([d], r0)
            else let (ds, r') := span_digits r0 in (d :: ds, r'))
    as [ip r1] eqn:E2.
  assert (L2 : (List.length r1 <= List.length r0)%nat).
  { destruct (d =? 48); [injection E2 as _ <-; lia|].
    destruct (span_digits r0) as [ds r'] eqn:E3. injection E2 as _ <-.
    eapply span_digits_length; eassumption. }
  destruct (scan_frac r1) as [frac r2] eqn:E3.
  destruct (scan_exp r2) as [ex r3] eqn:E4.
  apply scan_frac_length in E3. apply scan_exp_length in E4.
  assert (r = r3) as ->.
  { destruct frac, ex; injection E as _ <-; reflexivity. }
  simpl in *; lia.
Qed.

Lemma startswith_skipn (s p : str) :
  startswith s p = true ->
  (List.length (skipn (List.length p) s) + List.length p = List.length s)%nat.
Proof.
  revert s; induction p as [|c p IH]; intros s H; simpl.
  - lia.
  - destruct s as [|d s]; simpl in H; [discriminate|].
    apply andb_true_iff in H as [_ H]. specialize (IH _ H). simpl. lia.
Qed.

Lemma literal_length (s : str) (w : string) (v v' : json) (r : str) :
  u w <> [] ->
  literal s w v = Some (v', r) -> (List.length r < List.length s)%nat.
Proof.
  unfold literal. intros Hw E.
  destruct (startswith s (u w)) eqn:S; [|discriminate].
  injection E as _ <-. apply startswith_skipn in S.
  destruct (u w); [congruence|]. simpl in *; lia.
Qed.

Lemma or_else_some {A} (a b : option A) (x : A) :
  or_else a b = Some x -> a = Some x \/ b = Some x.
Proof. destruct a; simpl; auto. Qed.

Lemma scalar_length (s : str) (v : json) (r : str) :
  or_else (literal s "null" JNull)
    (or_else (literal s "true" (JBool true))
    (or_else (literal s "false" (JBool false))
    (or_else (match_number s)
    (or_else (literal s "NaN" (JFloat (u "NaN")))
    (or_else (literal s "Infinity" (JFloat (u "Infinity")))
             (literal s "-Infinity" (JFloat (u "-Infinity"))))))))
  = Some (v, r) ->
  (List.length r < List.length s)%nat.
Proof.
  intros E.
  repeat (apply or_else_some in E as [E|E]);
    first [ eapply match_number_length; exact E
          | eapply literal_length; [|exact E]; vm_compute; discriminate ].
Qed.

Lemma fuel_ok_error {A} (n : nat) : @fuel_ok A n DecodeError.
Proof. split; [discriminate | intros a r H; discriminate H]. Qed.

Lemma fuel_ok_ok {A} (n : nat) (a : A) (r : str) :
  (List.length r < n)%nat -> fuel_ok n (Ok (a, r)).
Proof.
  intros H. split; [discriminate|]. intros a' r' E. injection E as _ <-. exact H.
Qed.

Lemma fuel_ok_weaken {A} (n m : nat) (p : result (A * str)) :
  (n <= m)%nat -> fuel_ok n p -> fuel_ok m p.
Proof.
  intros L [H1 H2]. split; [exact H1|]. intros a r E.
  specialize (H2 a r E). lia.
Qed.

Lemma fuel_ok_map {A B} (n : nat) (f : A -> B) (p : result (A * str)) :
  fuel_ok n p ->
  fuel_ok n match p with
            | Ok (a, r) => Ok (f a, r)
            | DecodeError => DecodeError
            | NoFuel => NoFuel
            end.
Proof.
  intros [H1 H2]. destruct p as [[a r]| |]; try (apply fuel_ok_error).
  - apply fuel_ok_ok. eapply H2; reflexivity.
  - congruence.
Qed.

Lemma skip_ws_cons_length (s : str) (c : char) (r : str) :
  skip_ws s = c :: r -> (List.length r < List.length s)%nat.
Proof.
  intros E. pose proof (skip_ws_length s) as L. rewrite E in L.
  simpl in L. lia.
Qed.

Lemma parse_fuel (fuel : nat) :
  (forall s, (2 * List.length s < fuel)%nat ->
             fuel_ok (List.length s) (parse_value fuel s))
  /\ (forall s acc, (2 * List.length s < fuel)%nat ->
                    fuel_ok (List.length s) (parse_members fuel s acc))
  /\ (forall s acc, (2 * List.length s + 1 < fuel)%nat ->
                    fuel_ok (List.length s) (parse_elements fuel s acc)).
Proof.
  induction fuel as [|fuel (IHv & IHm & IHe)].
  { repeat split; intros; lia. }
  split; [|split].
  - intros s L. destruct s as [|c r]; [apply fuel_ok_error|].
    cbn [parse_value]. simpl List.length in *.
    destruct (c =? 34).
    { destruct (scanstring r) as [[x r']|] eqn:E; [|apply fuel_ok_error].
      apply fuel_ok_ok. apply scanstring_length in E. lia. }
    destruct (c =? 123).
    { destruct (skip_ws r) as [|c' r'] eqn:E; [apply fuel_ok_error|].
      apply skip_ws_cons_length in E.
      destruct (c' =? 125); [apply fuel_ok_ok; lia|].
      destruct (c' =? 34); [|apply fuel_ok_error].
      apply (fuel_ok_weaken (List.length r')); [lia|].
      apply (fuel_ok_map _ JDict). apply IHm. lia. }
    destruct (c =? 91).
    { destruct (skip_ws r) as [|c' r'] eqn:E; [apply fuel_ok_error|].
      apply skip_ws_cons_length in E.
      destruct (c' =? 93); [apply fuel_ok_ok; lia|].
      apply (fuel_ok_weaken (List.length (c' :: r'))); [simpl; lia|].
      apply (fuel_ok_map _ JList). apply IHe. simpl. lia. }
    match goal with |- fuel_ok _ (of_option ?o) =>
      destruct o as [[v r']|] eqn:E end; simpl of_option.
    + apply fuel_ok_ok. apply scalar_length in E. simpl in E. exact E.
    + apply fuel_ok_error.
  - intros s acc L. cbn [parse_members].
    destruct (scanstring s) as [[key r]|] eqn:E; [|apply fuel_ok_error].
    apply scanstring_length in E.
    destruct (skip_ws r) as [|c r1] eqn:E1; [apply fuel_ok_error|].
    apply skip_ws_cons_length in E1.
    destruct (c =? 58); [|apply fuel_ok_error].
    pose proof (skip_ws_length r1) as L1.
    destruct (IHv (skip_ws r1)) as [N1 N2]; [lia|].
    destruct (parse_value fuel (skip_ws r1)) as [[v r2]| |];
      [|apply fuel_ok_error|congruence].
    specialize (N2 _ _ eq_refl).
    destruct (skip_ws r2) as [|d r3] eqn:E2; [apply fuel_ok_error|].
    apply skip_ws_cons_length in E2.
    destruct (d =? 125); [apply fuel_ok_ok; lia|].
    destruct (d =? 44); [|apply fuel_ok_error].
    destruct (skip_ws r3) as [|q r4] eqn:E3; [apply fuel_ok_error|].
    apply skip_ws_cons_length in E3.
    destruct (q =? 34); [|apply fuel_ok_error].
    apply (fuel_ok_weaken (List.length r4)); [lia|]. apply IHm. lia.
  - intros s acc L. cbn [parse_elements].
    destruct (IHv s) as [N1 N2]; [lia|].
    destruct (parse_value fuel s) as [[v r]| |];
      [|apply fuel_ok_error|congruence].
    specialize (N2 _ _ eq_refl).
    destruct (skip_ws r) as [|d r1] eqn:E1; [apply fuel_ok_error|].
    apply skip_ws_cons_length in E1.
    destruct (d =? 93); [apply fuel_ok_ok; lia|].
    destruct (d =? 44); [|apply fuel_ok_error].
    pose proof (skip_ws_length r1) as L1.
    apply (fuel_ok_weaken (List.length (skip_ws r1))); [lia|]. apply IHe. lia.
Qed.

Theorem loads_total (s : str) : loads s <> NoFuel.
Proof.
  unfold loads, loads_fuel. destruct (startswith s [65279]); [discriminate|].
  destruct (parse_fuel (S (2 * List.length s))) as (Hv & _ & _).
  destruct (Hv (skip_ws s)) as [N _].
  { pose proof (skip_ws_length s). lia. }
  destruct (parse_value _ (skip_ws s)) as [[v r]| |];
    [destruct (skip_ws r); discriminate | discriminate | congruence].
Qed.

Lemma find_char_skipn (c : char) (s : str) (i : nat) :
  find_char c s = Some i -> exists r, skipn i s = c :: r.
Proof.
  revert i; induction s as [|d s IH]; intros i H; simpl in H; [discriminate|].
  destruct (d =? c) eqn:E.
  - injection H as <-. apply N.eqb_eq in E. subst d. exists s. reflexivity.
  - destruct (find_char c s) as [j|]; [|discriminate].
    injection H as <-. simpl. apply IH. reflexivity.
Qed.

(** ** Folder names: Base64, UTF-16 and the round trip *)

Lemma N_range_In (count : nat) : forall start v,
  start <= v -> v < start + N.of_nat count -> In v (N_range start count).
Proof.
  induction count as [|k IH]; intros start v L U.
  - lia.
  - simpl. destruct (N.eq_dec start v) as [->|Hne]; [left; reflexivity|].
    right. apply IH; lia.
Qed.

Lemma all_below_spec (bits : nat) (test : N -> bool) :
  all_below bits test = true ->
  forall v, v < 2 ^ N.of_nat bits -> test v = true.
Proof.
  unfold all_below. intros H v L. rewrite forallb_forall in H. apply H.
  apply N_range_In; [lia|].
  rewrite Nat2N.inj_pow. simpl. exact L.
Qed.

Lemma b2a_a2b (v : N) : v < 64 -> a2b (b2a v) = Some v.
Proof.
  intros H.
  assert (K : all_below 6 (fun v => match a2b (b2a v) with
                                    | Some w => w =? v | None => false end) = true)
    by (vm_compute; reflexivity).
  apply (all_below_spec 6 _ K) in H.
  destruct (a2b (b2a v)); [|discriminate]. apply N.eqb_eq in H. congruence.
Qed.

Lemma b2a_char (v : N) :
  v < 64 -> (b2a v =? PAD) = false /\ (b2a v <? 128) = true /\ (b2a v =? 44) = false.
Proof.
  intros H.
  assert (K : all_below 6 (fun v => negb (b2a v =? PAD) && (b2a v <? 128)
                                    && negb (b2a v =? 44)) = true)
    by (vm_compute; reflexivity).
  apply (all_below_spec 6 _ K) in H.
  apply andb_true_iff in H as [H H3]. apply andb_true_iff in H as [H1 H2].
  apply negb_true_iff in H1, H3. auto.
Qed.


Lemma all_below_2 (b1 b2 : nat) (test : N -> N -> bool) :
  all_below b1 (fun x => all_below b2 (test x)) = true ->
  forall x y, x < 2 ^ N.of_nat b1 -> y < 2 ^ N.of_nat b2 -> test x y = true.
Proof.
  intros K x y Hx Hy.
  apply (all_below_spec b2); [|exact Hy].
  apply (all_below_spec b1 _ K); exact Hx.
Qed.

Ltac split_checks H :=
  repeat (apply andb_true_iff in H as [H ?]);
  repeat split; first [apply N.ltb_lt | apply N.eqb_eq]; assumption.

(** The first two sextets of a quad, from an octet [x] and the high half
    [yh] of the next, and the octet that the decoder puts back. *)
Lemma quad_first (x yh : N) : x < 256 -> yh < 16 ->
  N.shiftr x 2 < 64
  /\ N.lor (N.shiftl (N.land x 3) 4) yh < 64
  /\ N.land (N.lor (N.shiftl (N.shiftr x 2) 2)
                  (N.shiftr (N.lor (N.shiftl (N.land x 3) 4) yh) 4)) 255 = x
  /\ N.land (N.lor (N.shiftl (N.land x 3) 4) yh) 15 = yh.
Proof.
  intros Hx Hy.
  assert (K : all_below 8 (fun x => all_below 4 (fun yh =>
       (N.shiftr x 2 <? 64)
       && (N.lor (N.shiftl (N.land x 3) 4) yh <? 64)
       && (N.land (N.lor (N.shiftl (N.shiftr x 2) 2)
                     (N.shiftr (N.lor (N.shiftl (N.land x 3) 4) yh) 4)) 255 =? x)
       && (N.land (N.lor (N.shiftl (N.land x 3) 4) yh) 15 =? yh))) = true)
    by (vm_compute; reflexivity).
  pose proof (all_below_2 8 4 _ K x yh Hx Hy) as H. cbv beta in H.
  split_checks H.
Qed.

Lemma quad_second (y zh : N) : y < 256 -> zh < 4 ->
  N.shiftr y 4 < 16
  /\ N.lor (N.shiftl (N.land y 15) 2) zh < 64
  /\ N.land (N.lor (N.shiftl (N.shiftr y 4) 4)
                  (N.shiftr (N.lor (N.shiftl (N.land y 15) 2) zh) 2)) 255 = y
  /\ N.land (N.lor (N.shiftl (N.land y 15) 2) zh) 3 = zh.
Proof.
  intros Hy Hz.
  assert (K : all_below 8 (fun y => all_below 2 (fun zh =>
       (N.shiftr y 4 <? 16)
       && (N.lor (N.shiftl (N.land y 15) 2) zh <? 64)
       && (N.land (N.lor (N.shiftl (N.shiftr y 4) 4)
                     (N.shiftr (N.lor (N.shiftl (N.land y 15) 2) zh) 2)) 255 =? y)
       && (N.land (N.lor (N.shiftl (N.land y 15) 2) zh) 3 =? zh))) = true)
    by (vm_compute; reflexivity).
  pose proof (all_below_2 8 2 _ K y zh Hy Hz) as H. cbv beta in H.
  split_checks H.
Qed.

Lemma quad_third (z : N) : z < 256 ->
  N.shiftr z 6 < 4
  /\ N.land z 63 < 64
  /\ N.land (N.lor (N.shiftl (N.shiftr z 6) 6) (N.land z 63)) 255 = z.
Proof.
  intros Hz.
  assert (K : all_below 8 (fun z =>
       (N.shiftr z 6 <? 4) && (N.land z 63 <? 64)
       && (N.land (N.lor (N.shiftl (N.shiftr z 6) 6) (N.land z 63)) 255 =? z))
     = true)
    by (vm_compute; reflexivity).
  pose proof (all_below_spec 8 _ K z Hz) as H. cbv beta in H.
  split_checks H.
Qed.

Lemma a2b_loop_sextet (v : N) (r : bytes) (q lc pads : N) (out : bytes) :
  v < 64 ->
  a2b_loop (b2a v :: r) q lc pads out
  = if q =? 0 then a2b_loop r 1 v 0 out
    else if q =? 1 then
      a2b_loop r 2 (N.land v 15) 0
        (out ++ [N.land (N.lor (N.shiftl lc 2) (N.shiftr v 4)) 255])
    else if q =? 2 then
      a2b_loop r 3 (N.land v 3) 0
        (out ++ [N.land (N.lor (N.shiftl lc 4) (N.shiftr v 2)) 255])
    else
      a2b_loop r 0 0 0 (out ++ [N.land (N.lor (N.shiftl lc 6) v) 255]).
Proof.
  intros H. cbn [a2b_loop].
  destruct (b2a_char v H) as (-> & _ & _). rewrite (b2a_a2b v H). reflexivity.
Qed.

Lemma list_ind3 {A} (P : list A -> Prop) :
  P [] -> (forall x, P [x]) -> (forall x y, P [x; y]) ->
  (forall x y z r, P r -> P (x :: y :: z :: r)) ->
  forall l, P l.
Proof.
  intros H0 H1 H2 H3.
  fix IH 1. intros [|x [|y [|z r]]];
    [exact H0 | apply H1 | apply H2 | apply H3; apply IH].
Qed.

Lemma a2b_loop_b64encode (bs : bytes) :
  Forall octet bs ->
  forall out, a2b_loop (b64encode bs) 0 0 0 out = Some (out ++ bs).
Proof.
  induction bs as [|x|x y|x y z r IH] using list_ind3; intros F out.
  - simpl. rewrite app_nil_r. reflexivity.
  - inversion_clear F as [|? ? Hx _]. unfold octet in Hx.
    destruct (quad_first x 0 Hx) as (B1 & B2 & D1 & L2); [lia|].
    rewrite N.lor_0_r in B2, D1.
    cbn [b64encode].
    rewrite (a2b_loop_sextet _ _ _ _ _ _ B1). cbn [N.eqb].
    rewrite (a2b_loop_sextet _ _ _ _ _ _ B2).
    change (1 =? 0) with false. change (1 =? 1) with true. cbv iota.
    rewrite D1. reflexivity.
  - inversion_clear F as [|? ? Hx F']. inversion_clear F' as [|? ? Hy _].
    unfold octet in Hx, Hy.
    destruct (quad_second y 0 Hy) as (Y4 & B3 & D2 & _); [lia|].
    rewrite N.lor_0_r in B3, D2.
    destruct (quad_first x (N.shiftr y 4) Hx Y4) as (B1 & B2 & D1 & L2).
    cbn [b64encode].
    rewrite (a2b_loop_sextet _ _ _ _ _ _ B1). cbn [N.eqb].
    rewrite (a2b_loop_sextet _ _ _ _ _ _ B2).
    change (1 =? 0) with false. change (1 =? 1) with true. cbv iota.
    rewrite (a2b_loop_sextet _ _ _ _ _ _ B3).
    change (2 =? 0) with false. change (2 =? 1) with false.
    change (2 =? 2) with true. cbv iota.
    rewrite D1, L2, D2. simpl. rewrite <- app_assoc. reflexivity.
  - inversion_clear F as [|? ? Hx F']. inversion_clear F' as [|? ? Hy F''].
    inversion_clear F'' as [|? ? Hz F]. unfold octet in Hx, Hy, Hz.
    destruct (quad_third z Hz) as (Z6 & B4 & D3).
    destruct (quad_second y (N.shiftr z 6) Hy Z6) as (Y4 & B3 & D2 & L3).
    destruct (quad_first x (N.shiftr y 4) Hx Y4) as (B1 & B2 & D1 & L2).
    cbn [b64encode].
    rewrite (a2b_loop_sextet _ _ _ _ _ _ B1). cbn [N.eqb].
    rewrite (a2b_loop_sextet _ _ _ _ _ _ B2).
    change (1 =? 0) with false. change (1 =? 1) with true. cbv iota.
    rewrite (a2b_loop_sextet _ _ _ _ _ _ B3).
    change (2 =? 0) with false. change (2 =? 1) with false.
    change (2 =? 2) with true. cbv iota.
    rewrite (a2b_loop_sextet _ _ _ _ _ _ B4).
    change (3 =? 0) with false. change (3 =? 1) with false.
    change (3 =? 2) with false. cbv iota.
    rewrite D1, L2, D2, L3, D3. rewrite (IH F).
    rewrite <- !app_assoc. reflexivity.
Qed.

(** The shape of an encoding: sextet characters, then at most two pads, a
    multiple of four characters in all. *)
Lemma b64encode_shape (bs : bytes) :
  Forall octet bs ->
  exists data pad,
    b64encode bs = data ++ pad
    /\ Forall sextet_char data
    /\ (pad = [] \/ pad = [PAD] \/ pad = [PAD; PAD])
    /\ (List.length (data ++ pad) mod 4 = 0)%nat
    /\ (bs <> [] -> data <> []).
Proof.
  induction bs as [|x|x y|x y z r IH] using list_ind3; intros F.
  - exists [], []. repeat split; auto.
  - inversion_clear F as [|? ? Hx _]. unfold octet in Hx.
    destruct (quad_first x 0 Hx) as (B1 & B2 & _); [lia|].
    rewrite N.lor_0_r in B2.
    eexists [_; _], [PAD; PAD]. split; [reflexivity|].
    split; [|split; [auto|split; [reflexivity|discriminate]]].
    repeat constructor; eexists; (split; [|reflexivity]); assumption.
  - inversion_clear F as [|? ? Hx F']. inversion_clear F' as [|? ? Hy _].
    unfold octet in Hx, Hy.
    destruct (quad_second y 0 Hy) as (Y4 & B3 & _); [lia|].
    rewrite N.lor_0_r in B3.
    destruct (quad_first x (N.shiftr y 4) Hx Y4) as (B1 & B2 & _).
    eexists [_; _; _], [PAD]. split; [reflexivity|].
    split; [|split; [auto|split; [reflexivity|discriminate]]].
    repeat constructor; eexists; (split; [|reflexivity]); assumption.
  - inversion_clear F as [|? ? Hx F']. inversion_clear F' as [|? ? Hy F''].
    inversion_clear F'' as [|? ? Hz F]. unfold octet in Hx, Hy, Hz.
    destruct (quad_third z Hz) as (Z6 & B4 & _).
    destruct (quad_second y (N.shiftr z 6) Hy Z6) as (Y4 & B3 & _).
    destruct (quad_first x (N.shiftr y 4) Hx Y4) as (B1 & B2 & _).
    destruct (IH F) as (data & pad & E & FD & P & L & _).
    eexists (_ :: _ :: _ :: _ :: data), pad.
    split; [cbn [b64encode]; rewrite E; reflexivity|].
    split; [|split; [exact P|split; [|discriminate]]].
    + repeat (constructor; [eexists; (split; [|reflexivity]); assumption|]).
      exact FD.
    + cbn [List.length app].
      change (S (S (S (S (List.length (data ++ pad))))))
        with (4 + List.length (data ++ pad))%nat.
      rewrite <- Nat.Div0.add_mod_idemp_r, L. reflexivity.
Qed.

Lemma lstrip_by_none (f : char -> bool) (s : str) :
  Forall (fun c => f c = false) s -> lstrip_by f s = s.
Proof.
  intros F. destruct F as [|c s Hc F]; [reflexivity|].
  simpl. rewrite Hc. reflexivity.
Qed.

Lemma lstrip_by_all (f : char -> bool) (p s : str) :
  Forall (fun c => f c = true) p -> lstrip_by f (p ++ s) = lstrip_by f s.
Proof.
  induction 1 as [|c p Hc F IH]; [reflexivity|].
  simpl. rewrite Hc. exact IH.
Qed.

Lemma rstrip_by_app (f : char -> bool) (s p : str) :
  Forall (fun c => f c = false) s ->
  Forall (fun c => f c = true) p ->
  rstrip_by f (s ++ p) = s.
Proof.
  intros Fs Fp. unfold rstrip_by. rewrite rev_app_distr.
  rewrite lstrip_by_all by (apply Forall_rev; exact Fp).
  rewrite lstrip_by_none by (apply Forall_rev; exact Fs).
  apply rev_involutive.
Qed.

Lemma sextet_char_facts (c : N) :
  sextet_char c ->
  (c =? PAD) = false /\ (c <? 128) = true /\ (c =? 44) = false.
Proof. intros (v & Hv & ->). apply b2a_char. exact Hv. Qed.

(** What [_decode_imap_utf7] does to the Base64 text that
    [_encode_imap_utf7] wrote: the text is restored. *)
Lemma restore_base64 (bs : bytes) :
  Forall octet bs ->
  pad_base64
    (replace_char 44 47
       (rstrip_by (N.eqb PAD) (replace_char 47 44 (b64encode bs))))
  = b64encode bs.
Proof.
  intros F. destruct (b64encode_shape bs F) as (data & pad & -> & FD & P & L & _).
  assert (Hpad : replace_char 47 44 pad = pad).
  { destruct P as [-> | [-> | ->]]; reflexivity. }
  unfold replace_char at 2. rewrite map_app. fold (replace_char 47 44 data).
  fold (replace_char 47 44 pad). rewrite Hpad.
  rewrite rstrip_by_app.
  - assert (R : replace_char 44 47 (replace_char 47 44 data) = data).
    { unfold replace_char. rewrite map_map. rewrite <- (map_id data) at 2.
      apply map_ext_Forall. eapply Forall_impl; [|exact FD].
      intros c Hc. apply sextet_char_facts in Hc as (_ & _ & H44).
      destruct (c =? 47) eqn:E47.
      - apply N.eqb_eq in E47. subst c. reflexivity.
      - rewrite H44. reflexivity. }
    rewrite R. unfold pad_base64. rewrite length_app in L.
    destruct P as [-> | [-> | ->]]; simpl List.length in L.
    + rewrite Nat.add_0_r in L. rewrite L, app_nil_r. reflexivity.
    + assert (M : (List.length data mod 4 = 3)%nat).
      { pose proof (Nat.mod_upper_bound (List.length data) 4 ltac:(lia)) as U.
        rewrite Nat.Div0.add_mod in L.
        destruct (List.length data mod 4)%nat as [|[|[|[|k]]]];
          try discriminate L; try lia; reflexivity. }
      rewrite M. reflexivity.
    + assert (M : (List.length data mod 4 = 2)%nat).
      { pose proof (Nat.mod_upper_bound (List.length data) 4 ltac:(lia)) as U.
        rewrite Nat.Div0.add_mod in L.
        destruct (List.length data mod 4)%nat as [|[|[|[|k]]]];
          try discriminate L; try lia; reflexivity. }
      rewrite M. reflexivity.
  - unfold replace_char. apply Forall_map. eapply Forall_impl; [|exact FD].
    intros c Hc. apply sextet_char_facts in Hc as (H61 & _ & _).
    destruct (c =? 47); [reflexivity|]. rewrite N.eqb_sym. exact H61.
  - destruct P as [-> | [-> | ->]]; repeat constructor.
Qed.

Lemma split_bits (a n : N) :
  N.lor (N.shiftl (N.shiftr a n) n) (N.land a (N.ones n)) = a.
Proof. rewrite <- N.ldiff_ones_r. apply N.lor_ldiff_and. Qed.

Lemma shiftr_bound (a n m : N) : a < 2 ^ (n + m) -> N.shiftr a n < 2 ^ m.
Proof.
  intros H. rewrite N.shiftr_div_pow2.
  apply N.Div0.div_lt_upper_bound. rewrite <- N.pow_add_r. exact H.
Qed.

Lemma land_ones_bound (a n : N) : N.land a (N.ones n) < 2 ^ n.
Proof.
  rewrite N.land_ones. apply N.mod_upper_bound. apply N.pow_nonzero. lia.
Qed.

(** The two octets of a code unit, and the unit put together again. *)
Lemma unit_octets (w : N) :
  w < 65536 ->
  octet (N.shiftr w 8) /\ octet (N.land w 255)
  /\ N.lor (N.shiftl (N.shiftr w 8) 8) (N.land w 255) = w.
Proof.
  intros H. split; [|split].
  - apply (shiftr_bound w 8 8). exact H.
  - apply (land_ones_bound w 8).
  - apply (split_bits w 8).
Qed.

(** The surrogate pair of a code point above the basic plane. *)
Lemma pair_units (c : N) :
  65536 <= c -> c < 1114112 ->
  let hi := 55296 + N.shiftr (c - 65536) 10 in
  let lo := 56320 + N.land (c - 65536) 1023 in
  55296 <= hi <= 56319 /\ 56320 <= lo <= 57343
  /\ 65536 + N.lor (N.shiftl (hi - 55296) 10) (lo - 56320) = c.
Proof.
  intros L U hi lo.
  assert (A : N.shiftr (c - 65536) 10 < 1024)
    by (apply (shiftr_bound _ 10 10); change (2 ^ (10 + 10)) with 1048576; lia).
  pose proof (land_ones_bound (c - 65536) 10) as B.
  change (N.ones 10) with 1023 in B. change (2 ^ 10) with 1024 in B.
  subst hi lo. split; [lia|]. split; [lia|].
  replace (55296 + N.shiftr (c - 65536) 10 - 55296)
    with (N.shiftr (c - 65536) 10) by lia.
  replace (56320 + N.land (c - 65536) 1023 - 56320)
    with (N.land (c - 65536) 1023) by lia.
  pose proof (split_bits (c - 65536) 10) as X.
  change (N.ones 10) with 1023 in X. rewrite X. lia.
Qed.

Lemma is_surrogate_range (w : N) :
  is_surrogate w = true <-> 55296 <= w <= 57343.
Proof.
  unfold is_surrogate. rewrite andb_true_iff, !N.leb_le. tauto.
Qed.

Lemma utf16_roundtrip (s : str) :
  Forall scalar s ->
  exists b, encode_be s = Some b /\ Forall octet b
            /\ forall fuel, (List.length b <= fuel)%nat ->
                            decode_units fuel b = Some s.
Proof.
  induction 1 as [|c s [Hc Hs] F (b & E & O & D)].
  - exists []. split; [reflexivity|]. split; [constructor|].
    intros [|fuel] _; reflexivity.
  - cbn [encode_be]. rewrite Hs, E.
    destruct (c <? 65536) eqn:Hb.
    + apply N.ltb_lt in Hb.
      destruct (unit_octets c Hb) as (O1 & O2 & W).
      eexists. split; [reflexivity|]. split; [repeat constructor; assumption|].
      intros [|fuel] L; [simpl in L; lia|].
      cbn [decode_units]. rewrite W, Hs. cbn [negb].
      rewrite D by (simpl in L; lia). reflexivity.
    + apply N.ltb_ge in Hb.
      destruct (pair_units c Hb Hc) as (Hhi & Hlo & J).
      set (hi := 55296 + N.shiftr (c - 65536) 10) in *.
      set (lo := 56320 + N.land (c - 65536) 1023) in *.
      destruct (unit_octets hi) as (O1 & O2 & W1); [lia|].
      destruct (unit_octets lo) as (O3 & O4 & W2); [lia|].
      eexists. split; [reflexivity|]. split; [repeat constructor; assumption|].
      intros [|fuel] L; [simpl in L; lia|].
      cbn [decode_units]. rewrite W1, W2.
      assert (S1 : is_surrogate hi = true) by (apply is_surrogate_range; lia).
      rewrite S1. cbn [negb].
      assert (S2 : (hi <=? 56319) = true) by (apply N.leb_le; lia).
      rewrite S2.
      assert (S3 : ((56320 <=? lo) && (lo <=? 57343)) = true)
        by (rewrite andb_true_iff, !N.leb_le; lia).
      rewrite S3, J. rewrite D by (simpl in L; lia). reflexivity.
Qed.

Lemma encode_be_surrogate (s : str) :
  Exists (fun c => is_surrogate c = true) s -> encode_be s = None.
Proof.
  induction 1 as [c s H | c s _ IH]; cbn [encode_be].
  - rewrite H. reflexivity.
  - rewrite IH. destruct (is_surrogate c); reflexivity.
Qed.

Lemma encode_be_some (s : str) (b : bytes) :
  encode_be s = Some b ->
  Forall (fun c => is_surrogate c = false) s /\ (s <> [] -> b <> []).
Proof.
  revert b; induction s as [|c s IH]; intros b E.
  - split; [constructor | congruence].
  - cbn [encode_be] in E. destruct (is_surrogate c) eqn:S; [discriminate|].
    destruct (encode_be s) as [b'|]; [|discriminate].
    destruct (IH b' eq_refl) as [F _]. split; [constructor; assumption|].
    intros _ ->. destruct (c <? 65536); discriminate E.
Qed.

Lemma isascii_b64encode (bs : bytes) :
  Forall octet bs -> isascii (b64encode bs) = true.
Proof.
  intros F. destruct (b64encode_shape bs F) as (data & pad & -> & FD & P & _).
  unfold isascii. rewrite forallb_app. apply andb_true_iff. split.
  - apply forallb_forall. intros c Hc. rewrite Forall_forall in FD.
    apply sextet_char_facts. apply FD. exact Hc.
  - destruct P as [-> | [-> | ->]]; reflexivity.
Qed.

Lemma encoded_body_nonempty (bs : bytes) :
  Forall octet bs -> bs <> [] ->
  rstrip_by (N.eqb PAD) (replace_char 47 44 (b64encode bs)) <> [].
Proof.
  intros F NE.
  destruct (b64encode_shape bs F) as (data & pad & -> & FD & P & _ & ND).
  unfold replace_char. rewrite map_app. rewrite rstrip_by_app.
  - specialize (ND NE). destruct data; [congruence | discriminate].
  - apply Forall_map. eapply Forall_impl; [|exact FD].
    intros c Hc. apply sextet_char_facts in Hc as (H61 & _ & _).
    destruct (c =? 47); [reflexivity|]. rewrite N.eqb_sym. exact H61.
  - destruct P as [-> | [-> | ->]]; repeat constructor.
Qed.

Lemma endswith_last (s : str) (c : char) : endswith (s ++ [c]) [c] = true.
Proof.
  unfold endswith. rewrite rev_app_distr. simpl. rewrite N.eqb_refl.
  destruct (rev s); reflexivity.
Qed.

Lemma inner_wrapped (a z : char) (body : str) :
  inner (a :: body ++ [z]) = body.
Proof. unfold inner. simpl tl. apply removelast_last. Qed.

(** A text that [_encode_imap_utf7] encoded comes back. *)
Lemma decode_encoded (s : str) (b : bytes) :
  s <> [] -> Forall scalar s -> encode_be s = Some b ->
  _decode_imap_utf7
    (u "&" ++ rstrip_by (N.eqb PAD) (replace_char 47 44 (b64encode b)) ++ u "-")
  = s.
Proof.
  intros NE F E.
  destruct (utf16_roundtrip s F) as (b' & E' & O & D).
  rewrite E in E'. injection E' as <-.
  destruct (encode_be_some s b E) as [_ NB]. specialize (NB NE).
  pose proof (encoded_body_nonempty b O NB) as NBody.
  unfold _decode_imap_utf7.
  change (u "&" ++ ?x ++ u "-") with (38 :: x ++ [45]).
  change (startswith (38 :: ?x) (u "&")) with true.
  change (u "-") with [45].
  match goal with |- context [endswith (38 :: ?x ++ [45]) [45]] =>
    replace (endswith (38 :: x ++ [45]) [45]) with true
      by (symmetry; apply (endswith_last (38 :: x) 45))
  end.
  cbn [negb orb]. rewrite inner_wrapped.
  destruct (rstrip_by (N.eqb PAD) (replace_char 47 44 (b64encode b)))
    as [|c0 body] eqn:EB; [congruence|].
  rewrite <- EB. rewrite (restore_base64 b O).
  unfold b64decode. rewrite (isascii_b64encode b O).
  unfold a2b_base64. rewrite (a2b_loop_b64encode b O []). cbn [app].
  unfold decode_be. rewrite D by lia. reflexivity.
Qed.

Lemma decode_not_wrapped (s : str) :
  startswith s (u "&") && endswith s (u "-") = false ->
  _decode_imap_utf7 s = s.
Proof.
  intros H. unfold _decode_imap_utf7.
  apply andb_false_iff in H as [-> | ->]; cbn [negb orb];
    [|rewrite orb_true_r]; reflexivity.
Qed.

Lemma wrapped_form (s : str) :
  startswith s (u "&") = true -> endswith s (u "-") = true ->
  exists body, s = 38 :: body ++ [45].
Proof.
  intros S E. apply startswith_prefix in S as [rest ->].
  unfold endswith in E. apply startswith_prefix in E as [r2 E].
  apply (f_equal (@rev N)) in E. rewrite rev_involutive in E.
  change (rev (rev (u "-") ++ r2)) with (rev ([45] ++ r2)) in E.
  rewrite rev_app_distr in E. simpl rev in E at 2.
  change (u "&" ++ rest) with (38 :: rest) in *.
  destruct (exists_last (l := rest)) as (body & z & ->).
  - intros ->. destruct (rev r2) as [|x [|y l]]; simpl in E; discriminate E.
  - change (38 :: body ++ [z]) with ((38 :: body) ++ [z]) in E.
    apply app_inj_tail in E as [_ ->]. exists body. reflexivity.
Qed.

Lemma isascii_false_in (s : str) (c : char) :
  In c s -> 128 <= c -> isascii s = false.
Proof.
  intros I L. unfold isascii.
  destruct (forallb (fun c => c <? 128) s) eqn:F; [|reflexivity].
  rewrite forallb_forall in F. specialize (F c I).
  apply N.ltb_lt in F. lia.
Qed.

Lemma isascii_false_ex (s : str) :
  isascii s = false -> exists c, In c s /\ 128 <= c.
Proof.
  induction s as [|c s IH]; [discriminate|].
  unfold isascii. cbn [forallb]. intros H.
  destruct (c <? 128) eqn:E.
  - destruct (IH H) as (c' & I & L). exists c'. split; [right|]; assumption.
  - exists c. split; [left; reflexivity|]. apply N.ltb_ge. exact E.
Qed.

(** A text with a character above U+007F between the ampersand and the
    hyphen is not Base64: it comes back unchanged. *)
Lemma decode_nonascii (s : str) :
  isascii s = false -> _decode_imap_utf7 s = s.
Proof.
  intros A.
  destruct (startswith s (u "&") && endswith s (u "-")) eqn:W;
    [|apply decode_not_wrapped; exact W].
  apply andb_true_iff in W as [S E].
  destruct (wrapped_form s S E) as [body ->].
  destruct (isascii_false_ex _ A) as (c & I & L).
  assert (Ib : In c body).
  { destruct I as [<-|I]; [lia|].
    apply in_app_or in I as [I|[<-|[]]]; [exact I | lia]. }
  unfold _decode_imap_utf7. rewrite S, E. cbn [negb orb].
  rewrite inner_wrapped. destruct body as [|c0 body0] eqn:EB; [destruct Ib|].
  rewrite <- EB in *.
  assert (NA : isascii (pad_base64 (replace_char 44 47 body)) = false).
  { apply (isascii_false_in _ c); [|exact L].
    assert (In c (replace_char 44 47 body)).
    { unfold replace_char. apply in_map_iff. exists c. split; [|exact Ib].
      destruct (c =? 44) eqn:E44; [apply N.eqb_eq in E44; lia | reflexivity]. }
    unfold pad_base64.
    destruct (List.length (replace_char 44 47 body) mod 4)%nat;
      [assumption | apply in_or_app; left; assumption]. }
  unfold Base64.b64decode. rewrite NA. reflexivity.
Qed.

(** C7, as the claim states it, fails: the plain ASCII name "&-" is left
    as it is by the encoder and decoded to "&". *)
Lemma ampersand_hyphen_is_not_restored :
  isascii (u "&-") = true
  /\ _encode_imap_utf7 (u "&-") = u "&-"
  /\ _decode_imap_utf7 (u "&-") = u "&"
  /\ _decode_imap_utf7 (_encode_imap_utf7 (u "&-")) <> u "&-".
Proof.
  repeat split; try (vm_compute; reflexivity).
  vm_compute. discriminate.
Qed.

(** C7, amended: for every string [s] that holds a character above
    U+007F, [_decode_imap_utf7 (_encode_imap_utf7 s)] is [s]; and for every
    string that does not both start with an ampersand and end with a
    hyphen, [_decode_imap_utf7] returns it unchanged, and so does the round
    trip when the string is plain ASCII. *)
Theorem imap_utf7_round_trip (s : str) :
  valid_str s = true ->
  (isascii s = false -> _decode_imap_utf7 (_encode_imap_utf7 s) = s)
  /\ (startswith s (u "&") && endswith s (u "-") = false ->
      _decode_imap_utf7 s = s
      /\ (isascii s = true -> _decode_imap_utf7 (_encode_imap_utf7 s) = s)).
Proof.
  intros V. split.
  - intros A. unfold _encode_imap_utf7. rewrite A.
    destruct (encode_be s) as [b|] eqn:E; [|apply decode_nonascii; exact A].
    apply decode_encoded; [intros ->; discriminate A | | exact E].
    destruct (encode_be_some s b E) as [NS _].
    unfold valid_str in V. rewrite forallb_forall in V.
    rewrite Forall_forall in NS. apply Forall_forall. intros c I.
    split; [apply N.ltb_lt, V, I | apply NS, I].
  - intros W. split; [apply decode_not_wrapped; exact W|].
    intros A. unfold _encode_imap_utf7. rewrite A.
    apply decode_not_wrapped; exact W.
Qed.

Lemma imap_utf7_round_trip_witness :
  _decode_imap_utf7 (_encode_imap_utf7 (u "Entwürfe/収件箱 𝄞")) = u "Entwürfe/収件箱 𝄞"
  /\ _decode_imap_utf7 (u "Sent & Archive-") = u "Sent & Archive-"
  /\ _decode_imap_utf7 (_encode_imap_utf7 (u "&Drafts")) = u "&Drafts".
Proof.
  split; [|split].
  - destruct (imap_utf7_round_trip (u "Entwürfe/収件箱 𝄞")) as [A _];
      [vm_compute; reflexivity|].
    apply A. vm_compute. reflexivity.
  - destruct (imap_utf7_round_trip (u "Sent & Archive-")) as [_ B];
      [vm_compute; reflexivity|].
    destruct B as [B _]; [vm_compute; reflexivity | exact B].
  - destruct (imap_utf7_round_trip (u "&Drafts")) as [_ B];
      [vm_compute; reflexivity|].
    destruct B as [_ B]; [vm_compute; reflexivity|].
    apply B. vm_compute. reflexivity.
Defined.

(** ** The send pipeline *)


Lemma connecting_pass (env : pass_env) (w : world) :
  connects env = true ->
  exists w', (let (unusable, w1) := smtp_unusable env w in
              if unusable then connect_smtp env w1 else (true, w1)) = (true, w')
             /\ send_queue w' = send_queue w
             /\ stat_errors w' = stat_errors w
             /\ filter is_error_notified (trace w')
                = filter is_error_notified (trace w)
             /\ filter is_attempt_event (trace w')
                = filter is_attempt_event (trace w).
Proof.
  unfold connects, smtp_unusable, connect_smtp, is_alive. intros C.
  assert (L : login_answer env = LoginOk /\ config_complete env = true).
  { destruct (probe_answer env), (login_answer env); try discriminate C; auto. }
  destruct L as [L1 L2]. rewrite L1, L2. cbn [negb].
  destruct (smtp_connection w) as [[h c]|]; cbn [handle is_connected].
  - destruct h, c; cbn [negb orb]; try destruct (probe_answer env);
      cbn [negb]; eexists; repeat split;
      cbn [trace log count_connection set_smtp];
      rewrite ?filter_app, ?app_nil_r; reflexivity.
  - eexists; repeat split; cbn [trace log count_connection set_smtp];
      rewrite ?filter_app, ?app_nil_r; reflexivity.
Qed.

Lemma send_failed_spec (k : nat) (w : world) :
  fst (send_failed k w) = S k
  /\ send_queue (snd (send_failed k w)) = send_queue w
  /\ stat_errors (snd (send_failed k w)) = stat_errors w
  /\ filter is_error_notified (trace (snd (send_failed k w)))
     = filter is_error_notified (trace w)
  /\ filter is_attempt_event (trace (snd (send_failed k w)))
     = filter is_attempt_event (trace w)
       ++ [SendFailed (k + 1) (max_retries + 1)]
       ++ (if Nat.leb (S k) max_retries then [Sleep 2] else []).
Proof.
  unfold send_failed. cbn [fst snd].
  destruct (smtp_connection (log _ w)); destruct (Nat.leb (S k) max_retries);
    cbn [log set_smtp trace send_queue stat_errors];
    rewrite ?filter_app; cbn [filter is_error_notified is_attempt_event];
    rewrite ?app_nil_r, <- ?app_assoc; repeat split; reflexivity.
Qed.

Lemma retry_loop_all_raise (message : dict) (envs : nat -> pass_env) :
  forall remaining k w,
    (forall j, (k <= j < k + remaining)%nat ->
               connects (envs j) = true /\ raises (envs j) = true) ->
    exists w',
      retry_loop remaining k None message envs w
      = (Raise (UnboundLocalError (u "e")), w')
      /\ send_queue w' = send_queue w
      /\ stat_errors w' = S (stat_errors w)
      /\ filter is_error_notified (trace w')
         = filter is_error_notified (trace w)
      /\ filter is_attempt_event (trace w')
         = filter is_attempt_event (trace w)
           ++ failed_attempts remaining k message envs.
Proof.
  induction remaining as [|r IH]; intros k w H.
  - eexists. split; [reflexivity|]. cbn [failed_attempts].
    rewrite app_nil_r. repeat split; reflexivity.
  - destruct (H k) as [C R]; [lia|].
    destruct (connecting_pass (envs k) w C) as (w1 & E1 & Q1 & S1 & N1 & A1).
    cbn [retry_loop failed_attempts].
    destruct (smtp_unusable (envs k) w) as [unusable w0].
    rewrite E1. cbn [negb].
    unfold raises in R.
    destruct (transmit_answer (envs k)) as [|cause|cause]; [discriminate R| |].
    + destruct (send_failed_spec k w1) as (F1 & Q2 & S2 & N2 & A2).
      destruct (send_failed k w1) as [k' w2]. cbn [fst snd] in *. subst k'.
      destruct (IH (S k) w2) as (w' & E & Q & S & N & A).
      { intros j Hj. apply H. lia. }
      exists w'. split; [exact E|].
      rewrite Q, S, N, A, Q2, S2, N2, A2, Q1, S1, N1, A1.
      rewrite <- !app_assoc. repeat split; reflexivity.
    + set (w1' := count_sent (log (Sent message) w1)).
      destruct (send_failed_spec k w1') as (F1 & Q2 & S2 & N2 & A2).
      destruct (send_failed k w1') as [k' w2]. cbn [fst snd] in *. subst k'.
      destruct (IH (S k) w2) as (w' & E & Q & S & N & A).
      { intros j Hj. apply H. lia. }
      exists w'. split; [exact E|].
      rewrite Q, S, N, A, Q2, S2, N2, A2. subst w1'.
      cbn [count_sent log trace send_queue stat_errors].
      rewrite !filter_app. cbn [filter is_error_notified is_attempt_event].
      rewrite Q1, S1, N1, A1, ?app_nil_r, <- !app_assoc.
      repeat split; reflexivity.
Qed.

Lemma retry_loop_queue (message : dict) (envs : nat -> pass_env) :
  forall remaining k e w r w',
    retry_loop remaining k e message envs w = (r, w') ->
    send_queue w' = send_queue w.
Proof.
  induction remaining as [|n IH]; intros k e w r w' H.
  - unfold retry_loop, after_retries in H.
    destruct e; injection H as _ <-; reflexivity.
  - cbn [retry_loop] in H.
    assert (Q0 : forall w0, send_queue (snd (smtp_unusable (envs k) w0))
                            = send_queue w0).
    { intros w0. unfold smtp_unusable. destruct (smtp_connection w0) as [c|];
        [|reflexivity]. destruct (is_alive c _). reflexivity. }
    assert (Q1 : forall w0, send_queue (snd (connect_smtp (envs k) w0))
                            = send_queue w0).
    { intros w0. unfold connect_smtp. destruct (config_complete _);
        [|reflexivity]. destruct (login_answer _); reflexivity. }
    specialize (Q0 w). destruct (smtp_unusable (envs k) w) as [un w0].
    cbn [snd] in Q0.
    assert (Q2 : forall usable w1,
               (if un then connect_smtp (envs k) w0 else (true, w0))
               = (usable, w1) -> send_queue w1 = send_queue w).
    { intros usable w1 E. destruct un.
      - specialize (Q1 w0). rewrite E in Q1. cbn [snd] in Q1. congruence.
      - injection E as _ <-. exact Q0. }
    destruct (if un then connect_smtp (envs k) w0 else (true, w0))
      as [usable w1].
    specialize (Q2 _ _ eq_refl).
    destruct usable; cbn [negb] in H; [|injection H as _ <-; exact Q2].
    destruct (transmit_answer (envs k)).
    + injection H as _ <-. exact Q2.
    + destruct (send_failed_spec k w1) as (_ & Q3 & _).
      destruct (send_failed k w1) as [k' w2]. cbn [snd] in Q3.
      apply IH in H. congruence.
    + destruct (send_failed_spec k (count_sent (log (Sent message) w1)))
        as (_ & Q3 & _).
      destruct (send_failed k _) as [k' w2]. cbn [snd] in Q3.
      apply IH in H. rewrite H, Q3. exact Q2.
Qed.

Lemma retry_loop_false (message : dict) (envs : nat -> pass_env) :
  forall remaining k w w',
    retry_loop remaining k None message envs w = (Return false, w') ->
    exists j, (k <= j < k + remaining)%nat /\ connects (envs j) = false.
Proof.
  induction remaining as [|n IH]; intros k w w' H.
  - discriminate H.
  - cbn [retry_loop] in H.
    destruct (connects (envs k)) eqn:C.
    2:{ exists k. split; [lia | exact C]. }
    destruct (connecting_pass (envs k) w C) as (w1 & E1 & _).
    destruct (smtp_unusable (envs k) w) as [un w0]. rewrite E1 in H.
    cbn [negb] in H.
    destruct (transmit_answer (envs k)); [discriminate H| |].
    + destruct (send_failed_spec k w1) as (F & _).
      destruct (send_failed k w1) as [k' w2]. cbn [fst] in F. subst k'.
      destruct (IH _ _ _ H) as (j & Hj & Cj). exists j. split; [lia|exact Cj].
    + destruct (send_failed_spec k (count_sent (log (Sent message) w1)))
        as (F & _).
      destruct (send_failed k _) as [k' w2]. cbn [fst] in F. subst k'.
      destruct (IH _ _ _ H) as (j & Hj & Cj). exists j. split; [lia|exact Cj].
Qed.

Lemma dict_get_set_same (k : str) (v : json) (d : dict) :
  dict_get k (dict_set k v d) = Some v.
Proof.
  induction d as [|[k' v'] d IH]; simpl.
  - rewrite str_eqb_refl. reflexivity.
  - destruct (PyStr.eqb k k') eqn:E; simpl; rewrite E; [reflexivity | exact IH].
Qed.









(** C10, as the claim states it, fails in its last clause: when the login
    is refused, [send_message_sync] returns [False] and the worker puts the
    task back. *)
Lemma reenqueue_after_refused_login :
  fst (send_message_sync hello login_refused (set_queue [] w0)) = Return false
  /\ send_queue (worker_turn login_refused w0)
     = [dict_set (u "_retry_count") (JInt 1) hello].
Proof. vm_compute. split; reflexivity. Qed.

(** C10, amended: when every pass of the retry loop raises,
    [send_message_sync] counts one error and then raises
    [UnboundLocalError] (a [NameError]) for the name [e], which the handler
    unbound, instead of calling [_notify_error] and returning [False]; the
    worker catches it, sleeps one second and drops the task without putting
    it back.  [send_message_sync] returns [False], and the worker reaches
    its re-enqueue branch, only when a pass cannot connect anew. *)
Theorem send_failure_raises_unbound_local :
  (forall (message : dict) (envs : nat -> pass_env) (w : world),
      (forall k, (k <= max_retries)%nat ->
                 connects (envs k) = true /\ raises (envs k) = true) ->
      exists w',
        send_message_sync message envs w
        = (Raise (UnboundLocalError (u "e")), w')
        /\ stat_errors w' = S (stat_errors w)
        /\ filter is_error_notified (trace w')
           = filter is_error_notified (trace w))
  /\ (forall (message : dict) (rest : list dict) (envs : nat -> pass_env)
             (w : world),
         send_queue w = message :: rest ->
         (forall k, (k <= max_retries)%nat ->
                    connects (envs k) = true /\ raises (envs k) = true) ->
         send_queue (worker_turn envs w) = rest
         /\ filter is_error_notified (trace (worker_turn envs w))
            = filter is_error_notified (trace w)
         /\ exists before,
             trace (worker_turn envs w)
             = before ++ [WorkerError (UnboundLocalError (u "e")); Sleep 1])
  /\ (forall (message : dict) (envs : nat -> pass_env) (w w' : world),
         send_message_sync message envs w = (Return false, w') ->
         exists k, (k <= max_retries)%nat /\ connects (envs k) = false).
Proof.
  assert (All : forall message envs w,
             (forall k, (k <= max_retries)%nat ->
                        connects (envs k) = true /\ raises (envs k) = true) ->
             exists w',
               send_message_sync message envs w
               = (Raise (UnboundLocalError (u "e")), w')
               /\ send_queue w' = send_queue w
               /\ stat_errors w' = S (stat_errors w)
               /\ filter is_error_notified (trace w')
                  = filter is_error_notified (trace w)).
  { intros message envs w H.
    destruct (retry_loop_all_raise message envs (S max_retries) 0 w)
      as (w' & E & Q & S & N & _).
    { intros j Hj. apply H. unfold max_retries in *. lia. }
    exists w'. repeat split; assumption. }
  split; [|split].
  - intros message envs w H.
    destruct (All message envs w H) as (w' & E & _ & S & N).
    exists w'. repeat split; assumption.
  - intros message rest envs w Q H.
    destruct (All message envs (set_queue rest w) H) as (w' & E & Q' & _ & N).
    unfold worker_turn. rewrite Q, E.
    cbn [log send_queue trace]. split; [exact Q'|]. split.
    + rewrite <- app_assoc, filter_app. cbn [filter is_error_notified app].
      rewrite app_nil_r. exact N.
    + exists (trace w'). rewrite <- app_assoc. reflexivity.
  - intros message envs w w' H.
    destruct (retry_loop_false _ _ _ _ _ _ H) as (j & Hj & C).
    exists j. split; [unfold max_retries in *; lia | exact C].
Qed.

Lemma send_failure_raises_unbound_local_witness :
  fst (send_message_sync hello always_failing w0)
  = Raise (UnboundLocalError (u "e"))
  /\ send_queue (worker_turn always_failing w0) = []
  /\ exists k, (k <= max_retries)%nat /\ connects (login_refused k) = false.
Proof.
  destruct send_failure_raises_unbound_local as (A & B & C).
  split; [|split].
  - destruct (A hello always_failing w0) as (w' & E & _).
    + intros k _. split; reflexivity.
    + rewrite E. reflexivity.
  - destruct (B hello [] always_failing w0) as (Q & _).
    + reflexivity.
    + intros k _. split; reflexivity.
    + exact Q.
  - apply (C hello login_refused (set_queue [] w0)
             (snd (send_message_sync hello login_refused (set_queue [] w0)))).
    vm_compute. reflexivity.
Defined.

(** ** The inbox watcher *)

Lemma server_fetch_ids (msg_id : bytes) (b : list entry) :
  map entry_id (snd (server_fetch msg_id b)) = map entry_id b.
Proof.
  induction b as [|e b IH]; [reflexivity|]. cbn [server_fetch].
  destruct (same_id msg_id (entry_id e)); [reflexivity|].
  destruct (server_fetch msg_id b) as [answer b']. cbn [snd map] in *.
  rewrite IH. reflexivity.
Qed.

Lemma in_search_unseen (x : bytes) (b : list entry) :
  In x (search_unseen b) <->
  exists e, In e b /\ entry_seen e = false /\ entry_id e = x.
Proof.
  unfold search_unseen. rewrite in_map_iff. split.
  - intros (e & E & I). apply filter_In in I as [I S].
    exists e. apply negb_true_iff in S. auto.
  - intros (e & I & S & E). exists e. split; [exact E|].
    apply filter_In. split; [exact I|]. rewrite S. reflexivity.
Qed.

Lemma search_unseen_ids (x : bytes) (b : list entry) :
  In x (search_unseen b) -> In x (map entry_id b).
Proof.
  intros H. apply in_search_unseen in H as (e & I & _ & <-).
  apply in_map. exact I.
Qed.

Lemma search_unseen_cons (e : entry) (b : list entry) :
  search_unseen (e :: b)
  = (if entry_seen e then [] else [entry_id e]) ++ search_unseen b.
Proof. unfold search_unseen. cbn [filter]. destruct (entry_seen e); reflexivity. Qed.

Lemma fetched_stays_listed (msg_id x : bytes) (b : list entry) :
  In x (search_unseen (snd (server_fetch msg_id b))) -> In x (search_unseen b).
Proof.
  induction b as [|e b IH]; [intros []|]. cbn [server_fetch].
  destruct (same_id msg_id (entry_id e)).
  - cbn [snd]. rewrite !search_unseen_cons. cbn [entry_seen app].
    intros H. apply in_or_app. right. exact H.
  - destruct (server_fetch msg_id b) as [answer b']. cbn [snd] in *.
    rewrite !search_unseen_cons. intros H.
    apply in_app_or in H as [H|H]; apply in_or_app; [left | right; apply IH];
      exact H.
Qed.

Lemma fetched_is_seen (msg_id : bytes) (b : list entry) :
  NoDup (map entry_id b) ->
  ~ In msg_id (search_unseen (snd (server_fetch msg_id b))).
Proof.
  induction b as [|e b IH]; intros ND; [intros []|].
  cbn [map] in ND. inversion_clear ND as [|? ? NI ND'].
  cbn [server_fetch]. destruct (same_id msg_id (entry_id e)) eqn:E.
  - apply str_eqb_eq in E. cbn [snd]. rewrite search_unseen_cons.
    cbn [entry_seen app]. intros H. apply search_unseen_ids in H.
    rewrite E in H. contradiction.
  - apply str_eqb_neq in E.
    specialize (IH ND'). destruct (server_fetch msg_id b) as [answer b'].
    cbn [snd] in *. rewrite search_unseen_cons. intros H.
    apply in_app_or in H as [H|H]; [|contradiction].
    destruct (entry_seen e); [destruct H|].
    destruct H as [H|[]]. congruence.
Qed.

Lemma others_stay_unseen (msg_id x : bytes) (b : list entry) :
  x <> msg_id -> In x (search_unseen b) ->
  In x (search_unseen (snd (server_fetch msg_id b))).
Proof.
  intros NE. induction b as [|e b IH]; [intros []|].
  cbn [server_fetch]. rewrite search_unseen_cons.
  destruct (same_id msg_id (entry_id e)) eqn:E.
  - apply str_eqb_eq in E. cbn [snd]. rewrite search_unseen_cons.
    cbn [entry_seen app]. intros H. apply in_app_or in H as [H|H]; [|exact H].
    destruct (entry_seen e); [destruct H|]. destruct H as [H|[]]. congruence.
  - destruct (server_fetch msg_id b) as [answer b']. cbn [snd] in *.
    rewrite search_unseen_cons. intros H.
    apply in_app_or in H as [H|H]; apply in_or_app; [left | right; apply IH];
      exact H.
Qed.

Lemma search_unseen_NoDup (b : list entry) :
  NoDup (map entry_id b) -> NoDup (search_unseen b).
Proof.
  induction b as [|e b IH]; intros ND; [constructor|].
  cbn [map] in ND. inversion_clear ND as [|? ? NI ND'].
  rewrite search_unseen_cons. destruct (entry_seen e); cbn [app]; [auto|].
  constructor; [|auto]. intros H. apply search_unseen_ids in H. contradiction.
Qed.

Lemma received_ids_app (a b : list event) :
  received_ids (a ++ b) = received_ids a ++ received_ids b.
Proof.
  induction a as [|[m|i m] a IH]; cbn [received_ids app]; [reflexivity|exact IH|].
  rewrite IH. reflexivity.
Qed.

Lemma fetch_email_received (L : limits) (cb : bool) (msg_id : bytes)
      (answer : fetch_answer) :
  received_ids (snd (_fetch_email L cb msg_id answer)) = []
  \/ received_ids (snd (_fetch_email L cb msg_id answer)) = [msg_id].
Proof.
  unfold _fetch_email.
  destruct answer as [| |m]; try (left; reflexivity).
  destruct (negb _); [left; reflexivity|].
  destruct (parse_message_body _ _); [|left; reflexivity].
  destruct (match email_attachments m with [] => _ | _ => _ end);
    [|left; reflexivity].
  destruct (decode_utf8 msg_id); [|left; reflexivity].
  destruct cb; [right | left]; reflexivity.
Qed.

Lemma pass_of_set_pass (t : worker) (p : pass) (s : state) :
  pass_of t (set_pass t p s) = p.
Proof. destruct t; reflexivity. Qed.

Lemma box_set_pass (t : worker) (p : pass) (s : state) :
  box (set_pass t p s) = box s.
Proof. destruct t; reflexivity. Qed.

Lemma observed_set_pass (t : worker) (p : pass) (s : state) :
  observed (set_pass t p s) = observed s.
Proof. destruct t; reflexivity. Qed.

Lemma begin_check_alone (t : worker) (ready : bool) (s : state) :
  delivered_once s -> pass_alone t (begin_check t ready s).
Proof.
  intros (ND & NR & R). unfold pass_alone, delivered_once, begin_check.
  rewrite pass_of_set_pass, box_set_pass, observed_set_pass. cbn [pending].
  split; [split; [exact ND | split; [exact NR | exact R]]|].
  destruct ready.
  - split; [apply search_unseen_NoDup; exact ND | auto].
  - split; [constructor | intros id []].
Qed.

Lemma fetch_next_alone (t : worker) (s : state) :
  pass_alone t s -> pass_alone t (fetch_next t s).
Proof.
  intros ((ND & NR & R) & NP & U). unfold fetch_next.
  destruct (pending (pass_of t s)) as [|msg_id rest] eqn:P.
  { unfold pass_alone, delivered_once. rewrite P.
    split; [split; [exact ND | split; [exact NR | exact R]]|].
    split; [constructor | intros id []]. }
  pose proof (server_fetch_ids msg_id (box s)) as F1.
  pose proof (fetched_is_seen msg_id (box s) ND) as F2.
  pose proof (fun x => fetched_stays_listed msg_id x (box s)) as F3.
  pose proof (fun x => others_stay_unseen msg_id x (box s)) as F4.
  destruct (server_fetch msg_id (box s)) as [answer box']. cbn [snd] in *.
  pose proof (fetch_email_received (interpreter s) (callback_set s) msg_id
                answer) as F5.
  destruct (_fetch_email (interpreter s) (callback_set s) msg_id answer)
    as [data events].
  cbn [snd] in F5.
  inversion_clear NP as [|? ? NI NP'].
  assert (Unseen : In msg_id (search_unseen (box s))) by (apply U; left; reflexivity).
  assert (New : ~ In msg_id (received_ids (observed s))).
  { intros H. apply R in H as [_ H]. contradiction. }
  unfold pass_alone, delivered_once.
  rewrite pass_of_set_pass, box_set_pass, observed_set_pass.
  cbn [box observed pending]. rewrite received_ids_app, F1.
  split; [split; [exact ND|split]|split; [exact NP'|]].
  - destruct F5 as [-> | ->]; [rewrite app_nil_r; exact NR|].
    apply NoDup_app; [exact NR | repeat constructor; auto |].
    intros x Hx [<-|[]]. contradiction.
  - intros id H. apply in_app_or in H as [H|H].
    + destruct (R id H) as [I NU]. split; [exact I|].
      intros H'. apply NU, F3, H'.
    + destruct F5 as [E | E]; rewrite E in H; [destruct H|].
      destruct H as [<-|[]]. split; [|exact F2].
      apply search_unseen_ids. exact Unseen.
  - intros id H. apply F4.
    + intros ->. contradiction.
    + apply U. right. exact H.
Qed.

Lemma fetch_turns_alone (turns : nat) (t : worker) :
  forall s, pass_alone t s -> pass_alone t (fetch_turns turns t s).
Proof.
  induction turns as [|n IH]; intros s H; [exact H|].
  cbn [fetch_turns]. apply IH, fetch_next_alone, H.
Qed.

Lemma check_new_messages_once (t : worker) (ready : bool) (s : state) :
  delivered_once s -> delivered_once (snd (check_new_messages t ready s)).
Proof.
  intros H. unfold check_new_messages, finish_check. cbn [snd].
  apply (begin_check_alone t ready) in H.
  apply (fetch_turns_alone
           (List.length (pending (pass_of t (begin_check t ready s)))) t) in H.
  destruct H as [H _]. exact H.
Qed.

Lemma check_new_messages_ids (t : worker) (ready : bool) (s : state) :
  map entry_id (box (snd (check_new_messages t ready s)))
  = map entry_id (box s).
Proof.
  unfold check_new_messages, finish_check. cbn [snd box].
  assert (B : map entry_id (box (begin_check t ready s)) = map entry_id (box s)).
  { unfold begin_check. rewrite box_set_pass. reflexivity. }
  revert B. generalize (begin_check t ready s). intros s1.
  generalize (List.length (pending (pass_of t s1))). intros n.
  revert s1. induction n as [|n IH]; intros s1 B; [exact B|].
  cbn [fetch_turns]. apply IH. rewrite <- B. unfold fetch_next.
  destruct (pending (pass_of t s1)); [reflexivity|].
  pose proof (server_fetch_ids l (box s1)) as F.
  destruct (server_fetch l (box s1)) as [answer box'].
  destruct (_fetch_email _ _ _ _). rewrite box_set_pass. exact F.
Qed.

(** C4, amended: the code keeps no set of seen ids; the id that
    [_fetch_email] and the callback get is the sequence number of the mail
    in the mailbox.  When the sequence numbers of the mailbox are distinct,
    new mail arrives under a number that is not in use (nothing is expunged
    and renumbered) and the passes of [check_new_messages] do not overlap,
    whichever worker runs them, no sequence number is handed to the
    callback twice: the fetch of a mail sets its [\Seen] flag on the server
    and [SEARCH UNSEEN] lists it no more. *)
Theorem callback_once_without_overlap
    (L : limits) (box0 : list entry) (callback : bool)
    (actions : list action) :
  NoDup (map entry_id box0) ->
  fresh_arrivals (map entry_id box0) actions ->
  NoDup (received_ids
           (observed (fold_left act actions (start L box0 callback)))).
Proof.
  intros ND FA.
  assert (Inv : delivered_once (start L box0 callback)).
  { unfold delivered_once, start. cbn. split; [exact ND|].
    split; [constructor | intros id []]. }
  assert (Ids : map entry_id (box (start L box0 callback)) = map entry_id box0)
    by reflexivity.
  rewrite <- Ids in FA. clear Ids ND.
  revert Inv FA. generalize (start L box0 callback). clear box0 callback.
  induction actions as [|a actions IH]; intros s Inv FA.
  - destruct Inv as (_ & NR & _). exact NR.
  - cbn [fold_left]. apply IH.
    + destruct a as [t ready | e]; cbn [act].
      * apply check_new_messages_once. exact Inv.
      * cbn [fresh_arrivals] in FA. destruct FA as [Fr _].
        destruct Inv as (ND & NR & R). unfold delivered_once. cbn [box observed].
        rewrite map_app. cbn [map]. split; [|split; [exact NR|]].
        -- apply NoDup_app; [exact ND | repeat constructor; auto |].
           intros x Hx [<-|[]]. contradiction.
        -- intros id H. destruct (R id H) as [I NU].
           split; [apply in_or_app; left; exact I|].
           unfold search_unseen. rewrite filter_app, map_app.
           intros H'. apply in_app_or in H' as [H'|H']; [contradiction|].
           cbn [filter] in H'. destruct (negb (entry_seen e)); [|destruct H'].
           destruct H' as [<-|[]]. contradiction.
    + destruct a as [t ready | e]; cbn [act fresh_arrivals] in *.
      * rewrite check_new_messages_ids. exact FA.
      * cbn [box]. rewrite map_app. destruct FA as [_ FA]. exact FA.
Qed.

(** C4, as the claim states it, fails.  When both workers have searched
    before either has fetched, both fetch mail 1 and the callback is
    invoked twice with it; and in passes that do not overlap a message that
    lies in the mailbox a second time (mail 2, a copy of mail 1 as a
    repeated transmission leaves it) is handed to the callback a second
    time under the same [message_id], which nothing compares. *)
Lemma same_message_delivered_twice :
  received_ids
    (observed
       (run [Search IdleWorker; Search PollWorker;
             Fetch IdleWorker; Fetch PollWorker]
          (start L0 box0 true)))
  = [u "1"; u "1"]
  /\ map (dict_get (u "message_id"))
       (received_messages
          (observed
             (fold_left act
                [Check PollWorker true; Arrive second_mail;
                 Check IdleWorker true]
                (start L0 box0 true))))
     = [Some (JStr (u "echat_20240309140507_1f2e3d4c"));
        Some (JStr (u "echat_20240309140507_1f2e3d4c"))].
Proof. split; vm_compute; reflexivity. Qed.

Lemma callback_once_without_overlap_witness :
  NoDup (map entry_id box0)
  /\ fresh_arrivals (map entry_id box0)
       [Check PollWorker true; Arrive news_mail;
        Check IdleWorker true; Check PollWorker true]
  /\ NoDup
       (received_ids
          (observed
             (fold_left act
                [Check PollWorker true; Arrive news_mail;
                 Check IdleWorker true; Check PollWorker true]
                (start L0 box0 true)))).
Proof.
  assert (ND : NoDup (map entry_id box0)).
  { vm_compute. repeat constructor. intros []. }
  assert (FA : fresh_arrivals (map entry_id box0)
                 [Check PollWorker true; Arrive news_mail;
                  Check IdleWorker true; Check PollWorker true]).
  { vm_compute. split; [|exact I]. intros [H|[]]. discriminate H. }
  split; [exact ND|]. split; [exact FA|].
  exact (callback_once_without_overlap L0 box0 true _ ND FA).
Defined.

(** The run of the example hands over two different messages, each
    once. *)
Lemma two_messages_each_once :
  received_ids
    (observed
       (fold_left act
          [Check PollWorker true; Arrive news_mail;
           Check IdleWorker true; Check PollWorker true]
          (start L0 box0 true)))
  = [u "1"; u "2"]
  /\ map (dict_get (u "message_id"))
       (received_messages
          (observed
             (fold_left act
                [Check PollWorker true; Arrive news_mail;
                 Check IdleWorker true; Check PollWorker true]
                (start L0 box0 true))))
     = [Some (JStr (u "echat_20240309140507_1f2e3d4c"));
        Some (JStr (u "echat_20240309141233_9a8b7c6d"))].
Proof. split; vm_compute; reflexivity. Qed.

(** ** The round trip of a message through the body of a mail *)

Lemma scanstring_unicode (h1 h2 h3 h4 uni : N) (r2 : str) :
  hex4 h1 h2 h3 h4 = Some uni -> is_high_surrogate uni = false ->
  scanstring (92 :: 117 :: h1 :: h2 :: h3 :: h4 :: r2)
  = cons_fst uni (scanstring r2).
Proof.
  intros H S. cbn [scanstring].
  change (92 =? 34) with false. change (92 =? 92) with true.
  change (117 =? 117) with true. cbv iota. rewrite H.
  destruct r2 as [|b [|v [|g1 [|g2 [|g3 [|g4 r3]]]]]]; try reflexivity.
  rewrite S. reflexivity.
Qed.

Lemma hex4_control (c : N) :
  c < 32 ->
  hex4 48 48 (hex_digit (c / 16)) (hex_digit (c mod 16)) = Some c.
Proof.
  intros H.
  assert (K : all_below 5 (fun c =>
            match hex4 48 48 (hex_digit (c / 16)) (hex_digit (c mod 16)) with
            | Some d => d =? c
            | None => false
            end) = true) by (vm_compute; reflexivity).
  pose proof (all_below_spec 5 _ K c H) as E. cbv beta in E.
  destruct (hex4 _ _ _ _); [|discriminate]. apply N.eqb_eq in E. congruence.
Qed.

(** [scanstring] reads back one character that [escape_char] wrote. *)
Lemma scanstring_escape_char (c : N) (r : str) :
  scanstring (escape_char c ++ r) = cons_fst c (scanstring r).
Proof.
  unfold escape_char.
  destruct (c =? 34) eqn:E34; [apply N.eqb_eq in E34; subst; reflexivity|].
  destruct (c =? 92) eqn:E92; [apply N.eqb_eq in E92; subst; reflexivity|].
  destruct (c =? 10) eqn:E10; [apply N.eqb_eq in E10; subst; reflexivity|].
  destruct (c =? 13) eqn:E13; [apply N.eqb_eq in E13; subst; reflexivity|].
  destruct (c =? 9) eqn:E9; [apply N.eqb_eq in E9; subst; reflexivity|].
  destruct (c =? 8) eqn:E8; [apply N.eqb_eq in E8; subst; reflexivity|].
  destruct (c =? 12) eqn:E12; [apply N.eqb_eq in E12; subst; reflexivity|].
  destruct (c <? 32) eqn:E32.
  - apply N.ltb_lt in E32. cbn [app].
    apply scanstring_unicode; [apply hex4_control; exact E32|].
    unfold is_high_surrogate. apply andb_false_iff. left.
    apply N.leb_gt. lia.
  - cbn [app scanstring]. rewrite E34, E92, E32. reflexivity.
Qed.

Lemma scanstring_escaped (s rest : str) :
  scanstring (flat_map escape_char s ++ 34 :: rest) = Some (s, rest).
Proof.
  induction s as [|c s IH]; [reflexivity|].
  cbn [flat_map]. rewrite <- app_assoc, scanstring_escape_char, IH.
  reflexivity.
Qed.


Lemma pos_to_uint_head (p : positive) :
  Pos.to_uint p <> Decimal.Nil /\ forall d, Pos.to_uint p <> Decimal.D0 d.
Proof.
  split; [apply DecimalPos.Unsigned.to_uint_nonnil|].
  intros d E.
  pose proof (DecimalPos.Unsigned.to_of (Pos.to_uint p)) as T.
  rewrite DecimalPos.Unsigned.of_to in T. cbn [N.to_uint] in T.
  unfold Decimal.unorm in T.
  destruct (Decimal.nzhead (Pos.to_uint p)) eqn:Z;
    try (rewrite E in T; discriminate T).
  - exact (DecimalPos.Unsigned.to_uint_nonzero p T).
  - exact (DecimalFacts.nzhead_nonzero _ _ Z).
Qed.

Lemma uint_chars_digits (d : Decimal.uint) :
  Forall (fun c => is_digit c = true) (uint_chars d).
Proof. induction d; cbn [uint_chars]; constructor; auto. Qed.

Lemma chars_uint_chars (d : Decimal.uint) : chars_uint (uint_chars d) = d.
Proof. induction d; cbn [uint_chars chars_uint]; try rewrite IHd; reflexivity. Qed.

Lemma number_stop_digit (rest : str) :
  number_stop rest = true ->
  match rest with [] => True | c :: _ => is_digit c = false end.
Proof.
  destruct rest as [|c r]; [auto|]. cbn [number_stop]. intros H.
  apply negb_true_iff in H. apply orb_false_iff in H as [H _].
  apply orb_false_iff in H as [H _]. apply orb_false_iff in H as [H _].
  exact H.
Qed.

Lemma span_digits_app (ds rest : str) :
  Forall (fun c => is_digit c = true) ds ->
  number_stop rest = true ->
  span_digits (ds ++ rest) = (ds, rest).
Proof.
  intros F S. induction F as [|c ds Hc F IH]; cbn [app span_digits].
  - apply number_stop_digit in S. destruct rest as [|c r]; [reflexivity|].
    cbn [span_digits]. rewrite S. reflexivity.
  - rewrite Hc, IH. reflexivity.
Qed.

Lemma scan_frac_stop (rest : str) :
  number_stop rest = true -> scan_frac rest = ([], rest).
Proof.
  destruct rest as [|c [|f r]]; try reflexivity. cbn [number_stop scan_frac].
  intros H. apply negb_true_iff in H. apply orb_false_iff in H as [H _].
  apply orb_false_iff in H as [H _]. apply orb_false_iff in H as [_ H].
  rewrite H. reflexivity.
Qed.

Lemma scan_exp_stop (rest : str) :
  number_stop rest = true -> scan_exp rest = ([], rest).
Proof.
  destruct rest as [|c r]; [reflexivity|]. cbn [number_stop scan_exp].
  intros H. apply negb_true_iff in H. apply orb_false_iff in H as [H H69].
  apply orb_false_iff in H as [_ H101].
  rewrite H101, H69. reflexivity.
Qed.

(** The digits of a positive number, read as [NUMBER_RE] reads them. *)
Lemma match_digits (p : positive) (rest : str) :
  number_stop rest = true ->
  exists c cs,
    uint_chars (Pos.to_uint p) = c :: cs
    /\ is_digit c = true /\ (c =? 45) = false
    /\ match_number (c :: cs ++ rest) = Some (JInt (Zpos p), rest)
    /\ match_number (45 :: c :: cs ++ rest) = Some (JInt (Zneg p), rest).
Proof.
  intros S. destruct (pos_to_uint_head p) as [NN NZ].
  pose proof (uint_chars_digits (Pos.to_uint p)) as F.
  pose proof (chars_uint_chars (Pos.to_uint p)) as R.
  pose proof (DecimalPos.Unsigned.of_to p) as V.
  assert (H48 : forall c cs, uint_chars (Pos.to_uint p) = c :: cs -> (c =? 48) = false).
  { intros c cs E. destruct (Pos.to_uint p); cbn [uint_chars] in E;
      try (injection E as <- _; reflexivity);
      [discriminate E | exfalso; eapply NZ; reflexivity]. }
  destruct (uint_chars (Pos.to_uint p)) as [|c cs] eqn:E.
  { destruct (Pos.to_uint p); cbn [uint_chars] in E; try discriminate E.
    congruence. }
  specialize (H48 c cs eq_refl).
  inversion_clear F as [|? ? Hc F'].
  assert (H45 : (c =? 45) = false).
  { unfold is_digit in Hc. apply andb_true_iff in Hc as [L _].
    apply N.leb_le in L. apply N.eqb_neq. lia. }
  assert (Val : digits_value (c :: cs) = Zpos p).
  { unfold digits_value. rewrite R.
    change (N.of_uint (Pos.to_uint p)) with (Pos.of_uint (Pos.to_uint p)).
    rewrite V. reflexivity. }
  exists c, cs. split; [reflexivity|]. split; [exact Hc|]. split; [exact H45|].
  split.
  - unfold match_number. rewrite H45, Hc, H48.
    rewrite (span_digits_app cs rest F' S), scan_frac_stop, scan_exp_stop by exact S.
    rewrite Val. reflexivity.
  - unfold match_number. change (45 =? 45) with true. cbv iota.
    rewrite Hc, H48.
    rewrite (span_digits_app cs rest F' S), scan_frac_stop, scan_exp_stop by exact S.
    rewrite Val. reflexivity.
Qed.

Lemma literal_miss (c : N) (r : str) (w : string) (v : json) (h : N) (t : str) :
  u w = h :: t -> h <> c -> literal (c :: r) w v = None.
Proof.
  intros E NE. unfold literal. rewrite E. cbn [startswith].
  apply N.eqb_neq in NE. rewrite NE. reflexivity.
Qed.





Lemma json_induction (P : json -> Prop) :
  P JNull -> (forall b, P (JBool b)) -> (forall z, P (JInt z)) ->
  (forall l, P (JFloat l)) -> (forall s, P (JStr s)) ->
  (forall l, Forall P l -> P (JList l)) ->
  (forall d, Forall (fun kv => P (snd kv)) d -> P (JDict d)) ->
  forall v, P v.
Proof.
  intros Hn Hb Hi Hf Hs Hl Hd.
  fix IH 1. intros [| b | z | l | s | l | d].
  - exact Hn.
  - apply Hb.
  - apply Hi.
  - apply Hf.
  - apply Hs.
  - apply Hl.
    exact ((fix all (l : list json) : Forall P l :=
              match l with
              | [] => Forall_nil P
              | x :: l' => Forall_cons x (IH x) (all l')
              end) l).
  - apply Hd.
    exact ((fix all (d : list (list N * json))
              : Forall (fun kv => P (snd kv)) d :=
              match d with
              | [] => Forall_nil _
              | kv :: d' => Forall_cons kv (IH (snd kv)) (all d')
              end) d).
Qed.

Lemma skip_ws_head (c : N) (s : str) :
  is_ws c = false -> skip_ws (c :: s) = c :: s.
Proof. intros H. unfold skip_ws. cbn [lstrip_by]. rewrite H. reflexivity. Qed.

Lemma skip_ws_spaces (n : nat) (s : str) :
  skip_ws (repeat 32 n ++ s) = skip_ws s.
Proof. induction n as [|n IH]; [reflexivity | exact IH]. Qed.

Lemma skip_ws_newline_indent (level : nat) (s : str) :
  skip_ws (newline_indent level ++ s) = skip_ws s.
Proof.
  unfold newline_indent. cbn [app].
  change (skip_ws (10 :: ?x)) with (skip_ws x). apply skip_ws_spaces.
Qed.

(** The first character of a printed value opens a value: it is neither
    white space nor a closing bracket nor a byte-order mark. *)
Lemma dumps_at_head (level : nat) (v : json) :
  plain v ->
  exists c r, dumps_at level v = c :: r
              /\ is_ws c = false /\ (c =? 93) = false /\ (c =? 65279) = false.
Proof.
  intros H. destruct H as [| b | z | s | l _ | d _ _].
  - eexists _, _. split; [reflexivity|]. repeat split.
  - destruct b; eexists _, _; (split; [reflexivity|]); repeat split.
  - destruct z as [|p|p]; cbn [dumps_at repr_int].
    + eexists _, _. split; [reflexivity|]. repeat split.
    + destruct (match_digits p [] eq_refl) as (c & cs & E & D & _).
      exists c, cs. split; [exact E|].
      unfold is_digit in D. apply andb_true_iff in D as [L U].
      apply N.leb_le in L, U.
      unfold is_ws. repeat split;
        repeat (apply orb_false_iff; split); apply N.eqb_neq; lia.
    + eexists _, _. split; [reflexivity|]. repeat split.
  - eexists _, _. split; [reflexivity|]. repeat split.
  - destruct l; eexists _, _; (split; [reflexivity|]); repeat split.
  - destruct d; eexists _, _; (split; [reflexivity|]); repeat split.
Qed.

Lemma follows_value_stop (rest : str) :
  follows_value rest -> number_stop rest = true.
Proof. intros [-> | [r [-> | ->]]]; reflexivity. Qed.

Lemma follows_newline (level : nat) (s : str) :
  follows_value (newline_indent level ++ s).
Proof. right. eexists. right. reflexivity. Qed.

Lemma json_size_pos (v : json) : (1 <= json_size v)%nat.
Proof. destruct v; cbn [json_size]; lia. Qed.

Lemma dict_set_fresh (k : str) (v : json) (d : dict) :
  ~ In k (keys d) -> dict_set k v d = d ++ [(k, v)].
Proof.
  induction d as [| [k' v'] d IH]; intros H; [reflexivity|].
  cbn [dict_set app]. cbn [keys map fst In] in H.
  assert (N : PyStr.eqb k k' = false)
    by (apply str_eqb_neq; intros ->; apply H; left; reflexivity).
  rewrite N.
  rewrite IH; [reflexivity|]. intros Hin. apply H. right. exact Hin.
Qed.

Lemma dict_update_fresh (d acc : dict) :
  NoDup (keys (acc ++ d)) -> dict_update acc d = acc ++ d.
Proof.
  revert acc. induction d as [| [k v] d IH]; intros acc H.
  - symmetry. apply app_nil_r.
  - change (dict_update acc ((k, v) :: d))
      with (dict_update (dict_set k v acc) d).
    assert (F : ~ In k (keys acc)).
    { unfold keys in *. rewrite map_app in H. cbn [map fst] in H.
      apply NoDup_remove_2 in H. intros Hin. apply H.
      apply in_or_app. left. exact Hin. }
    rewrite (dict_set_fresh k v acc F).
    rewrite IH; rewrite <- app_assoc; [reflexivity | exact H].
Qed.

Lemma follows_more {A} (item : A -> str) (level outer : nat) (l : list A)
      (close : str) :
  follows_value
    (more_items item (44 :: newline_indent level) l
     ++ newline_indent outer ++ close).
Proof.
  destruct l as [| x l].
  - apply follows_newline.
  - right. eexists. left. reflexivity.
Qed.

Lemma skip_to_value (level lvl : nat) (v : json) (rest : str) :
  plain v ->
  skip_ws (newline_indent level ++ dumps_at lvl v ++ rest)
  = dumps_at lvl v ++ rest.
Proof.
  intros H. rewrite skip_ws_newline_indent.
  destruct (dumps_at_head lvl v H) as (c & r & -> & W & _).
  apply skip_ws_head. exact W.
Qed.



Lemma Forall_modus {A} (P Q : A -> Prop) (l : list A) :
  Forall (fun x => P x -> Q x) l -> Forall P l -> Forall Q l.
Proof.
  induction 1 as [| x l H _ IH]; intros F; [constructor|].
  inversion F; subst. constructor; auto.
Qed.


Lemma length_more_items {A} (item : A -> str) (size : A -> nat) (sep : str)
      (l : list A) :
  Forall (fun x => (size x <= List.length (item x))%nat) l ->
  (list_sum (map size l) <= List.length (more_items item sep l))%nat.
Proof.
  induction 1 as [| x l H _ IH]; cbn [map list_sum fold_right more_items].
  - lia.
  - rewrite !length_app. unfold list_sum in IH. lia.
Qed.

Lemma json_size_length (v : json) :
  plain v -> forall level, (json_size v <= List.length (dumps_at level v))%nat.
Proof.
  induction v as [| b | z | l | s | l IH | d IH] using json_induction;
    intros Pv level.
  - cbn. lia.
  - destruct b; cbn; lia.
  - destruct (dumps_at_head level (JInt z) Pv) as (c & r & -> & _).
    cbn [json_size List.length]. lia.
  - inversion Pv.
  - cbn [json_size dumps_at encode_basestring List.length]. lia.
  - inversion Pv as [| | | | l' Pl |]; subst.
    pose proof (Forall_modus _ _ _ IH Pl) as Sl.
    destruct l as [| x l]; [cbn; lia|].
    inversion Sl as [| ? ? Sx Sl']; subst.
    cbn [dumps_at join_items json_size map list_sum fold_right].
    rewrite !length_app.
    pose proof (length_more_items (dumps_at (S level)) json_size
                  (44 :: newline_indent (S level)) l) as M.
    specialize (Sx (S level)).
    assert (Sl'' : Forall (fun y => (json_size y <= List.length (dumps_at (S level) y))%nat) l).
    { apply Forall_forall. intros y Hy.
      exact (proj1 (Forall_forall _ _) Sl' y Hy (S level)). }
    specialize (M Sl''). unfold list_sum in M. cbn [List.length]. lia.
  - inversion Pv as [| | | | | d' Nd Pd]; subst.
    pose proof (Forall_modus _ _ _ IH Pd) as Sd.
    destruct d as [| [k x] d]; [cbn; lia|].
    inversion Sd as [| ? ? Sx Sd']; subst. cbn [snd] in Sx.
    cbn [dumps_at join_items json_size map list_sum fold_right fst snd].
    rewrite !length_app.
    pose proof (length_more_items (member_text (S level))
                  (fun kv => json_size (snd kv))
                  (44 :: newline_indent (S level)) d) as M.
    specialize (Sx (S level)).
    assert (Sd'' : Forall (fun kv => (json_size (snd kv)
                     <= List.length (member_text (S level) kv))%nat) d).
    { apply Forall_forall. intros kv Hkv. unfold member_text.
      rewrite !length_app.
      pose proof (proj1 (Forall_forall _ _) Sd' kv Hkv (S level)). lia. }
    specialize (M Sd''). unfold list_sum in M.
    change (more_items _ (44 :: newline_indent (S level)) d)
      with (more_items (member_text (S level)) (44 :: newline_indent (S level)) d).
    cbn [List.length]. lia.
Qed.


(** *** The scanner within the limits of the interpreter *)

(** Where no limit is met the scanner with limits answers as the scanner
    without. *)
Lemma scan_agrees (L : limits) (fuel : nat) :
  (forall room s, agrees (scan_value L fuel room s) (parse_value fuel s))
  /\ (forall room s acc,
         agrees (scan_members L fuel room s acc) (parse_members fuel s acc))
  /\ (forall room s acc,
         agrees (scan_elements L fuel room s acc) (parse_elements fuel s acc)).
Proof.
  induction fuel as [|fuel (IHv & IHm & IHe)];
    [repeat split; intros; reflexivity|].
  split; [|split].
  - intros room s. cbn [scan_value parse_value].
    destruct s as [|c r]; [reflexivity|].
    destruct (c =? 34).
    { destruct (scanstring r) as [[x r']|]; reflexivity. }
    destruct (c =? 123).
    { destruct room as [|room]; [exact I|].
      destruct (skip_ws r) as [|c' r']; [reflexivity|].
      destruct (c' =? 125); [reflexivity|].
      destruct (c' =? 34); [|reflexivity].
      specialize (IHm room r' []).
      destruct (scan_members L fuel room r' []) as [[d r'']| | | |];
        cbn [and_then agrees fst snd] in *; try rewrite IHm;
        try reflexivity; exact I. }
    destruct (c =? 91).
    { destruct room as [|room]; [exact I|].
      destruct (skip_ws r) as [|c' r']; [reflexivity|].
      destruct (c' =? 93); [reflexivity|].
      specialize (IHe room (c' :: r') []).
      destruct (scan_elements L fuel room (c' :: r') []) as [[l r'']| | | |];
        cbn [and_then agrees fst snd] in *; try rewrite IHe;
        try reflexivity; exact I. }
    unfold scan_atom, of_option.
    destruct (or_else _ _) as [[v r']|]; [|reflexivity].
    destruct v; try reflexivity.
    destruct (too_many_digits _ _); [exact I | reflexivity].
  - intros room s acc. cbn [scan_members parse_members].
    destruct (scanstring s) as [[key r]|]; [|reflexivity].
    destruct (skip_ws r) as [|c r1]; [reflexivity|].
    destruct (c =? 58); [|reflexivity].
    specialize (IHv room (skip_ws r1)).
    destruct (scan_value L fuel room (skip_ws r1)) as [[v r2]| | | |];
      cbn [and_then agrees fst snd] in *; try rewrite IHv;
      try reflexivity; try exact I.
    destruct (skip_ws r2) as [|d r3]; [reflexivity|].
    destruct (d =? 125); [reflexivity|].
    destruct (d =? 44); [|reflexivity].
    destruct (skip_ws r3) as [|q r4]; [reflexivity|].
    destruct (q =? 34); [|reflexivity].
    apply IHm.
  - intros room s acc. cbn [scan_elements parse_elements].
    specialize (IHv room s).
    destruct (scan_value L fuel room s) as [[v r]| | | |];
      cbn [and_then agrees fst snd] in *; try rewrite IHv;
      try reflexivity; try exact I.
    destruct (skip_ws r) as [|d r1]; [reflexivity|].
    destruct (d =? 93); [reflexivity|].
    destruct (d =? 44); [|reflexivity].
    apply IHe.
Qed.

Lemma json_loads_agrees (L : limits) (s : str) :
  agrees (json_loads L s) (loads s).
Proof.
  unfold json_loads, loads, loads_fuel.
  destruct (startswith s [65279]); [reflexivity|].
  destruct (scan_agrees L (S (2 * List.length s))) as (Hv & _ & _).
  specialize (Hv (max_nesting L) (skip_ws s)).
  destruct (scan_value L _ _ (skip_ws s)) as [[v r]| | | |];
    cbn [and_then agrees fst snd] in *; try rewrite Hv;
    try reflexivity; try exact I.
  destruct (skip_ws r); reflexivity.
Qed.

(** The recursion bound of the embedding is never what [json_loads]
    answers: it returns a value or raises one of the three exceptions. *)
Theorem json_loads_total (L : limits) (s : str) : json_loads L s <> Unfinished.
Proof.
  intros E. pose proof (json_loads_agrees L s) as A. rewrite E in A.
  exact (loads_total s A).
Qed.

(** The document behind a brace is an object, or no value at all. *)
Lemma json_loads_brace_dict (L : limits) (r : str) (v : json) :
  json_loads L (123 :: r) = Loaded v -> exists d, v = JDict d.
Proof.
  unfold json_loads. cbn [startswith skip_ws lstrip_by].
  change (65279 =? 123) with false. change (is_ws 123) with false.
  cbv iota. cbn [andb scan_value].
  change (123 =? 34) with false. change (123 =? 123) with true. cbv iota.
  unfold max_nesting. cbn [Nat.add].
  intros H.
  destruct (skip_ws r) as [|c' r']; [discriminate|].
  destruct (c' =? 125).
  { cbn [and_then fst snd] in H.
    destruct (skip_ws r'); [|discriminate]. injection H as <-. eauto. }
  destruct (c' =? 34); [|discriminate].
  destruct (scan_members L _ _ r' []) as [[d r'']| | | |]; try discriminate.
  cbn [and_then fst snd] in H.
  destruct (skip_ws r''); [|discriminate]. injection H as <-. eauto.
Qed.

Lemma scan_value_string (L : limits) (fuel room : nat) (s rest : str) :
  scan_value L (S fuel) room (encode_basestring s ++ rest)
  = Loaded (JStr s, rest).
Proof.
  unfold encode_basestring. cbn [app scan_value].
  change (34 =? 34) with true. cbv iota.
  rewrite <- app_assoc. cbn [app]. rewrite scanstring_escaped. reflexivity.
Qed.

(** A text that opens with a digit or a minus sign is scanned as a number,
    and an [int] is checked against the digit limit. *)
Lemma scan_value_number (L : limits) (fuel room : nat) (c : N) (r : str)
      (z : Z) (rest : str) :
  is_digit c = true \/ c = 45 ->
  match_number (c :: r) = Some (JInt z, rest) ->
  too_many_digits L (integer_digits (c :: r)) = false ->
  scan_value L (S fuel) room (c :: r) = Loaded (JInt z, rest).
Proof.
  intros H M T.
  assert (B : 45 <= c <= 57).
  { destruct H as [H | ->]; [|lia]. unfold is_digit in H.
    apply andb_true_iff in H as [Lo Up]. apply N.leb_le in Lo, Up. lia. }
  cbn [scan_value].
  replace (c =? 34) with false by (symmetry; apply N.eqb_neq; lia).
  replace (c =? 123) with false by (symmetry; apply N.eqb_neq; lia).
  replace (c =? 91) with false by (symmetry; apply N.eqb_neq; lia).
  unfold scan_atom.
  rewrite (literal_miss c r "null" JNull 110 [117; 108; 108])
    by (try reflexivity; lia).
  rewrite (literal_miss c r "true" (JBool true) 116 [114; 117; 101])
    by (try reflexivity; lia).
  rewrite (literal_miss c r "false" (JBool false) 102 [97; 108; 115; 101])
    by (try reflexivity; lia).
  cbn [or_else]. rewrite M. cbv iota beta. rewrite T. reflexivity.
Qed.

(** The integer part of a printed [int] has the digits of the number. *)
Lemma integer_digits_repr (z : Z) (rest : str) :
  number_stop rest = true ->
  integer_digits (repr_int z ++ rest) = int_digits z.
Proof.
  intros S.
  assert (P : forall p, exists c cs,
               uint_chars (Pos.to_uint p) = c :: cs
               /\ (c =? 45) = false /\ (c =? 48) = false
               /\ Forall (fun c => is_digit c = true) cs).
  { intros p. destruct (pos_to_uint_head p) as [NN NZ].
    pose proof (uint_chars_digits (Pos.to_uint p)) as F.
    destruct (Pos.to_uint p) as [|d|d|d|d|d|d|d|d|d|d] eqn:E;
      [congruence | exfalso; eapply NZ; reflexivity | ..];
      cbn [uint_chars] in *; inversion_clear F as [|? ? _ F'];
      eexists _, _; (split; [reflexivity|]); repeat split; exact F'. }
  unfold int_digits. destruct z as [|p|p]; cbn [repr_int Z.abs].
  - reflexivity.
  - destruct (P p) as (c & cs & -> & C45 & C48 & F).
    cbn [app]. unfold integer_digits. rewrite C45, C48.
    rewrite (span_digits_app cs rest F S). reflexivity.
  - destruct (P p) as (c & cs & -> & C45 & C48 & F).
    cbn [app]. unfold integer_digits. change (45 =? 45) with true. cbv iota.
    rewrite C48, (span_digits_app cs rest F S). reflexivity.
Qed.

Lemma scan_value_int (L : limits) (fuel room : nat) (z : Z) (rest : str) :
  number_stop rest = true ->
  too_many_digits L (int_digits z) = false ->
  scan_value L (S fuel) room (repr_int z ++ rest) = Loaded (JInt z, rest).
Proof.
  intros S T. rewrite <- (integer_digits_repr z rest S) in T.
  destruct z as [|p|p]; cbn [repr_int] in *.
  - cbn [app] in *. apply scan_value_number; [left; reflexivity| |exact T].
    unfold match_number. cbv beta iota. change (48 =? 45) with false.
    cbv beta iota. change (is_digit 48) with true.
    change (48 =? 48) with true. cbv beta iota.
    rewrite scan_frac_stop, scan_exp_stop by exact S. reflexivity.
  - destruct (match_digits p rest S) as (c & cs & E & D & _ & M & _).
    rewrite E in *. cbn [app] in *.
    apply scan_value_number; [left; exact D | exact M | exact T].
  - destruct (match_digits p rest S) as (c & cs & E & D & _ & _ & M).
    rewrite E in *. cbn [app] in *.
    apply scan_value_number; [right; reflexivity | exact M | exact T].
Qed.

Lemma scan_elements_printed (L : limits) (l : list json) :
  Forall plain l -> Forall (reads_back L) l ->
  forall x fuel room acc lvl outer rest,
    plain x -> reads_back L x ->
    forallb (fits L room) (x :: l) = true ->
    (sizes (x :: l) + 1 <= fuel)%nat ->
    scan_elements L fuel room
      (dumps_at lvl x
       ++ more_items (dumps_at lvl) (44 :: newline_indent lvl) l
       ++ newline_indent outer ++ 93 :: rest) acc
    = Loaded (acc ++ x :: l, rest).
Proof.
  induction l as [| y l IH];
    intros Pl Rl x fuel room acc lvl outer rest Px Rx Fi F;
    (destruct fuel as [| fuel]; [lia|]);
    cbn [forallb] in Fi; apply andb_true_iff in Fi as [Fx Fi].
  - cbn [scan_elements more_items app].
    unfold sizes in F. cbn [map list_sum fold_right] in F.
    rewrite (Rx lvl fuel room _) by (lia || exact Fx || apply follows_newline).
    cbn [and_then fst snd].
    rewrite skip_ws_newline_indent, skip_ws_head by reflexivity.
    reflexivity.
  - cbn [scan_elements].
    unfold sizes in F. cbn [map list_sum fold_right] in F.
    pose proof (json_size_pos x) as Sx. pose proof (json_size_pos y) as Sy.
    rewrite (Rx lvl fuel room _) by (lia || exact Fx || apply follows_more).
    cbn [and_then fst snd more_items app].
    rewrite skip_ws_head by reflexivity.
    change (44 =? 93) with false. change (44 =? 44) with true. cbv iota.
    inversion Pl as [| ? ? Py Pl']; subst. inversion Rl as [| ? ? Ry Rl']; subst.
    rewrite <- !app_assoc.
    rewrite (skip_to_value lvl lvl y _ Py).
    rewrite (IH Pl' Rl' y fuel room (acc ++ [x]) lvl outer rest Py Ry Fi).
    + rewrite <- app_assoc. reflexivity.
    + unfold sizes. cbn [map list_sum fold_right]. lia.
Qed.

Lemma scan_members_printed (L : limits) (d : dict) :
  Forall (fun kv => plain (snd kv)) d ->
  Forall (fun kv => reads_back L (snd kv)) d ->
  forall k x fuel room acc lvl outer rest,
    plain x -> reads_back L x ->
    forallb (fun kv => fits L room (snd kv)) ((k, x) :: d) = true ->
    (member_sizes ((k, x) :: d) + 1 <= fuel)%nat ->
    scan_members L fuel room
      (flat_map escape_char k ++ 34 :: 58 :: 32 :: dumps_at lvl x
       ++ more_items (member_text lvl) (44 :: newline_indent lvl) d
       ++ newline_indent outer ++ 125 :: rest) acc
    = Loaded (dict_update acc ((k, x) :: d), rest).
Proof.
  induction d as [| [k' y] d IH];
    intros Pl Rl k x fuel room acc lvl outer rest Px Rx Fi F;
    (destruct fuel as [| fuel]; [lia|]);
    cbn [forallb snd] in Fi; apply andb_true_iff in Fi as [Fx Fi].
  - cbn [scan_members more_items app].
    unfold member_sizes in F. cbn [map list_sum fold_right snd] in F.
    rewrite scanstring_escaped.
    rewrite skip_ws_head by reflexivity.
    change (58 =? 58) with true. cbv iota.
    change (skip_ws (32 :: ?s)) with (skip_ws s).
    destruct (dumps_at_head lvl x Px) as (c & r & E & W & _).
    rewrite E. cbn [app]. rewrite (skip_ws_head c _ W).
    change (c :: r ++ ?s) with ((c :: r) ++ s). rewrite <- E.
    rewrite (Rx lvl fuel room _) by (lia || exact Fx || apply follows_newline).
    cbn [and_then fst snd].
    rewrite skip_ws_newline_indent, skip_ws_head by reflexivity.
    reflexivity.
  - cbn [scan_members].
    unfold member_sizes in F. cbn [map list_sum fold_right snd] in F.
    pose proof (json_size_pos x) as Sx. pose proof (json_size_pos y) as Sy.
    rewrite scanstring_escaped.
    rewrite skip_ws_head by reflexivity.
    change (58 =? 58) with true. cbv iota.
    change (skip_ws (32 :: ?s)) with (skip_ws s).
    destruct (dumps_at_head lvl x Px) as (c & r & E & W & _).
    rewrite E. cbn [app]. rewrite (skip_ws_head c _ W).
    change (c :: r ++ ?s) with ((c :: r) ++ s). rewrite <- E.
    rewrite (Rx lvl fuel room _) by (lia || exact Fx || apply follows_more).
    cbn [and_then fst snd more_items app].
    rewrite skip_ws_head by reflexivity.
    change (44 =? 125) with false. change (44 =? 44) with true. cbv iota.
    inversion Pl as [| ? ? Py Pl']; subst. inversion Rl as [| ? ? Ry Rl']; subst.
    cbn [snd] in Py, Ry.
    unfold member_text at 1. cbn [fst snd]. unfold encode_basestring.
    repeat first [rewrite <- app_assoc | progress cbn [app]].
    rewrite skip_ws_newline_indent, skip_ws_head by reflexivity.
    change (34 =? 34) with true. cbv iota.
    rewrite (IH Pl' Rl' k' y fuel room (dict_set k x acc) lvl outer rest Py Ry).
    + reflexivity.
    + cbn [forallb snd]. exact Fi.
    + unfold member_sizes. cbn [map list_sum fold_right snd]. lia.
Qed.

(** A printed value that fits the limits is read back, whatever follows
    it inside a container. *)
Lemma scan_value_printed (L : limits) (v : json) : plain v -> reads_back L v.
Proof.
  induction v as [| b | z | l | s | l IH | d IH] using json_induction;
    intros Pv level fuel room rest F Fi Fr;
    (destruct fuel as [| fuel]; [pose proof (json_size_pos JNull); cbn in F; lia|]).
  - reflexivity.
  - destruct b; reflexivity.
  - cbn [fits] in Fi. apply negb_true_iff in Fi.
    apply scan_value_int; [apply follows_value_stop; exact Fr | exact Fi].
  - inversion Pv.
  - apply scan_value_string.
  - inversion Pv as [| | | | l' Pl |]; subst.
    pose proof (Forall_modus _ _ _ IH Pl) as Rl.
    cbn [fits] in Fi. destruct room as [|room]; [discriminate Fi|].
    destruct l as [| x l]; [reflexivity|].
    inversion Pl as [| ? ? Px Pl']; subst. inversion Rl as [| ? ? Rx Rl']; subst.
    cbn [dumps_at join_items].
    repeat first [rewrite <- app_assoc | progress cbn [app]].
    cbn [scan_value].
    change (91 =? 34) with false. change (91 =? 123) with false.
    change (91 =? 91) with true. cbv iota.
    rewrite (skip_to_value (S level) (S level) x _ Px).
    destruct (dumps_at_head (S level) x Px) as (c & r & E & _ & C & _).
    rewrite E. cbn [app]. rewrite C.
    change (c :: r ++ ?s) with ((c :: r) ++ s). rewrite <- E.
    rewrite (scan_elements_printed L l Pl' Rl' x fuel room [] (S level) level
               rest Px Rx Fi).
    + reflexivity.
    + cbn [json_size] in F. unfold sizes. lia.
  - inversion Pv as [| | | | | d' Nd Pd]; subst.
    pose proof (Forall_modus _ _ _ IH Pd) as Rd.
    cbn [fits] in Fi. destruct room as [|room]; [discriminate Fi|].
    destruct d as [| [k x] d]; [reflexivity|].
    inversion Pd as [| ? ? Px Pd']; subst. inversion Rd as [| ? ? Rx Rd']; subst.
    cbn [snd] in Px, Rx.
    cbn [dumps_at join_items fst snd].
    change (more_items _ (44 :: newline_indent (S level)) d)
      with (more_items (member_text (S level)) (44 :: newline_indent (S level)) d).
    unfold encode_basestring.
    repeat first [rewrite <- app_assoc | progress cbn [app]].
    cbn [scan_value].
    change (123 =? 34) with false. change (123 =? 123) with true. cbv iota.
    rewrite skip_ws_newline_indent, skip_ws_head by reflexivity.
    change (34 =? 125) with false. change (34 =? 34) with true. cbv iota.
    rewrite (scan_members_printed L d Pd' Rd' k x fuel room [] (S level) level
               rest Px Rx Fi).
    + cbn [and_then fst snd].
      rewrite (dict_update_fresh ((k, x) :: d) []) by exact Nd. reflexivity.
    + cbn [json_size] in F. unfold member_sizes. lia.
Qed.

(** [json.loads(json.dumps(v, ensure_ascii=False, indent=2)) == v] for a
    value that fits the limits of the interpreter. *)
Lemma json_loads_dumps (L : limits) (v : json) :
  plain v -> fits L (max_nesting L) v = true ->
  json_loads L (dumps v) = Loaded v.
Proof.
  intros Pv Fi. unfold json_loads, dumps.
  pose proof (json_size_length v Pv 0) as Len.
  pose proof (scan_value_printed L v Pv 0%nat
                (S (2 * List.length (dumps_at 0 v))) (max_nesting L) [] ) as R.
  rewrite app_nil_r in R.
  destruct (dumps_at_head 0 v Pv) as (c & r & E & W & _ & B).
  rewrite E in *. cbn [startswith]. rewrite N.eqb_sym, B. cbn [andb].
  rewrite (skip_ws_head c r W).
  rewrite R by (lia || exact Fi || (left; reflexivity)). reflexivity.
Qed.

Lemma void_not_nullable (r : regex) : void r = true -> nullable r = false.
Proof.
  induction r as [| | f | r1 IH1 r2 IH2 | r1 IH1 r2 IH2 | r1 IH1];
    cbn [void nullable]; try discriminate; try reflexivity.
  - intros H. apply orb_true_iff in H as [H | H].
    + rewrite (IH1 H). reflexivity.
    + rewrite (IH2 H). apply andb_false_r.
  - intros H. apply andb_true_iff in H as [H1 H2].
    rewrite (IH1 H1), (IH2 H2). reflexivity.
Qed.

Lemma void_deriv (c : N) (r : regex) : void r = true -> void (deriv c r) = true.
Proof.
  induction r as [| | f | r1 IH1 r2 IH2 | r1 IH1 r2 IH2 | r1 IH1];
    cbn [void deriv]; try discriminate; try reflexivity.
  - intros H. apply orb_true_iff in H as [H | H].
    + rewrite (void_not_nullable r1 H). cbn [void]. rewrite (IH1 H). reflexivity.
    + destruct (nullable r1); cbn [void]; rewrite ?(IH2 H), H;
        rewrite ?orb_true_r; reflexivity.
  - intros H. apply andb_true_iff in H as [H1 H2].
    rewrite (IH1 H1), (IH2 H2). reflexivity.
Qed.

Lemma void_no_match (s : str) (r : regex) : void r = true -> fullmatch r s = false.
Proof.
  revert r. induction s as [| c s IH]; intros r H; cbn [fullmatch].
  - apply void_not_nullable. exact H.
  - apply IH. apply void_deriv. exact H.
Qed.

Lemma deriv_outside (c : N) (r : regex) :
  alphabet r c = false -> void (deriv c r) = true.
Proof.
  induction r as [| | f | r1 IH1 r2 IH2 | r1 IH1 r2 IH2 | r1 IH1];
    cbn [alphabet deriv]; intros H; try reflexivity.
  - rewrite H. reflexivity.
  - apply orb_false_iff in H as [H1 H2].
    destruct (nullable r1); cbn [void]; rewrite (IH1 H1), ?(IH2 H2); reflexivity.
  - apply orb_false_iff in H as [H1 H2].
    cbn [void]. rewrite (IH1 H1), (IH2 H2). reflexivity.
  - cbn [void]. rewrite (IH1 H). reflexivity.
Qed.

Lemma alphabet_deriv (c d : N) (r : regex) :
  alphabet (deriv c r) d = true -> alphabet r d = true.
Proof.
  induction r as [| | f | r1 IH1 r2 IH2 | r1 IH1 r2 IH2 | r1 IH1];
    cbn [alphabet deriv]; try discriminate.
  - destruct (f c); discriminate.
  - destruct (nullable r1); cbn [alphabet]; intros H;
      repeat (apply orb_true_iff in H as [H | H]);
      apply orb_true_iff; auto.
  - intros H. apply orb_true_iff in H as [H | H]; apply orb_true_iff; auto.
  - intros H. apply orb_true_iff in H as [H | H]; auto.
Qed.

(** A matched text is written in the characters of the pattern. *)
Lemma fullmatch_alphabet (s : str) (r : regex) :
  fullmatch r s = true -> forallb (alphabet r) s = true.
Proof.
  revert r. induction s as [| c s IH]; intros r H; [reflexivity|].
  cbn [fullmatch] in H. cbn [forallb]. apply andb_true_iff. split.
  - destruct (alphabet r c) eqn:E; [reflexivity|].
    rewrite (void_no_match s _ (deriv_outside c r E)) in H. discriminate.
  - specialize (IH _ H). rewrite forallb_forall in IH |- *.
    intros d Hd. apply (alphabet_deriv c). apply IH. exact Hd.
Qed.

Lemma no_brace_app (a b : str) :
  no_brace (a ++ b) = no_brace a && no_brace b.
Proof. apply forallb_app. Qed.

Lemma email_no_brace (a : str) : validate_email a = true -> no_brace a = true.
Proof.
  intros H. unfold no_brace. apply forallb_forall. intros c Hc.
  destruct (c =? 123) eqn:E; [|reflexivity]. apply N.eqb_eq in E. subst c.
  destruct a as [| x a]; [discriminate|]. cbn [validate_email] in H.
  apply fullmatch_alphabet in H. rewrite forallb_forall in H.
  destruct (strip_keeps _ _ Hc) as [S | S]; [discriminate S|].
  specialize (H _ S). discriminate H.
Qed.

Lemma digits_no_brace (s : str) :
  Forall (fun c => is_digit c = true) s -> no_brace s = true.
Proof.
  intros H. unfold no_brace. apply forallb_forall. intros c Hc.
  rewrite Forall_forall in H. specialize (H c Hc).
  unfold is_digit in H. apply andb_true_iff in H as [_ H].
  apply N.leb_le in H. apply negb_true_iff, N.eqb_neq. lia.
Qed.

Lemma zero_pad_no_brace (w : nat) (n : N) : no_brace (zero_pad w n) = true.
Proof.
  unfold zero_pad. rewrite no_brace_app. apply andb_true_iff. split.
  - unfold no_brace. apply forallb_forall. intros c Hc.
    apply repeat_spec in Hc. subst c. reflexivity.
  - apply digits_no_brace. apply uint_chars_digits.
Qed.

Lemma isoformat_no_brace (t : datetime) : no_brace (isoformat t) = true.
Proof.
  unfold isoformat. rewrite !no_brace_app, !zero_pad_no_brace.
  destruct (microsecond t =? 0); [reflexivity|].
  change (no_brace (46 :: ?s)) with (no_brace s).
  rewrite zero_pad_no_brace. reflexivity.
Qed.

Lemma find_char_behind (h r : str) :
  no_brace h = true -> find_char 123 (h ++ 123 :: r) = Some (List.length h).
Proof.
  induction h as [| c h IH]; intros H; [reflexivity|].
  cbn [no_brace forallb] in H. apply andb_true_iff in H as [C H].
  apply negb_true_iff in C. cbn [app find_char List.length]. rewrite C.
  fold (no_brace h) in H. rewrite (IH H). reflexivity.
Qed.

(** A body that has no brace before the printed message is parsed to the
    message. *)
Lemma printed_body_loaded (L : limits) (header : str) (message : dict) :
  no_brace header = true -> message <> [] -> plain (JDict message) ->
  fits L (max_nesting L) (JDict message) = true ->
  exists i,
    find_char 123 (header ++ dumps (JDict message)) = Some i
    /\ json_loads L (skipn i (header ++ dumps (JDict message)))
       = Loaded (JDict message).
Proof.
  intros H Ne Pm Fi.
  assert (E : exists r, dumps (JDict message) = 123 :: r).
  { destruct message; [congruence|]. eexists. reflexivity. }
  destruct E as [r E]. exists (List.length header).
  rewrite E, (find_char_behind header r H). split; [reflexivity|].
  rewrite skipn_app, skipn_all, Nat.sub_diag. cbn [app skipn].
  rewrite <- E. apply json_loads_dumps; assumption.
Qed.

Lemma parse_printed_body (L : limits) (header : str) (message : dict) :
  no_brace header = true -> message <> [] -> plain (JDict message) ->
  fits L (max_nesting L) (JDict message) = true ->
  _validate_message_format message = true ->
  parse_message_body L (header ++ dumps (JDict message)) = Some message.
Proof.
  intros H Ne Pm Fi V. unfold parse_message_body.
  destruct (printed_body_loaded L header message H Ne Pm Fi) as (i & -> & ->).
  rewrite V. reflexivity.
Qed.

Lemma dict_get_set_other (k k' : str) (v : json) (d : dict) :
  k <> k' -> dict_get k (dict_set k' v d) = dict_get k d.
Proof.
  intros N. apply str_eqb_neq in N.
  induction d as [| [k0 v0] d IH]; cbn [dict_set dict_get].
  - rewrite N. reflexivity.
  - destruct (PyStr.eqb k' k0) eqn:E; cbn [dict_get].
    + apply str_eqb_eq in E. subst k0. rewrite N. reflexivity.
    + rewrite IH. reflexivity.
Qed.

Lemma dict_get_del_other (k k' : str) (d : dict) :
  k <> k' -> dict_get k (dict_del k' d) = dict_get k d.
Proof.
  intros N. apply str_eqb_neq in N.
  induction d as [| [k0 v0] d IH]; cbn [dict_del dict_get]; [reflexivity|].
  destruct (PyStr.eqb k' k0) eqn:E; cbn [dict_get].
  - apply str_eqb_eq in E. subst k0. rewrite N. reflexivity.
  - rewrite IH. reflexivity.
Qed.

Lemma NoDup_by_nodup (l : list str) :
  nodup (list_eq_dec N.eq_dec) l = l -> NoDup l.
Proof. intros <-. apply NoDup_nodup. Qed.

(** Shows a dictionary with literal keys and scalar or nested values
    [plain]. *)
Ltac plain_literal :=
  repeat first
    [ apply plain_str | apply plain_int | apply plain_bool | apply plain_null
    | apply Forall_nil
    | apply Forall_cons
    | apply plain_dict; [apply NoDup_by_nodup; vm_compute; reflexivity|] ].

Lemma header_no_brace (I : interp) (sender recipient ty timestamp : str) :
  no_brace sender = true -> no_brace recipient = true ->
  no_brace ty = true -> no_brace timestamp = true ->
  no_brace (readable_header I (JStr sender) (JStr recipient) (JStr ty)
              (JStr timestamp)) = true.
Proof.
  intros S R T M. unfold readable_header, format_value.
  rewrite !no_brace_app, S, R, T, M. reflexivity.
Qed.

Lemma format_message_body_built (I : interp) (m b : dict)
      (sender recipient ty timestamp : json) :
  body_message m = Return b ->
  dict_get (u "sender") m = Some sender ->
  dict_get (u "recipient") m = Some recipient ->
  dict_get (u "type") m = Some ty ->
  dict_get (u "timestamp") m = Some timestamp ->
  format_message_body I m
  = Return (readable_header I sender recipient ty timestamp ++ dumps (JDict b)).
Proof.
  intros B S R T M. unfold format_message_body, subscript.
  rewrite B. cbn [bind].
  rewrite S. cbn [bind]. rewrite R. cbn [bind]. rewrite T. cbn [bind].
  rewrite M. reflexivity.
Qed.

(** An envelope of [_create_base_message] whose body copy is [b] comes back
    as [b]. *)
Lemma base_message_round_trip (L : limits) (I : interp) (E : env)
      (sender recipient ty : str) (content b_content : dict) (m : dict) :
  validate_email sender = true -> validate_email recipient = true ->
  no_brace ty = true ->
  _create_base_message E sender recipient ty content = Return m ->
  body_message m = Return (dict_set (u "content") (JDict b_content) m) ->
  plain (JDict b_content) ->
  forallb (fun kv => fits L (spare_nesting L) (snd kv)) b_content = true ->
  existsb (fun t => is_str t (JStr ty)) MESSAGE_TYPES = true ->
  format_message_body I m
  = Return (readable_header I (JStr sender) (JStr recipient) (JStr ty)
              (JStr (isoformat (now_stamp E)))
            ++ dumps (JDict (dict_set (u "content") (JDict b_content) m)))
  /\ parse_message_body L
       (readable_header I (JStr sender) (JStr recipient) (JStr ty)
          (JStr (isoformat (now_stamp E)))
        ++ dumps (JDict (dict_set (u "content") (JDict b_content) m)))
     = Some (dict_set (u "content") (JDict b_content) m).
Proof.
  intros S R T C B P Fi K. unfold _create_base_message in C.
  rewrite S, R in C. cbn [negb] in C.
  destruct (known_type ty); [|discriminate C]. cbn [negb] in C.
  injection C as <-. split.
  - apply (format_message_body_built I _ _ _ _ _ _ B); reflexivity.
  - apply parse_printed_body.
    + apply header_no_brace;
        [apply email_no_brace; exact S | apply email_no_brace; exact R
        | exact T | apply isoformat_no_brace].
    + discriminate.
    + apply plain_dict.
      * apply NoDup_by_nodup. vm_compute. reflexivity.
      * change (dict_set (u "content") (JDict b_content) _)
          with [(u "version", JStr MESSAGE_VERSION);
                (u "message_id", JStr (generate_message_id E));
                (u "type", JStr ty);
                (u "sender", JStr sender);
                (u "recipient", JStr recipient);
                (u "timestamp", JStr (isoformat (now_stamp E)));
                (u "content", JDict b_content);
                (u "client_info", JDict app_info)].
        repeat first [apply Forall_cons | apply Forall_nil];
          cbn [snd]; first [exact P | plain_literal].
    + change (dict_set (u "content") (JDict b_content) _)
          with [(u "version", JStr MESSAGE_VERSION);
                (u "message_id", JStr (generate_message_id E));
                (u "type", JStr ty);
                (u "sender", JStr sender);
                (u "recipient", JStr recipient);
                (u "timestamp", JStr (isoformat (now_stamp E)));
                (u "content", JDict b_content);
                (u "client_info", JDict app_info)].
      unfold max_nesting. cbn [Nat.add fits forallb snd andb app_info].
      rewrite Fi. reflexivity.
    + change (dict_set (u "content") (JDict b_content) _)
          with [(u "version", JStr MESSAGE_VERSION);
                (u "message_id", JStr (generate_message_id E));
                (u "type", JStr ty);
                (u "sender", JStr sender);
                (u "recipient", JStr recipient);
                (u "timestamp", JStr (isoformat (now_stamp E)));
                (u "content", JDict b_content);
                (u "client_info", JDict app_info)].
      unfold _validate_message_format.
      change (forallb _ [u "version"; u "type"; u "content"]) with true.
      cbn [negb].
      change (dict_get (u "type") _) with (Some (JStr ty)).
      change (dict_get (u "content") _) with (Some (JDict b_content)).
      cbv iota. rewrite K. reflexivity.
Qed.

Lemma base_message_built (E : env) (sender recipient ty : str) (content : dict) :
  validate_email sender = true -> validate_email recipient = true ->
  known_type ty = true ->
  _create_base_message E sender recipient ty content
  = Return
      [(u "version", JStr MESSAGE_VERSION);
       (u "message_id", JStr (generate_message_id E));
       (u "type", JStr ty);
       (u "sender", JStr sender);
       (u "recipient", JStr recipient);
       (u "timestamp", JStr (isoformat (now_stamp E)));
       (u "content", JDict content);
       (u "client_info", JDict app_info)].
Proof.
  intros S R K. unfold _create_base_message. rewrite S, R, K. reflexivity.
Qed.

(** ** Bodies that are not envelopes *)

(** A brace that no key and no closing brace follows opens no JSON
    object. *)
Lemma json_loads_no_object (L : limits) (r : str) :
  match skip_ws r with
  | c :: _ => (c =? 125) || (c =? 34) = false
  | [] => True
  end ->
  json_loads L (123 :: r) = JSONDecodeError.
Proof.
  intros H. unfold json_loads. cbn [startswith skip_ws lstrip_by].
  change (65279 =? 123) with false. change (is_ws 123) with false.
  cbv iota. cbn [andb scan_value].
  change (123 =? 34) with false. change (123 =? 123) with true. cbv iota.
  unfold max_nesting. cbn [Nat.add].
  destruct (skip_ws r) as [|c r']; [reflexivity|].
  apply orb_false_iff in H as [H1 H2]. rewrite H1, H2. reflexivity.
Qed.

(** What [parse_message_body] answers, by what [json.loads] makes of the
    text from the first brace on. *)
Lemma parse_message_body_cases (L : limits) (body : str) :
  (find_char 123 body = None
   /\ parse_message_body L body = Some (_create_fallback_message body))
  \/ exists i,
       find_char 123 body = Some i
       /\ ((json_loads L (skipn i body) = JSONDecodeError
            /\ parse_message_body L body = Some (_create_fallback_message body))
           \/ (exists m, json_loads L (skipn i body) = Loaded (JDict m)
                         /\ _validate_message_format m = false
                         /\ validation_print_raises L m = false
                         /\ parse_message_body L body
                            = Some (_create_fallback_message body))
           \/ (exists m, json_loads L (skipn i body) = Loaded (JDict m)
                         /\ _validate_message_format m = true
                         /\ parse_message_body L body = Some m)
           \/ ((json_loads L (skipn i body) = RecursionError
                \/ json_loads L (skipn i body) = DigitsError
                \/ exists m, json_loads L (skipn i body) = Loaded (JDict m)
                             /\ _validate_message_format m = false
                             /\ validation_print_raises L m = true)
               /\ parse_message_body L body = None)).
Proof.
  unfold parse_message_body.
  destruct (find_char 123 body) as [i|] eqn:F; [|left; split; reflexivity].
  right. exists i. split; [reflexivity|].
  destruct (find_char_skipn _ _ _ F) as [r E]. rewrite E.
  pose proof (json_loads_total L (123 :: r)) as T.
  pose proof (json_loads_brace_dict L r) as D.
  destruct (json_loads L (123 :: r)) as [v| | | |].
  - destruct (D v eq_refl) as [m ->].
    destruct (_validate_message_format m) eqn:V.
    + right. right. left. exists m. repeat split. exact V.
    + destruct (validation_print_raises L m) eqn:Pr.
      * right. right. right. split; [|reflexivity].
        right. right. exists m. repeat split; assumption.
      * right. left. exists m. repeat split; assumption.
  - left. split; reflexivity.
  - right. right. right. split; [left|]; reflexivity.
  - right. right. right. split; [right; left|]; reflexivity.
  - congruence.
Qed.

(** C2, amended: [parse_message_body] returns (and does not raise) the
    fallback envelope, of type "text", with the stripped body as
    content.text and the marker [fallback] set, for every body without a
    brace, for every body whose text from the first brace on makes
    [json.loads] raise [JSONDecodeError] (as it does when neither a key
    nor a closing brace follows the brace), and for every body whose text
    from the first brace on is a JSON document that fails
    [_validate_message_format] with lines that can be printed (as does
    every printed object that fits the limits of the interpreter, fails
    the validation and has no type, or a type that can be shown).  It
    returns no envelope, but [None], exactly when something else is
    raised: [RecursionError] for a document nested deeper than the
    interpreter allows, the [ValueError] of an integer with more digits
    than the interpreter allows, or the [UnicodeEncodeError] of the line
    about a type that is not supported and cannot be shown.  Every other
    body is parsed to a message that passes [_validate_message_format].
    The body "hello, not json at all" yields the fallback envelope with
    its own text. *)
Theorem parse_message_body_fallback (L : limits) (body : str) :
  (dict_get (u "type") (_create_fallback_message body) = Some (JStr (u "text"))
   /\ dict_get (u "content") (_create_fallback_message body)
      = Some (JDict [(u "text", JStr (strip body))])
   /\ dict_get (u "fallback") (_create_fallback_message body)
      = Some (JBool true))
  /\ (find_char 123 body = None
      \/ (exists i, find_char 123 body = Some i
                    /\ json_loads L (skipn i body) = JSONDecodeError)
      \/ (exists i m, find_char 123 body = Some i
                      /\ json_loads L (skipn i body) = Loaded (JDict m)
                      /\ _validate_message_format m = false
                      /\ validation_print_raises L m = false) ->
      parse_message_body L body = Some (_create_fallback_message body))
  /\ (parse_message_body L body = None <->
      exists i, find_char 123 body = Some i
                /\ (json_loads L (skipn i body) = RecursionError
                    \/ json_loads L (skipn i body) = DigitsError
                    \/ exists m,
                         json_loads L (skipn i body) = Loaded (JDict m)
                         /\ _validate_message_format m = false
                         /\ validation_print_raises L m = true))
  /\ (forall m, parse_message_body L body = Some m ->
                m = _create_fallback_message body
                \/ _validate_message_format m = true)
  /\ (forall header r,
        body = header ++ 123 :: r -> no_brace header = true ->
        match skip_ws r with
        | c :: _ => (c =? 125) || (c =? 34) = false
        | [] => True
        end ->
        parse_message_body L body = Some (_create_fallback_message body))
  /\ (forall header d,
        body = header ++ dumps (JDict d) -> no_brace header = true ->
        d <> [] -> plain (JDict d) ->
        fits L (max_nesting L) (JDict d) = true ->
        _validate_message_format d = false ->
        match dict_get (u "type") d with
        | Some ty => stdout_shows L ty = true
        | None => True
        end ->
        parse_message_body L body = Some (_create_fallback_message body))
  /\ (exists m, parse_message_body L (u "hello, not json at all") = Some m
                /\ dict_get (u "type") m = Some (JStr (u "text"))
                /\ dict_get (u "content") m
                   = Some (JDict [(u "text", JStr (u "hello, not json at all"))])
                /\ dict_get (u "fallback") m = Some (JBool true)).
Proof.
  split; [repeat split; reflexivity|].
  split.
  { intros H. unfold parse_message_body.
    destruct H as [H | [(i & H & E) | (i & m & H & E & V & Pr)]]; rewrite H.
    - reflexivity.
    - rewrite E. reflexivity.
    - rewrite E, V, Pr. reflexivity. }
  split.
  { split.
    - intros N.
      destruct (parse_message_body_cases L body)
        as [[_ P] | (i & F & [[_ P] | [(m & _ & _ & _ & P)
                                       | [(m & _ & _ & P) | [E _]]]])];
        try congruence.
      exists i. split; [exact F | exact E].
    - intros (i & F & E). unfold parse_message_body. rewrite F.
      destruct E as [-> | [-> | (m & -> & V & Pr)]];
        [reflexivity | reflexivity |].
      rewrite V, Pr. reflexivity. }
  split.
  { intros m Pm.
    destruct (parse_message_body_cases L body)
      as [[_ P] | (i & F & [[_ P] | [(m' & _ & _ & _ & P)
                                     | [(m' & _ & V & P) | [_ P]]]])];
      rewrite P in Pm; try discriminate Pm; injection Pm as <-; auto. }
  split.
  { intros header r -> Nb H. unfold parse_message_body.
    rewrite (find_char_behind header r Nb).
    rewrite skipn_app, skipn_all, Nat.sub_diag. cbn [app skipn].
    rewrite (json_loads_no_object L r H). reflexivity. }
  split.
  { intros header d -> Nb Ne Pd Fi V Sh. unfold parse_message_body.
    destruct (printed_body_loaded L header d Nb Ne Pd Fi) as (i & -> & ->).
    rewrite V.
    assert (Pr : validation_print_raises L d = false).
    { unfold validation_print_raises.
      destruct (dict_get (u "type") d) as [ty|];
        [rewrite Sh; cbn [negb]; rewrite andb_false_r|];
        apply andb_false_r. }
    rewrite Pr. reflexivity. }
  eexists. split; [reflexivity|]. repeat split; vm_compute; reflexivity.
Qed.

(** C2, as the claim states it, fails: [json.loads] fails on an integer
    of 4301 digits and on 3000 nested arrays with an exception that is not
    [JSONDecodeError], and a JSON document with a lone surrogate for its
    type fails the validation with a line that cannot be printed; in each
    case [parse_message_body] returns [None], not the fallback
    envelope. *)
Lemma other_exceptions_give_none :
  json_loads L0 (dq "{'n': " ++ repeat 49 4301 ++ u "}") = DigitsError
  /\ parse_message_body L0 (dq "{'n': " ++ repeat 49 4301 ++ u "}") = None
  /\ json_loads L0 (dq "{'a': " ++ repeat 91 3000) = RecursionError
  /\ parse_message_body L0 (dq "{'a': " ++ repeat 91 3000) = None
  /\ json_loads L0
       (dq "{'version': '1', 'type': '\ud800', 'content': {}}")
     = Loaded (JDict [(u "version", JStr (u "1"));
                      (u "type", JStr [0xD800]);
                      (u "content", JDict [])])
  /\ parse_message_body L0
       (dq "{'version': '1', 'type': '\ud800', 'content': {}}")
     = None.
Proof. repeat split; vm_compute; reflexivity. Qed.

Lemma parse_message_body_fallback_witness :
  (exists m, parse_message_body L0 (u " plain words ") = Some m
             /\ dict_get (u "content") m
                = Some (JDict [(u "text", JStr (u "plain words"))]))
  /\ (exists m, parse_message_body L0 (u "see {this") = Some m
                /\ dict_get (u "content") m
                   = Some (JDict [(u "text", JStr (u "see {this"))]))
  /\ (exists m,
        parse_message_body L0 (dq "{'type': 'text', 'content': {}}") = Some m
        /\ dict_get (u "fallback") m = Some (JBool true))
  /\ (exists m,
        parse_message_body L0
          (u "Data: " ++ dumps (JDict [(u "type", JStr (u "text"))])) = Some m
        /\ dict_get (u "fallback") m = Some (JBool true)).
Proof.
  split; [|split; [|split]].
  - destruct (parse_message_body_fallback L0 (u " plain words "))
      as ((_ & C & _) & A & _).
    eexists. split; [apply A; left; vm_compute; reflexivity | exact C].
  - destruct (parse_message_body_fallback L0 (u "see {this"))
      as ((_ & C & _) & _ & _ & _ & A & _).
    eexists. split; [|exact C].
    apply (A (u "see ") (u "this")); [reflexivity | reflexivity |].
    vm_compute. reflexivity.
  - destruct (parse_message_body_fallback L0
                (dq "{'type': 'text', 'content': {}}"))
      as ((_ & _ & Fb) & A & _).
    eexists. split; [|exact Fb].
    apply A. right. right. exists 0%nat. eexists.
    split; [|split; [|split]]; vm_compute; reflexivity.
  - destruct (parse_message_body_fallback L0
                (u "Data: " ++ dumps (JDict [(u "type", JStr (u "text"))])))
      as ((_ & _ & Fb) & _ & _ & _ & _ & A & _).
    eexists. split; [|exact Fb].
    apply (A (u "Data: ") [(u "type", JStr (u "text"))]);
      try reflexivity; [discriminate | plain_literal].
Defined.

(** ** A message and its body, there and back *)

Lemma encode_utf8_ascii (s : str) : isascii s = true -> encode_utf8 s = Some s.
Proof.
  induction s as [| c s IH]; [reflexivity|]. unfold isascii. cbn [forallb].
  intros H. apply andb_true_iff in H as [C A]. cbn [encode_utf8].
  unfold encode_utf8_char. rewrite C, (IH A). reflexivity.
Qed.

(** The data of a built file message are attached as one part. *)
Lemma attach_built_file (P : Utils.pathlib) (I : interp) (E : env)
      (sender recipient content file_name : str) (file_size : Z)
      (b : N) (data : bytes) :
  Forall octet (b :: data) ->
  _attach_file_to_email P I
    [(u "version", JStr MESSAGE_VERSION);
     (u "message_id", JStr (generate_message_id E));
     (u "type", JStr (u "file"));
     (u "sender", JStr sender);
     (u "recipient", JStr recipient);
     (u "timestamp", JStr (isoformat (now_stamp E)));
     (u "content",
      JDict [(u "text", JStr content); (u "file_name", JStr file_name);
             (u "file_size", JInt file_size);
             (u "file_data", JStr (Base64.b64encode (b :: data)));
             (u "encoding", JStr (u "base64"))]);
     (u "client_info", JDict app_info)]
  = [{| part_is_attachment := true;
        part_filename := Some (Utils.sanitize_filename P file_name);
        part_payload := Some (b :: data) |}].
Proof.
  intros O.
  set (b64 := Base64.b64encode (b :: data)).
  assert (Nb : b64 <> []).
  { subst b64. destruct data as [| y [| z r]]; discriminate. }
  unfold _attach_file_to_email, get_default.
  match goal with |- context [dict_get (u "content") ?m] =>
    change (dict_get (u "content") m)
      with (Some (JDict [(u "text", JStr content);
                         (u "file_name", JStr file_name);
                         (u "file_size", JInt file_size);
                         (u "file_data", JStr b64);
                         (u "encoding", JStr (u "base64"))]))
  end.
  cbv iota.
  match goal with |- context [dict_get (u "file_name") ?c] =>
    change (dict_get (u "file_name") c) with (Some (JStr file_name));
    change (dict_get (u "file_data") c) with (Some (JStr b64))
  end.
  cbv iota. cbn [truthy]. destruct b64 as [| q b64'] eqn:Q; [congruence|].
  cbn [negb]. rewrite <- Q.
  rewrite (encode_utf8_ascii b64) by (apply isascii_b64encode; exact O).
  unfold a2b_base64. subst b64.
  rewrite (a2b_loop_b64encode (b :: data) O []). reflexivity.
Qed.

Lemma built_subject (I : interp) (E : env) (now : datetime)
      (sender recipient ty : str) (content m : dict) :
  _create_base_message E sender recipient ty content = Return m ->
  exists rest,
    format_email_subject I now m = Return (SUBJECT_PREFIX ++ rest).
Proof.
  unfold _create_base_message. intros H.
  destruct (validate_email sender); [|discriminate H].
  destruct (validate_email recipient); [|discriminate H].
  destruct (known_type ty); [|discriminate H].
  cbn [negb] in H. injection H as <-.
  unfold format_email_subject, get_default.
  change (dict_get (u "type") _) with (Some (JStr ty)).
  change (dict_get (u "message_id") _)
    with (Some (JStr (generate_message_id E))).
  cbv iota. cbn [bind]. eexists. reflexivity.
Qed.

(** The mail of a built message: the text part is the body in UTF-8 and
    the parts are those of the last statement; a body with a surrogate
    cannot be encoded, and no mail is built. *)
Lemma create_email_message_built (P : Utils.pathlib) (I : interp) (E : env)
      (now : datetime) (username : option json)
      (sender recipient ty : str) (content m : dict) (body : str)
      (parts : list part) :
  _create_base_message E sender recipient ty content = Return m ->
  format_message_body I m = Return body ->
  attached_parts P I m = Return parts ->
  match encode_utf8 body with
  | Some text =>
    exists mail,
      create_email_message P I now username m = Return mail
      /\ header_to mail = JStr recipient
      /\ text_part mail = text
      /\ file_parts mail = parts
  | None =>
    create_email_message P I now username m
    = Raise (Exception (u "创建邮件消息失败: ") UnicodeEncodeError)
  end.
Proof.
  intros C F A.
  destruct (built_subject I E now sender recipient ty content m C)
    as [rest Sj].
  unfold create_email_message. rewrite Sj, F, A.
  unfold _create_base_message in C.
  destruct (validate_email sender); [|discriminate C].
  destruct (validate_email recipient); [|discriminate C].
  destruct (known_type ty); [|discriminate C].
  cbn [negb] in C. injection C as <-.
  unfold subscript.
  change (dict_get (u "sender") _) with (Some (JStr sender)).
  change (dict_get (u "recipient") _) with (Some (JStr recipient)).
  change (dict_get (u "type") _) with (Some (JStr ty)).
  change (dict_get (u "message_id") _)
    with (Some (JStr (generate_message_id E))).
  cbn [bind].
  destruct (encode_utf8 body) as [text|]; cbn [bind rewrap];
    [|reflexivity].
  eexists. split; [reflexivity|]. repeat split.
Qed.

(** C1, amended: a text message built by [create_text_message] for valid
    addresses is formatted to a body that [parse_message_body] reads back
    as the very same message, all fields equal, and the mail of
    [create_email_message] has no part behind the text.  A file message
    built by [create_file_message], with a size that the digit limit of
    the interpreter admits, is read back with every field other than
    [content] equal.  When inline data were given, the [content] that is
    read back is the built one without [file_data] and with the marker
    [has_attachment = True] added, and the mail carries the data
    themselves as one part under the sanitized file name; without inline
    data the message that is read back is the built one and the mail has
    no part behind the text.  The mail is built whenever the body can be
    encoded in UTF-8, and [create_email_message] raises when it cannot (a
    lone surrogate in a text or a name). *)
Theorem format_parse_round_trip (L : limits) (P : Utils.pathlib) (I : interp)
    (E : env) (now : datetime) (username : option json)
    (sender recipient content file_name : str) (file_size : Z)
    (file_data : option bytes) :
  validate_email sender = true -> validate_email recipient = true ->
  (exists m body,
     create_text_message E sender recipient content = Return m
     /\ format_message_body I m = Return body
     /\ parse_message_body L body = Some m
     /\ match encode_utf8 body with
        | Some text =>
          exists mail,
            create_email_message P I now username m = Return mail
            /\ header_to mail = JStr recipient
            /\ text_part mail = text
            /\ file_parts mail = []
        | None =>
          create_email_message P I now username m
          = Raise (Exception (u "创建邮件消息失败: ") UnicodeEncodeError)
        end)
  /\ (too_many_digits L (int_digits file_size) = false ->
      match file_data with Some data => Forall octet data | None => True end ->
      exists m body parsed c,
        create_file_message E sender recipient content file_name file_size
          file_data = Return m
        /\ format_message_body I m = Return body
        /\ parse_message_body L body = Some parsed
        /\ (forall k, k <> u "content" -> dict_get k parsed = dict_get k m)
        /\ dict_get (u "content") m = Some (JDict c)
        /\ match file_data with
           | Some (b :: data) =>
             dict_get (u "file_data") c
             = Some (JStr (Base64.b64encode (b :: data)))
             /\ dict_get (u "content") parsed
                = Some (JDict (dict_del (u "file_data")
                                 (dict_set (u "has_attachment") (JBool true)
                                    c)))
             /\ (forall k, k <> u "file_data" -> k <> u "has_attachment" ->
                   dict_get k (dict_del (u "file_data")
                                 (dict_set (u "has_attachment") (JBool true) c))
                   = dict_get k c)
             /\ dict_get (u "file_data")
                  (dict_del (u "file_data")
                     (dict_set (u "has_attachment") (JBool true) c)) = None
             /\ dict_get (u "has_attachment")
                  (dict_del (u "file_data")
                     (dict_set (u "has_attachment") (JBool true) c))
                = Some (JBool true)
             /\ dict_get (u "has_attachment") c = None
             /\ match encode_utf8 body with
                | Some text =>
                  exists mail,
                    create_email_message P I now username m = Return mail
                    /\ header_to mail = JStr recipient
                    /\ text_part mail = text
                    /\ file_parts mail
                       = [{| part_is_attachment := true;
                             part_filename :=
                               Some (Utils.sanitize_filename P file_name);
                             part_payload := Some (b :: data) |}]
                | None =>
                  create_email_message P I now username m
                  = Raise (Exception (u "创建邮件消息失败: ")
                             UnicodeEncodeError)
                end
           | _ =>
             parsed = m
             /\ dict_get (u "file_data") c = None
             /\ match encode_utf8 body with
                | Some text =>
                  exists mail,
                    create_email_message P I now username m = Return mail
                    /\ header_to mail = JStr recipient
                    /\ text_part mail = text
                    /\ file_parts mail = []
                | None =>
                  create_email_message P I now username m
                  = Raise (Exception (u "创建邮件消息失败: ")
                             UnicodeEncodeError)
                end
           end).
Proof.
  intros S R. split.
  - pose proof (base_message_built E sender recipient (u "text")
                  [(u "text", JStr content)] S R eq_refl) as C.
    destruct (base_message_round_trip L I E sender recipient (u "text")
                [(u "text", JStr content)] [(u "text", JStr content)] _
                S R eq_refl C eq_refl) as [F Pa];
      [plain_literal | reflexivity | reflexivity |].
    eexists _, _. split; [exact C|]. split; [exact F|].
    split; [exact Pa|].
    exact (create_email_message_built P I E now username _ _ _ _ _ _ []
             C F eq_refl).
  - intros T O.
    assert (Ti : negb (too_many_digits L (int_digits file_size)) = true)
      by (rewrite T; reflexivity).
    assert (Plain : exists m body,
              create_file_message E sender recipient content file_name
                file_size None = Return m
              /\ format_message_body I m = Return body
              /\ parse_message_body L body = Some m
              /\ dict_get (u "content") m
                 = Some (JDict [(u "text", JStr content);
                                (u "file_name", JStr file_name);
                                (u "file_size", JInt file_size)])
              /\ match encode_utf8 body with
                 | Some text =>
                   exists mail,
                     create_email_message P I now username m = Return mail
                     /\ header_to mail = JStr recipient
                     /\ text_part mail = text
                     /\ file_parts mail = []
                 | None =>
                   create_email_message P I now username m
                   = Raise (Exception (u "创建邮件消息失败: ")
                              UnicodeEncodeError)
                 end).
    { unfold create_file_message.
      pose proof (base_message_built E sender recipient (u "file")
                  [(u "text", JStr content); (u "file_name", JStr file_name);
                   (u "file_size", JInt file_size)] S R eq_refl) as C.
      destruct (base_message_round_trip L I E sender recipient (u "file")
                  [(u "text", JStr content); (u "file_name", JStr file_name);
                   (u "file_size", JInt file_size)]
                  [(u "text", JStr content); (u "file_name", JStr file_name);
                   (u "file_size", JInt file_size)] _
                  S R eq_refl C eq_refl) as [F Pa];
        [plain_literal | cbn [forallb snd fits]; rewrite Ti; reflexivity
        | reflexivity |].
      eexists _, _. split; [exact C|]. split; [exact F|]. split; [exact Pa|].
      split; [reflexivity|].
      exact (create_email_message_built P I E now username _ _ _ _ _ _ []
               C F eq_refl). }
    destruct file_data as [[| b data] |].
    + destruct Plain as (m & body & C & F & Pa & Cm & Ml).
      eexists m, body, m, _. split; [exact C|]. split; [exact F|].
      split; [exact Pa|]. split; [intros k _; reflexivity|].
      split; [exact Cm|]. split; [reflexivity|]. split; [reflexivity | exact Ml].
    + clear Plain. unfold create_file_message.
      change (dict_set (u "encoding") _ (dict_set (u "file_data") _ _))
        with [(u "text", JStr content); (u "file_name", JStr file_name);
              (u "file_size", JInt file_size);
              (u "file_data", JStr (Base64.b64encode (b :: data)));
              (u "encoding", JStr (u "base64"))].
      pose proof (base_message_built E sender recipient (u "file")
                  [(u "text", JStr content); (u "file_name", JStr file_name);
                   (u "file_size", JInt file_size);
                   (u "file_data", JStr (Base64.b64encode (b :: data)));
                   (u "encoding", JStr (u "base64"))] S R eq_refl) as C.
      destruct (base_message_round_trip L I E sender recipient (u "file")
                  [(u "text", JStr content); (u "file_name", JStr file_name);
                   (u "file_size", JInt file_size);
                   (u "file_data", JStr (Base64.b64encode (b :: data)));
                   (u "encoding", JStr (u "base64"))]
                  (dict_del (u "file_data")
                     (dict_set (u "has_attachment") (JBool true)
                        [(u "text", JStr content);
                         (u "file_name", JStr file_name);
                         (u "file_size", JInt file_size);
                         (u "file_data", JStr (Base64.b64encode (b :: data)));
                         (u "encoding", JStr (u "base64"))])) _
                  S R eq_refl C eq_refl) as [F Pa].
      { change (dict_del _ _)
          with [(u "text", JStr content); (u "file_name", JStr file_name);
                (u "file_size", JInt file_size);
                (u "encoding", JStr (u "base64"));
                (u "has_attachment", JBool true)].
        plain_literal. }
      { change (dict_del _ _)
          with [(u "text", JStr content); (u "file_name", JStr file_name);
                (u "file_size", JInt file_size);
                (u "encoding", JStr (u "base64"));
                (u "has_attachment", JBool true)].
        cbn [forallb snd fits]. rewrite Ti. reflexivity. }
      { reflexivity. }
      eexists _, _, _, _. split; [exact C|]. split; [exact F|].
      split; [exact Pa|].
      split; [intros k N; apply dict_get_set_other; exact N|].
      split; [reflexivity|].
      split; [reflexivity|]. split; [reflexivity|].
      split.
      { intros k N1 N2. rewrite dict_get_del_other by exact N1.
        apply dict_get_set_other. exact N2. }
      split; [reflexivity|]. split; [reflexivity|]. split; [reflexivity|].
      apply (create_email_message_built P I E now username _ _ _ _ _ _ _ C F).
      unfold attached_parts, subscript.
      match goal with |- context [dict_get (u "type") ?m] =>
        change (dict_get (u "type") m) with (Some (JStr (u "file")));
        change (dict_get (u "content") m)
          with (Some (JDict
                        [(u "text", JStr content);
                         (u "file_name", JStr file_name);
                         (u "file_size", JInt file_size);
                         (u "file_data", JStr (Base64.b64encode (b :: data)));
                         (u "encoding", JStr (u "base64"))]))
      end.
      cbn [bind]. change (is_str (u "file") (JStr (u "file"))) with true.
      cbv iota. cbn [bind].
      match goal with |- context [dict_mem (u "file_data") ?c] =>
        change (dict_mem (u "file_data") c) with true
      end.
      cbv iota. rewrite (attach_built_file P I E _ _ _ _ _ b data O).
      reflexivity.
    + destruct Plain as (m & body & C & F & Pa & Cm & Ml).
      eexists m, body, m, _. split; [exact C|]. split; [exact F|].
      split; [exact Pa|]. split; [intros k _; reflexivity|].
      split; [exact Cm|]. split; [reflexivity|]. split; [reflexivity | exact Ml].
Qed.

(** C1, as the claim states it, fails for a file message with inline
    data: the content that is read back differs from the built content in
    more than [file_data], for it carries [has_attachment], which the
    built content does not have. *)
Lemma file_content_gains_has_attachment :
  match create_file_message E0 alice bob (u "see the file") (u "a.txt") 5
          (Some [104; 101; 108; 108; 111]) with
  | Return m =>
    match format_message_body I0 m with
    | Return body =>
      match parse_message_body L0 body, dict_get (u "content") m with
      | Some parsed, Some (JDict c) =>
        dict_get (u "content") parsed
        = Some (JDict [(u "text", JStr (u "see the file"));
                       (u "file_name", JStr (u "a.txt"));
                       (u "file_size", JInt 5);
                       (u "encoding", JStr (u "base64"));
                       (u "has_attachment", JBool true)])
        /\ dict_del (u "file_data") c
           = [(u "text", JStr (u "see the file"));
              (u "file_name", JStr (u "a.txt"));
              (u "file_size", JInt 5);
              (u "encoding", JStr (u "base64"))]
        /\ dict_get (u "content") parsed
           <> Some (JDict (dict_del (u "file_data") c))
      | _, _ => False
      end
    | Raise _ => False
    end
  | Raise _ => False
  end.
Proof. vm_compute. split; [reflexivity|]. split; [reflexivity | discriminate]. Qed.

Lemma format_parse_round_trip_witness :
  validate_email alice = true /\ validate_email bob = true
  /\ too_many_digits L0 (int_digits 5) = false
  /\ Forall octet [104; 101; 108; 108; 111]
  /\ (exists m body,
        create_text_message E0 alice bob (u "hello") = Return m
        /\ format_message_body I0 m = Return body
        /\ parse_message_body L0 body = Some m)
  /\ (exists m body parsed c,
        create_file_message E0 alice bob (u "hello") (u "a.txt") 5
          (Some [104; 101; 108; 108; 111]) = Return m
        /\ format_message_body I0 m = Return body
        /\ parse_message_body L0 body = Some parsed
        /\ dict_get (u "content") m = Some (JDict c)
        /\ dict_get (u "content") parsed
           = Some (JDict (dict_del (u "file_data")
                            (dict_set (u "has_attachment") (JBool true) c)))
        /\ match encode_utf8 body with
           | Some text =>
             exists mail,
               create_email_message P0 I0 t0 None m = Return mail
               /\ header_to mail = JStr bob
               /\ text_part mail = text
               /\ file_parts mail
                  = [{| part_is_attachment := true;
                        part_filename :=
                          Some (Utils.sanitize_filename P0 (u "a.txt"));
                        part_payload := Some [104; 101; 108; 108; 111] |}]
           | None =>
             create_email_message P0 I0 t0 None m
             = Raise (Exception (u "创建邮件消息失败: ") UnicodeEncodeError)
           end).
Proof.
  assert (O : Forall octet [104; 101; 108; 108; 111])
    by (repeat constructor).
  split; [reflexivity|]. split; [reflexivity|]. split; [reflexivity|].
  split; [exact O|].
  destruct (format_parse_round_trip L0 P0 I0 E0 t0 None alice bob (u "hello")
              (u "a.txt") 5 (Some [104; 101; 108; 108; 111])
              eq_refl eq_refl)
    as [(m & body & C & F & Pa & _) File].
  destruct (File eq_refl O)
    as (m' & body' & parsed & c & C' & F' & Pa' & _ & Cm & _ & Cp & _ & _ & _
        & _ & Ml).
  split; [exists m, body; repeat split; assumption|].
  exists m', body', parsed, c. repeat split; assumption.
Defined.

(** The mail of the example is built: its body holds no surrogate. *)
Example file_mail_is_built :
  match create_file_message E0 alice bob (u "hello") (u "a.txt") 5
          (Some [104; 101; 108; 108; 111]) with
  | Return m =>
    option_map file_parts
      match create_email_message P0 I0 t0 None m with
      | Return mail => Some mail
      | Raise _ => None
      end
    = Some [{| part_is_attachment := true;
               part_filename := Some (u "a.txt");
               part_payload := Some [104; 101; 108; 108; 111] |}]
  | Raise _ => False
  end.
Proof. vm_compute. reflexivity. Qed.

(** The round trip, run on [hello]. *)
Example hello_round_trip :
  parse_message_body L0 (email_body hello_mail) = Some hello.
Proof. vm_compute. reflexivity. Qed.

(** * Further properties of the code *)

(** ** What the builders promise the validators *)

Lemma str_eqb_sym (a b : str) : PyStr.eqb a b = PyStr.eqb b a.
Proof.
  destruct (PyStr.eqb a b) eqn:E.
  - apply str_eqb_eq in E. subst b. symmetry. apply str_eqb_refl.
  - apply str_eqb_neq in E. symmetry. apply str_eqb_neq. congruence.
Qed.

Lemma known_type_is_str (ty : str) :
  existsb (fun t => is_str t (JStr ty)) MESSAGE_TYPES = known_type ty.
Proof.
  unfold known_type. induction MESSAGE_TYPES as [| t l IH]; [reflexivity|].
  cbn [existsb]. rewrite IH. cbn [is_str]. rewrite str_eqb_sym. reflexivity.
Qed.

Lemma base_message_inv (E : env) (sender recipient ty : str) (content m : dict) :
  _create_base_message E sender recipient ty content = Return m ->
  validate_email sender = true /\ validate_email recipient = true
  /\ known_type ty = true
  /\ m = [(u "version", JStr MESSAGE_VERSION);
          (u "message_id", JStr (generate_message_id E));
          (u "type", JStr ty);
          (u "sender", JStr sender);
          (u "recipient", JStr recipient);
          (u "timestamp", JStr (isoformat (now_stamp E)));
          (u "content", JDict content);
          (u "client_info", JDict app_info)].
Proof.
  unfold _create_base_message. intros H.
  destruct (validate_email sender); [|discriminate H].
  destruct (validate_email recipient); [|discriminate H].
  destruct (known_type ty); [|discriminate H].
  cbn [negb] in H. injection H as <-. repeat split; reflexivity.
Qed.

Lemma base_message_format (E : env) (sender recipient ty : str) (content m : dict) :
  _create_base_message E sender recipient ty content = Return m ->
  _validate_message_format m = true.
Proof.
  intros H. apply base_message_inv in H as (_ & _ & K & ->).
  unfold _validate_message_format.
  change (forallb _ [u "version"; u "type"; u "content"]) with true.
  cbn [negb].
  change (dict_get (u "type") _) with (Some (JStr ty)).
  change (dict_get (u "content") _) with (Some (JDict content)).
  cbv iota. rewrite known_type_is_str, K. reflexivity.
Qed.

(** X1: Whatever kind and content [_create_base_message] accepts, the envelope
    it builds has the three required fields, a supported kind and a [dict]
    as content: [_validate_message_format] accepts it. *)
Theorem built_message_has_valid_format
    (E : env) (sender recipient message_type : str) (content m : dict) :
  _create_base_message E sender recipient message_type content = Return m ->
  _validate_message_format m = true.
Proof.
  intros H. apply base_message_inv in H as (_ & _ & K & ->).
  unfold _validate_message_format.
  change (forallb _ [u "version"; u "type"; u "content"]) with true.
  cbn [negb].
  change (dict_get (u "type") _) with (Some (JStr message_type)).
  change (dict_get (u "content") _) with (Some (JDict content)).
  cbv iota. rewrite known_type_is_str, K. reflexivity.
Qed.

Lemma built_message_has_valid_format_witness :
  _create_base_message E0 alice bob (u "system") [] = Return
    [(u "version", JStr MESSAGE_VERSION);
     (u "message_id", JStr (generate_message_id E0));
     (u "type", JStr (u "system"));
     (u "sender", JStr alice);
     (u "recipient", JStr bob);
     (u "timestamp", JStr (isoformat (now_stamp E0)));
     (u "content", JDict []);
     (u "client_info", JDict app_info)]
  /\ _validate_message_format
       [(u "version", JStr MESSAGE_VERSION);
        (u "message_id", JStr (generate_message_id E0));
        (u "type", JStr (u "system"));
        (u "sender", JStr alice);
        (u "recipient", JStr bob);
        (u "timestamp", JStr (isoformat (now_stamp E0)));
        (u "content", JDict []);
        (u "client_info", JDict app_info)] = true.
Proof.
  split; [reflexivity|].
  apply (built_message_has_valid_format E0 alice bob (u "system") []).
  reflexivity.
Defined.

Lemma base_message_checks (I : interp) (E : env) (sender recipient ty : str)
      (content m : dict) :
  _create_base_message E sender recipient ty content = Return m ->
  validate_message_content I m = validate_typed_content I (JStr ty) content.
Proof.
  intros H. pose proof (base_message_format _ _ _ _ _ _ H) as F.
  unfold validate_message_content. rewrite F. cbn [negb].
  apply base_message_inv in H as (S & R & _ & ->).
  unfold bad_address.
  change (dict_get (u "sender") _) with (Some (JStr sender)).
  change (dict_get (u "recipient") _) with (Some (JStr recipient)).
  cbn [validate_email_value]. rewrite S, R.
  reflexivity.
Qed.

(** X2: Every envelope that [create_status_message] builds passes
    [validate_message_content], whatever the status data. *)
Theorem built_status_message_validates
    (I : interp) (E : env) (sender recipient status_type : str)
    (status_data : option dict) (m : dict) :
  create_status_message E sender recipient status_type status_data = Return m ->
  validate_message_content I m = (true, u "消息验证通过").
Proof.
  unfold create_status_message. intros H.
  rewrite (base_message_checks I _ _ _ _ _ _ H). reflexivity.
Qed.

Lemma built_status_message_validates_witness :
  exists m,
    create_status_message E0 alice bob (u "typing")
      (Some [(u "text", JInt 7)]) = Return m
    /\ validate_message_content I0 m = (true, u "消息验证通过").
Proof.
  eexists. split; [reflexivity|].
  apply (built_status_message_validates I0 E0 alice bob (u "typing")
           (Some [(u "text", JInt 7)])).
  reflexivity.
Defined.

(** X3: An envelope that [create_file_message] builds is refused by
    [validate_message_content] for a negative size and for a file name
    that is empty or blank, and passes otherwise, with or without inline
    data. *)
Theorem built_file_message_validation
    (I : interp) (E : env) (sender recipient content file_name : str)
    (file_size : Z) (file_data : option bytes) (m : dict) :
  create_file_message E sender recipient content file_name file_size file_data
  = Return m ->
  validate_message_content I m
  = if (file_size <? 0)%Z then (false, u "文件大小无效")
    else match strip file_name with
         | [] => (false, u "文件名无效")
         | _ => (true, u "消息验证通过")
         end.
Proof.
  unfold create_file_message. intros H.
  rewrite (base_message_checks I _ _ _ _ _ _ H). clear H.
  unfold validate_typed_content.
  change (is_str (u "text") (JStr (u "file"))) with false.
  change (is_str (u "file") (JStr (u "file"))) with true. cbv iota.
  assert (G : forall d : dict,
             d = [(u "text", JStr content); (u "file_name", JStr file_name);
                  (u "file_size", JInt file_size)]
             \/ (exists data,
                   d = [(u "text", JStr content); (u "file_name", JStr file_name);
                        (u "file_size", JInt file_size);
                        (u "file_data", JStr data);
                        (u "encoding", JStr (u "base64"))]) ->
             validate_file_content I d
             = if (file_size <? 0)%Z then (false, u "文件大小无效")
               else match strip file_name with
                    | [] => (false, u "文件名无效")
                    | _ => (true, u "消息验证通过")
                    end).
  { intros d Hd. unfold validate_file_content, dict_mem.
    assert (N : dict_get (u "file_name") d = Some (JStr file_name))
      by (destruct Hd as [-> | [data ->]]; reflexivity).
    assert (Z : dict_get (u "file_size") d = Some (JInt file_size))
      by (destruct Hd as [-> | [data ->]]; reflexivity).
    rewrite N, Z. cbn [negb]. rewrite Z.leb_antisym.
    destruct (file_size <? 0)%Z; cbn [negb]; [reflexivity|].
    cbn [truthy]. destruct file_name as [| c fn]; [reflexivity|].
    cbn [negb]. reflexivity. }
  apply G. destruct file_data as [[| b data] |];
    [left | right; eexists | left]; reflexivity.
Qed.

Lemma built_file_message_validation_witness :
  exists m,
    create_file_message E0 alice bob (u "see") (u "  ") 5 None = Return m
    /\ validate_message_content I0 m = (false, u "文件名无效").
Proof.
  eexists. split; [reflexivity|].
  apply (built_file_message_validation I0 E0 alice bob (u "see") (u "  ") 5 None).
  reflexivity.
Defined.

(** ** The inbox that is found *)

Lemma first_priority_In (priorities : list priority) (folders : list str) (f : str) :
  first_priority priorities folders = Some f -> In f folders.
Proof.
  induction priorities as [| [name | test] rest IH]; cbn [first_priority];
    [discriminate | |].
  - destruct (existsb (PyStr.eqb name) folders) eqn:X; [|exact IH].
    intros H. injection H as <-. apply existsb_eqb_In. exact X.
  - destruct (find test folders) as [g|] eqn:F; [|exact IH].
    intros H. injection H as <-. apply find_some in F. apply F.
Qed.

Lemma first_priority_found (I : interp) (f : str) (folders : list str) :
  first_priority (priority_folders I) (f :: folders) <> None.
Proof.
  unfold priority_folders. cbn [first_priority].
  destruct (existsb _ _); [discriminate|].
  do 3 (match goal with
        | |- context [find ?t (f :: folders)] =>
          destruct (find t (f :: folders)); [discriminate|]
        end).
  cbn [find]. discriminate.
Qed.

(** X4: Whatever [_find_inbox_folder] selects is one of the folders of the
    listing, the configured folder included: a configured name that the
    server does not list is never selected. *)
Theorem find_inbox_folder_listed
    (I : interp) (connected : bool) (available_folders : list str)
    (inbox_folder folder : str) :
  _find_inbox_folder I connected available_folders inbox_folder = Some folder ->
  In folder available_folders.
Proof.
  unfold _find_inbox_folder. destruct connected; [|discriminate].
  cbn [negb]. destruct available_folders as [| f folders]; [discriminate|].
  destruct (strip inbox_folder) as [| c custom] eqn:S.
  - apply first_priority_In.
  - destruct (existsb (PyStr.eqb (c :: custom)) (f :: folders)) eqn:X.
    + intros H. injection H as <-. apply existsb_eqb_In. exact X.
    + apply first_priority_In.
Qed.

Lemma find_inbox_folder_listed_witness :
  _find_inbox_folder I0 true [u "Sent"; u "Archive"] (u "Mail") = Some (u "Sent")
  /\ In (u "Sent") [u "Sent"; u "Archive"].
Proof.
  split; [vm_compute; reflexivity|].
  apply (find_inbox_folder_listed I0 true [u "Sent"; u "Archive"] (u "Mail")).
  vm_compute. reflexivity.
Defined.

(** X5: [_find_inbox_folder] answers [None] in two cases only: there is no
    connection, or the listing is empty.  With a connection and at least
    one listed folder some folder is selected. *)
Theorem find_inbox_folder_none
    (I : interp) (connected : bool) (available_folders : list str)
    (inbox_folder : str) :
  _find_inbox_folder I connected available_folders inbox_folder = None
  <-> connected = false \/ available_folders = [].
Proof.
  unfold _find_inbox_folder. split.
  - destruct connected; [|auto]. cbn [negb].
    destruct available_folders as [| f folders]; [auto|].
    pose proof (first_priority_found I f folders) as F.
    destruct (strip inbox_folder) as [| c custom]; [contradiction|].
    destruct (existsb _ _); [discriminate | contradiction].
  - intros [-> | ->]; [reflexivity|]. destruct connected; reflexivity.
Qed.

Lemma find_inbox_folder_none_witness :
  _find_inbox_folder I0 true [] (u "INBOX") = None
  /\ _find_inbox_folder I0 false [u "INBOX"] [] = None.
Proof.
  split.
  - apply (find_inbox_folder_none I0 true [] (u "INBOX")). right. reflexivity.
  - apply (find_inbox_folder_none I0 false [u "INBOX"] []). left. reflexivity.
Defined.

(** ** Folder names on the wire *)

Lemma encode_imap_utf7_scalar (s : str) :
  Forall scalar s -> isascii (_encode_imap_utf7 s) = true.
Proof.
  intros F. unfold _encode_imap_utf7.
  destruct (isascii s) eqn:A; [exact A|].
  destruct (utf16_roundtrip s F) as (b & -> & O & _).
  destruct (b64encode_shape b O) as (data & pad & -> & FD & P & _).
  unfold replace_char. rewrite map_app. rewrite rstrip_by_app.
  - unfold isascii. rewrite !forallb_app.
    apply andb_true_iff. split; [reflexivity|].
    apply andb_true_iff. split; [|reflexivity].
    apply forallb_forall. intros c Hc. apply in_map_iff in Hc as (d & <- & Hd).
    rewrite Forall_forall in FD. apply FD in Hd.
    destruct (sextet_char_facts d Hd) as (_ & L & _).
    destruct (d =? 47); [reflexivity | exact L].
  - apply Forall_forall. intros c Hc. apply in_map_iff in Hc as (d & <- & Hd).
    rewrite Forall_forall in FD. apply FD in Hd.
    destruct (sextet_char_facts d Hd) as (Q & _ & C).
    destruct (d =? 47) eqn:E47; [reflexivity|].
    rewrite N.eqb_sym. exact Q.
  - destruct P as [-> | [-> | ->]]; repeat constructor.
Qed.

(** X6: For a name of valid code points without surrogates
    [_encode_imap_utf7] returns ASCII text; a name that holds a surrogate
    makes [encode('utf-16be')] raise and is returned as it is, not
    ASCII. *)
Theorem encode_imap_utf7_ascii (s : str) :
  valid_str s = true ->
  (existsb is_surrogate s = false -> isascii (_encode_imap_utf7 s) = true)
  /\ (existsb is_surrogate s = true ->
      _encode_imap_utf7 s = s /\ isascii s = false).
Proof.
  intros V. split; intros X.
  - apply encode_imap_utf7_scalar. apply Forall_forall. intros c Hc.
    unfold valid_str in V. rewrite forallb_forall in V.
    split; [apply N.ltb_lt, V, Hc|].
    destruct (is_surrogate c) eqn:S; [|reflexivity].
    assert (existsb is_surrogate s = true)
      by (apply existsb_exists; exists c; auto).
    congruence.
  - apply existsb_exists in X as (c & Hc & S).
    assert (A : isascii s = false).
    { destruct (isascii s) eqn:A; [|reflexivity].
      unfold isascii in A. rewrite forallb_forall in A. specialize (A c Hc).
      unfold is_surrogate in S. apply andb_true_iff in S as [S _].
      apply N.leb_le in S. apply N.ltb_lt in A. lia. }
    split; [|exact A]. unfold _encode_imap_utf7. rewrite A.
    rewrite (encode_be_surrogate s); [reflexivity|].
    apply Exists_exists. exists c. auto.
Qed.

Lemma encode_imap_utf7_ascii_witness :
  isascii (_encode_imap_utf7 (u "收件箱")) = true
  /\ _encode_imap_utf7 [0xD800] = [0xD800].
Proof.
  destruct (encode_imap_utf7_ascii (u "收件箱")) as [A _];
    [vm_compute; reflexivity|].
  destruct (encode_imap_utf7_ascii [0xD800]) as [_ B];
    [vm_compute; reflexivity|].
  split.
  - apply A. vm_compute. reflexivity.
  - apply B. vm_compute. reflexivity.
Defined.

(** ** Deliveries of the send pipeline *)

Lemma connecting_pass_deliveries (env : pass_env) (w : world) :
  connects env = true ->
  exists w', (let (unusable, w1) := smtp_unusable env w in
              if unusable then connect_smtp env w1 else (true, w1)) = (true, w')
             /\ stat_messages_sent w' = stat_messages_sent w
             /\ stat_errors w' = stat_errors w
             /\ filter is_delivery_event (trace w')
                = filter is_delivery_event (trace w)
             /\ filter is_error_notified (trace w')
                = filter is_error_notified (trace w).
Proof.
  unfold connects, smtp_unusable, connect_smtp, is_alive. intros C.
  assert (L : login_answer env = LoginOk /\ config_complete env = true).
  { destruct (probe_answer env), (login_answer env); try discriminate C; auto. }
  destruct L as [L1 L2]. rewrite L1, L2. cbn [negb].
  destruct (smtp_connection w) as [[h c]|]; cbn [handle is_connected].
  - destruct h, c; cbn [negb orb]; try destruct (probe_answer env);
      cbn [negb]; eexists; repeat split;
      cbn [trace log count_connection set_smtp];
      rewrite ?filter_app, ?app_nil_r; reflexivity.
  - eexists; repeat split; cbn [trace log count_connection set_smtp];
      rewrite ?filter_app, ?app_nil_r; reflexivity.
Qed.

Lemma send_failed_deliveries (k : nat) (w : world) :
  fst (send_failed k w) = S k
  /\ stat_messages_sent (snd (send_failed k w)) = stat_messages_sent w
  /\ stat_errors (snd (send_failed k w)) = stat_errors w
  /\ filter is_delivery_event (trace (snd (send_failed k w)))
     = filter is_delivery_event (trace w)
  /\ filter is_error_notified (trace (snd (send_failed k w)))
     = filter is_error_notified (trace w).
Proof.
  unfold send_failed. cbn [fst snd].
  destruct (smtp_connection (log _ w)); destruct (Nat.leb (S k) max_retries);
    cbn [log set_smtp trace stat_messages_sent stat_errors];
    rewrite ?filter_app; cbn [filter is_delivery_event is_error_notified];
    rewrite ?app_nil_r; repeat split; reflexivity.
Qed.

(** [failures] raising passes, then one that delivers. *)
Lemma retry_loop_delivers (message : dict) (envs : nat -> pass_env) :
  forall failures remaining k w,
    (failures < remaining)%nat ->
    (forall j, (k <= j < k + failures)%nat ->
               connects (envs j) = true /\ raises (envs j) = true) ->
    connects (envs (k + failures)%nat) = true ->
    transmit_answer (envs (k + failures)%nat) = Delivered ->
    exists w',
      retry_loop remaining k None message envs w = (Return true, w')
      /\ stat_messages_sent w'
         = (stat_messages_sent w
            + List.length (resent failures k message envs) + 1)%nat
      /\ stat_errors w' = stat_errors w
      /\ filter is_delivery_event (trace w')
         = filter is_delivery_event (trace w)
           ++ resent failures k message envs ++ [Sent message; Stored message]
      /\ filter is_error_notified (trace w')
         = filter is_error_notified (trace w).
Proof.
  induction failures as [| f IH]; intros remaining k w Lt H C D;
    (destruct remaining as [| r]; [lia|]).
  - rewrite Nat.add_0_r in C, D.
    destruct (connecting_pass_deliveries (envs k) w C) as (w1 & E1 & M1 & S1 & T1 & N1).
    cbn [retry_loop resent].
    destruct (smtp_unusable (envs k) w) as [unusable w0].
    rewrite E1. cbn [negb]. rewrite D.
    eexists. split; [reflexivity|].
    cbn [count_sent log trace stat_messages_sent stat_errors List.length app].
    rewrite !filter_app. cbn [filter is_delivery_event is_error_notified].
    rewrite M1, S1, T1, N1, ?app_nil_r, <- ?app_assoc.
    repeat split; try reflexivity. lia.
  - destruct (H k) as [Ck R]; [lia|].
    destruct (connecting_pass_deliveries (envs k) w Ck)
      as (w1 & E1 & M1 & S1 & T1 & N1).
    cbn [retry_loop resent].
    destruct (smtp_unusable (envs k) w) as [unusable w0].
    rewrite E1. cbn [negb].
    unfold raises in R.
    destruct (transmit_answer (envs k)) as [|cause|cause]; [discriminate R| |].
    + destruct (send_failed_deliveries k w1) as (F1 & M2 & S2 & T2 & N2).
      destruct (send_failed k w1) as [k' w2]. cbn [fst snd] in *. subst k'.
      destruct (IH r (S k) w2) as (w' & E & M & S & T & N).
      { lia. }
      { intros j Hj. apply H. lia. }
      { replace (S k + f)%nat with (k + S f)%nat by lia. exact C. }
      { replace (S k + f)%nat with (k + S f)%nat by lia. exact D. }
      exists w'. split; [exact E|].
      rewrite M, S, T, N, M2, S2, T2, N2, M1, S1, T1, N1. cbn [app].
      repeat split; reflexivity.
    + set (w1' := count_sent (log (Sent message) w1)).
      destruct (send_failed_deliveries k w1') as (F1 & M2 & S2 & T2 & N2).
      destruct (send_failed k w1') as [k' w2]. cbn [fst snd] in *. subst k'.
      destruct (IH r (S k) w2) as (w' & E & M & S & T & N).
      { lia. }
      { intros j Hj. apply H. lia. }
      { replace (S k + f)%nat with (k + S f)%nat by lia. exact C. }
      { replace (S k + f)%nat with (k + S f)%nat by lia. exact D. }
      exists w'. split; [exact E|].
      rewrite M, S, T, N, M2, S2, T2, N2. subst w1'.
      cbn [count_sent log trace stat_messages_sent stat_errors].
      rewrite !filter_app. cbn [filter is_delivery_event is_error_notified].
      rewrite M1, S1, T1, N1, ?app_nil_r, <- ?app_assoc.
      cbn [app List.length]. repeat split; try reflexivity. lia.
Qed.

(** Passes that all raise. *)
Lemma retry_loop_resends (message : dict) (envs : nat -> pass_env) :
  forall remaining k w,
    (forall j, (k <= j < k + remaining)%nat ->
               connects (envs j) = true /\ raises (envs j) = true) ->
    stat_messages_sent (snd (retry_loop remaining k None message envs w))
    = (stat_messages_sent w + List.length (resent remaining k message envs))%nat
    /\ filter is_delivery_event
         (trace (snd (retry_loop remaining k None message envs w)))
       = filter is_delivery_event (trace w) ++ resent remaining k message envs.
Proof.
  induction remaining as [| r IH]; intros k w H.
  - cbn [retry_loop resent after_retries snd count_error trace
           stat_messages_sent List.length].
    rewrite app_nil_r. split; [lia | reflexivity].
  - destruct (H k) as [Ck R]; [lia|].
    destruct (connecting_pass_deliveries (envs k) w Ck)
      as (w1 & E1 & M1 & S1 & T1 & N1).
    cbn [retry_loop resent].
    destruct (smtp_unusable (envs k) w) as [unusable w0].
    rewrite E1. cbn [negb].
    unfold raises in R.
    destruct (transmit_answer (envs k)) as [|cause|cause]; [discriminate R| |].
    + destruct (send_failed_deliveries k w1) as (F1 & M2 & S2 & T2 & N2).
      destruct (send_failed k w1) as [k' w2]. cbn [fst snd] in *. subst k'.
      destruct (IH (S k) w2) as [M T]; [intros j Hj; apply H; lia|].
      rewrite M, T, M2, T2, M1, T1. split; reflexivity.
    + set (w1' := count_sent (log (Sent message) w1)).
      destruct (send_failed_deliveries k w1') as (F1 & M2 & S2 & T2 & N2).
      destruct (send_failed k w1') as [k' w2]. cbn [fst snd] in *. subst k'.
      destruct (IH (S k) w2) as [M T]; [intros j Hj; apply H; lia|].
      rewrite M, T, M2, T2. subst w1'.
      cbn [count_sent log trace stat_messages_sent].
      rewrite !filter_app. cbn [filter is_delivery_event].
      rewrite M1, T1, <- ?app_assoc. cbn [app List.length]. split; [lia|reflexivity].
Qed.

(** X7: When in every pass an exception is raised behind [send_message], the
    mail has gone out before each of the three raises:
    [send_message_sync] sends the same message three times, counts three
    sent messages, stores none, and does not return [True]. *)
Theorem store_failure_sends_three_times
    (message : dict) (envs : nat -> pass_env) (w : world) :
  (forall k, (k <= max_retries)%nat ->
             connects (envs k) = true
             /\ exists cause, transmit_answer (envs k) = StoreRaises cause) ->
  fst (send_message_sync message envs w) <> Return true
  /\ stat_messages_sent (snd (send_message_sync message envs w))
     = (stat_messages_sent w + 3)%nat
  /\ filter is_delivery_event (trace (snd (send_message_sync message envs w)))
     = filter is_delivery_event (trace w)
       ++ [Sent message; Sent message; Sent message].
Proof.
  intros H.
  assert (R : forall j, (0 <= j < 0 + S max_retries)%nat ->
                        connects (envs j) = true /\ raises (envs j) = true).
  { intros j Hj. destruct (H j) as [C [cause T]]; [unfold max_retries in *; lia|].
    split; [exact C|]. unfold raises. rewrite T. reflexivity. }
  destruct (retry_loop_resends message envs (S max_retries) 0 w R) as [M T].
  destruct (retry_loop_all_raise message envs (S max_retries) 0 w R)
    as (w' & E & _).
  unfold send_message_sync. rewrite M, T. rewrite E. cbn [fst].
  unfold max_retries. cbn [resent].
  destruct (H 0%nat) as [_ [c0 ->]]; [unfold max_retries; lia|].
  destruct (H 1%nat) as [_ [c1 ->]]; [unfold max_retries; lia|].
  destruct (H 2%nat) as [_ [c2 ->]]; [unfold max_retries; lia|].
  cbn [app List.length]. split; [discriminate|]. split; reflexivity.
Qed.

Lemma store_failure_sends_three_times_witness :
  filter is_delivery_event
    (trace (snd (send_message_sync hello
                   (fun _ => {| probe_answer := ProbeOk; config_complete := true;
                                login_answer := LoginOk;
                                transmit_answer := StoreRaises TransportError |})
                   w0)))
  = [Sent hello; Sent hello; Sent hello].
Proof.
  apply (store_failure_sends_three_times hello
           (fun _ => {| probe_answer := ProbeOk; config_complete := true;
                        login_answer := LoginOk;
                        transmit_answer := StoreRaises TransportError |}) w0).
  intros k _. split; [reflexivity|]. eexists. reflexivity.
Defined.

(** X8: A retry that succeeds: when the passes before pass [k] (at most two)
    raise and pass [k] delivers, [send_message_sync] returns [True], the
    message is stored once, no error is counted or reported, and the sent
    counter grows by one more than the number of earlier passes that
    failed only after the mail had gone out. *)
Theorem retry_that_succeeds
    (message : dict) (envs : nat -> pass_env) (w : world) (k : nat) :
  (k <= max_retries)%nat ->
  (forall j, (j < k)%nat -> connects (envs j) = true /\ raises (envs j) = true) ->
  connects (envs k) = true ->
  transmit_answer (envs k) = Delivered ->
  exists w',
    send_message_sync message envs w = (Return true, w')
    /\ stat_messages_sent w'
       = (stat_messages_sent w + List.length (resent k 0 message envs) + 1)%nat
    /\ stat_errors w' = stat_errors w
    /\ filter is_delivery_event (trace w')
       = filter is_delivery_event (trace w)
         ++ resent k 0 message envs ++ [Sent message; Stored message]
    /\ filter is_error_notified (trace w') = filter is_error_notified (trace w).
Proof.
  intros K H C D. unfold send_message_sync.
  apply (retry_loop_delivers message envs k (S max_retries) 0 w).
  - lia.
  - intros j Hj. apply H. lia.
  - exact C.
  - exact D.
Qed.

Lemma retry_that_succeeds_witness :
  exists w',
    send_message_sync hello
      (fun j => {| probe_answer := ProbeOk; config_complete := true;
                   login_answer := LoginOk;
                   transmit_answer :=
                     match j with
                     | O => SendRaises TransportError
                     | _ => Delivered
                     end |}) w0 = (Return true, w')
    /\ stat_messages_sent w' = 1%nat /\ stat_errors w' = 0%nat.
Proof.
  destruct (retry_that_succeeds hello
              (fun j => {| probe_answer := ProbeOk; config_complete := true;
                           login_answer := LoginOk;
                           transmit_answer :=
                             match j with
                             | O => SendRaises TransportError
                             | _ => Delivered
                             end |}) w0 1)
    as (w' & E & M & S & _).
  - unfold max_retries. lia.
  - intros j Hj. assert (j = 0%nat) as -> by lia. split; reflexivity.
  - reflexivity.
  - reflexivity.
  - exists w'. split; [exact E|]. split; [exact M | exact S].
Defined.

(** X9: A turn of [_send_worker] takes the head of the queue and leaves the
    tasks behind it in their order: after the turn the queue is the old
    tail, followed at most by the task itself with its retry counter
    set.  The counter of a queued task is absent or an [int]. *)
Theorem worker_turn_keeps_queue_order
    (envs : nat -> pass_env) (w : world) (message : dict) (rest : list dict) :
  send_queue w = message :: rest ->
  (exists n, get_default message "_retry_count" (JInt 0) = JInt n) ->
  send_queue (worker_turn envs w) = rest
  \/ exists k, send_queue (worker_turn envs w)
               = rest ++ [dict_set (u "_retry_count") (JInt k) message].
Proof.
  intros Q [n G]. unfold worker_turn. rewrite Q.
  destruct (send_message_sync message envs (set_queue rest w)) as [r w1] eqn:S.
  pose proof (retry_loop_queue _ _ _ _ _ _ _ _ S) as Q1.
  cbn [set_queue send_queue] in Q1.
  destruct r as [[|] | cause].
  - left. exact Q1.
  - rewrite G. destruct (n <? 3)%Z; [|left; exact Q1].
    right. exists (n + 1)%Z. cbn [log set_queue send_queue]. rewrite Q1. reflexivity.
  - left. exact Q1.
Qed.

Lemma worker_turn_keeps_queue_order_witness :
  send_queue (worker_turn always_failing
                {| smtp_connection := None; send_queue := [hello; []];
                   stat_errors := 0; stat_messages_sent := 0;
                   stat_connections := 0; trace := [] |}) = [[]]
  \/ exists k,
       send_queue (worker_turn always_failing
                     {| smtp_connection := None; send_queue := [hello; []];
                        stat_errors := 0; stat_messages_sent := 0;
                        stat_connections := 0; trace := [] |})
       = [[]] ++ [dict_set (u "_retry_count") (JInt k) hello].
Proof.
  apply (worker_turn_keeps_queue_order always_failing _ hello [[]]).
  - reflexivity.
  - exists 0%Z. reflexivity.
Defined.

(** ** Fetching a mail *)

Lemma fetch_email_shape (L : limits) (cb : bool) (msg_id : bytes)
      (answer : fetch_answer) :
  (exists p, _fetch_email L cb msg_id answer
             = (Some p, Saved p :: (if cb then [Received msg_id p] else [])))
  \/ _fetch_email L cb msg_id answer = (None, []).
Proof.
  unfold _fetch_email.
  destruct answer as [| |m]; try (right; reflexivity).
  destruct (negb _); [right; reflexivity|].
  destruct (parse_message_body _ _); [|right; reflexivity].
  destruct (match email_attachments m with [] => _ | _ => _ end);
    [|right; reflexivity].
  destruct (decode_utf8 msg_id); [|right; reflexivity].
  left. eexists. reflexivity.
Qed.

(** X10: A message that [_fetch_email] returns comes from a mail with the
    E-Chat subject prefix, and its four [email_] fields are those of the
    mail (the From, To and Subject headers and the decoded sequence
    number), whatever the JSON of the body held under these names.  It was
    saved and, with a callback set, handed over once.  When nothing is
    returned, nothing was saved or handed over. *)
Theorem fetch_email_headers
    (L : limits) (cb : bool) (msg_id : bytes) (answer : fetch_answer)
    (result : option dict) (events : list Inbox.event) :
  _fetch_email L cb msg_id answer = (result, events) ->
  match result with
  | None => events = []
  | Some p =>
    exists m id_text,
      answer = Fetched m
      /\ is_echat_message (email_subject m) = true
      /\ decode_utf8 msg_id = Some id_text
      /\ dict_get (u "email_sender") p = Some (JStr (email_from m))
      /\ dict_get (u "email_recipient") p = Some (JStr (email_to m))
      /\ dict_get (u "email_subject") p = Some (JStr (email_subject m))
      /\ dict_get (u "email_msg_id") p = Some (JStr id_text)
      /\ events = Saved p :: (if cb then [Received msg_id p] else [])
  end.
Proof.
  unfold _fetch_email.
  destruct answer as [| |m]; try (intros H; injection H as <- <-; reflexivity).
  destruct (is_echat_message (email_subject m)) eqn:G; cbn [negb];
    [|intros H; injection H as <- <-; reflexivity].
  destruct (parse_message_body _ _) as [parsed|];
    [|intros H; injection H as <- <-; reflexivity].
  destruct (match email_attachments m with [] => _ | _ => _ end) as [merged|];
    [|intros H; injection H as <- <-; reflexivity].
  destruct (decode_utf8 msg_id) as [t|];
    [|intros H; injection H as <- <-; reflexivity].
  intros H. injection H as <- <-. exists m, t.
  split; [reflexivity|]. split; [exact G|]. split; [reflexivity|].
  split.
  { rewrite !dict_get_set_other by (intros X; vm_compute in X; discriminate X).
    apply dict_get_set_same. }
  split.
  { rewrite !dict_get_set_other by (intros X; vm_compute in X; discriminate X).
    apply dict_get_set_same. }
  split.
  { rewrite !dict_get_set_other by (intros X; vm_compute in X; discriminate X).
    apply dict_get_set_same. }
  split; [apply dict_get_set_same | reflexivity].
Qed.

Lemma fetch_email_headers_witness :
  exists p,
    _fetch_email L0 true (u "1") (Fetched hello_mail)
    = (Some p, [Saved p; Received (u "1") p])
    /\ dict_get (u "email_sender") p = Some (JStr alice).
Proof.
  pose proof (fetch_email_headers L0 true (u "1") (Fetched hello_mail)
                (fst (_fetch_email L0 true (u "1") (Fetched hello_mail)))
                (snd (_fetch_email L0 true (u "1") (Fetched hello_mail)))
                (surjective_pairing _)) as H.
  destruct (_fetch_email L0 true (u "1") (Fetched hello_mail)) as [[p|] ev] eqn:E;
    cbn [fst snd] in H.
  - destruct H as (m & t & A & _ & _ & S & _ & _ & _ & V).
    injection A as <-. exists p. rewrite V. split; [reflexivity | exact S].
  - vm_compute in E. discriminate E.
Defined.

(** ** From the sender's builder to the recipient's callback *)

(** X11: A text message built for valid addresses, sent with the subject of
    [format_email_subject] and the body of [format_message_body], is
    returned by the recipient's [_fetch_email] with every field as it was
    built, followed by the four [email_] fields of the mail; it is saved
    and handed to the callback once. *)
Theorem text_message_reaches_callback
    (L : limits) (I : interp) (E : env) (now : datetime)
    (sender recipient content mail_from mail_to : str)
    (msg_id : bytes) (id_text : str) :
  validate_email sender = true -> validate_email recipient = true ->
  decode_utf8 msg_id = Some id_text ->
  exists m subject body,
    create_text_message E sender recipient content = Return m
    /\ format_email_subject I now m = Return subject
    /\ format_message_body I m = Return body
    /\ _fetch_email L true msg_id
         (Fetched {| email_subject := subject; email_from := mail_from;
                     email_to := mail_to; email_body := body;
                     email_attachments := [] |})
       = (Some (m ++ [(u "email_sender", JStr mail_from);
                      (u "email_recipient", JStr mail_to);
                      (u "email_subject", JStr subject);
                      (u "email_msg_id", JStr id_text)]),
          [Saved (m ++ [(u "email_sender", JStr mail_from);
                        (u "email_recipient", JStr mail_to);
                        (u "email_subject", JStr subject);
                        (u "email_msg_id", JStr id_text)]);
           Received msg_id
             (m ++ [(u "email_sender", JStr mail_from);
                    (u "email_recipient", JStr mail_to);
                    (u "email_subject", JStr subject);
                    (u "email_msg_id", JStr id_text)])]).
Proof.
  intros S R D.
  pose proof (base_message_built E sender recipient (u "text")
                [(u "text", JStr content)] S R eq_refl) as C.
  destruct (base_message_round_trip L I E sender recipient (u "text")
              [(u "text", JStr content)] [(u "text", JStr content)] _
              S R eq_refl C eq_refl) as [F P];
    [plain_literal | reflexivity | reflexivity |].
  destruct (built_subject I E now sender recipient (u "text") _ _ C)
    as [rest Sj].
  eexists _, _, _. split; [exact C|]. split; [exact Sj|]. split; [exact F|].
  unfold _fetch_email. cbn [email_subject email_body email_attachments
                              email_from email_to].
  unfold is_echat_message. rewrite startswith_app. cbn [negb].
  rewrite P, D. reflexivity.
Qed.

Lemma text_message_reaches_callback_witness :
  exists m subject body,
    create_text_message E0 alice bob (u "hello") = Return m
    /\ format_email_subject I0 t0 m = Return subject
    /\ format_message_body I0 m = Return body
    /\ _fetch_email L0 true (u "7")
         (Fetched {| email_subject := subject; email_from := alice;
                     email_to := bob; email_body := body;
                     email_attachments := [] |})
       = (Some (m ++ [(u "email_sender", JStr alice);
                      (u "email_recipient", JStr bob);
                      (u "email_subject", JStr subject);
                      (u "email_msg_id", JStr (u "7"))]),
          [Saved (m ++ [(u "email_sender", JStr alice);
                        (u "email_recipient", JStr bob);
                        (u "email_subject", JStr subject);
                        (u "email_msg_id", JStr (u "7"))]);
           Received (u "7")
             (m ++ [(u "email_sender", JStr alice);
                    (u "email_recipient", JStr bob);
                    (u "email_subject", JStr subject);
                    (u "email_msg_id", JStr (u "7"))])]).
Proof.
  apply (text_message_reaches_callback L0 I0 E0 t0 alice bob (u "hello")
           alice bob (u "7") (u "7")); reflexivity.
Defined.

(** ** A pass of [check_new_messages] that runs alone *)





Lemma saved_messages_app (a b : list Inbox.event) :
  saved_messages (a ++ b) = saved_messages a ++ saved_messages b.
Proof.
  induction a as [| [m | i m] a IH]; cbn [saved_messages app];
    [reflexivity | rewrite IH; reflexivity | exact IH].
Qed.

Lemma received_messages_app (a b : list Inbox.event) :
  received_messages (a ++ b) = received_messages a ++ received_messages b.
Proof.
  induction a as [| [m | i m] a IH]; cbn [received_messages app];
    [reflexivity | exact IH | rewrite IH; reflexivity].
Qed.

Lemma fetch_turns_account (t : worker) (cb : bool) (observed0 : list Inbox.event) :
  forall turns s,
    callback_set s = cb ->
    (exists events,
        observed s = observed0 ++ events
        /\ saved_messages events = new_messages (pass_of t s)
        /\ received_messages events
           = if cb then new_messages (pass_of t s) else []) ->
    callback_set (fetch_turns turns t s) = cb
    /\ exists events,
        observed (fetch_turns turns t s) = observed0 ++ events
        /\ saved_messages events = new_messages (pass_of t (fetch_turns turns t s))
        /\ received_messages events
           = if cb then new_messages (pass_of t (fetch_turns turns t s)) else [].
Proof.
  induction turns as [| n IH]; intros s C Inv; [auto|].
  cbn [fetch_turns]. apply IH.
  - unfold fetch_next. destruct (pending (pass_of t s)); [exact C|].
    destruct (server_fetch _ _) as [answer box'].
    destruct (_fetch_email _ _ _ _) as [data events].
    destruct t; exact C.
  - destruct Inv as (events & O & Sv & Rc).
    unfold fetch_next. destruct (pending (pass_of t s)) as [| msg_id rest];
      [exists events; auto|].
    destruct (server_fetch msg_id (box s)) as [answer box'].
    rewrite C.
    destruct (fetch_email_shape (interpreter s) cb msg_id answer)
      as [[p ->] | ->];
      rewrite pass_of_set_pass, observed_set_pass; cbn [observed new_messages].
    + exists (events ++ Saved p :: (if cb then [Received msg_id p] else [])).
      rewrite O, <- app_assoc, saved_messages_app, received_messages_app, Sv, Rc.
      split; [reflexivity|].
      destruct cb; cbn [saved_messages received_messages];
        rewrite ?app_nil_r; split; reflexivity.
    + exists events. rewrite O, !app_nil_r. auto.
Qed.

(** X13: A pass of [check_new_messages] that ran alone returns exactly the
    messages it saved, in that order; with a callback set these are also
    exactly the messages handed to the callback, and without one nothing
    is handed over.  The received counter grows by their number. *)
Theorem lone_pass_accounts_for_messages
    (t : worker) (ready : bool) (s : state) :
  exists events,
    observed (snd (check_new_messages t ready s)) = observed s ++ events
    /\ saved_messages events = fst (check_new_messages t ready s)
    /\ received_messages events
       = (if callback_set s then fst (check_new_messages t ready s) else [])
    /\ stat_messages_received (snd (check_new_messages t ready s))
       = (stat_messages_received s
          + List.length (fst (check_new_messages t ready s)))%nat.
Proof.
  unfold check_new_messages, finish_check.
  cbn [fst snd observed stat_messages_received].
  set (s1 := begin_check t ready s).
  destruct (fetch_turns_account t (callback_set s) (observed s)
              (List.length (pending (pass_of t s1))) s1) as (C & events & O & Sv & Rc).
  - subst s1. unfold begin_check. destruct t; reflexivity.
  - exists []. subst s1. unfold begin_check.
    rewrite pass_of_set_pass, observed_set_pass, app_nil_r. cbn [new_messages].
    destruct (callback_set s); auto.
  - exists events. split; [exact O|]. split; [exact Sv|]. split; [exact Rc|].
    assert (St : forall n s2,
               stat_messages_received (fetch_turns n t s2)
               = stat_messages_received s2).
    { induction n as [| n IHn]; intros s2; [reflexivity|].
      cbn [fetch_turns]. rewrite IHn. unfold fetch_next.
      destruct (pending (pass_of t s2)); [reflexivity|].
      destruct (server_fetch _ _) as [answer box'].
      destruct (_fetch_email _ _ _ _) as [data evs].
      destruct t; reflexivity. }
    rewrite St. subst s1. unfold begin_check. destruct t; reflexivity.
Qed.

Example subject_ex :
  Utils.parse_email_subject
    (Utils.create_email_subject t0 0x1f2e3d4c5b6a79880123456789abcdef
       (u "text") (u "a_b"))
  = [(u "message_type", JStr (u "text"));
     (u "timestamp", JStr (u "20240309140507"));
     (u "random_id", JStr (u "1f2e3d"));
     (u "extra_info", JStr (u "a_b"))].
Proof. vm_compute. reflexivity. Qed.

Example preview_ex :
  Utils.format_message_preview (u "  hello
   world, this is a long message that goes on  ") 30
  = u "hello world, this is a long me...".
Proof. vm_compute. reflexivity. Qed.

Example sanitize_ex :
  Utils.sanitize_filename {| Utils.stem := fun s => s; Utils.suffix := fun _ => [] |}
    (u " ..a<b>:c?.txt. ")
  = u "a_b__c_.txt".
Proof. vm_compute. reflexivity. Qed.

(** ** Stripping *)

Lemma lstrip_by_head (f : char -> bool) (s : str) :
  match lstrip_by f s with
  | [] => True
  | c :: _ => f c = false
  end.
Proof.
  induction s as [| c s IH]; cbn [lstrip_by]; [exact I|].
  destruct (f c) eqn:E; [exact IH | exact E].
Qed.

Lemma lstrip_by_fixed (f : char -> bool) (c : char) (s : str) :
  f c = false -> lstrip_by f (c :: s) = c :: s.
Proof. intros H. cbn [lstrip_by]. rewrite H. reflexivity. Qed.

Lemma lstrip_by_idem (f : char -> bool) (s : str) :
  lstrip_by f (lstrip_by f s) = lstrip_by f s.
Proof.
  pose proof (lstrip_by_head f s) as H.
  destruct (lstrip_by f s) as [| c r]; [reflexivity|].
  apply lstrip_by_fixed. exact H.
Qed.

Lemma lstrip_by_snoc (f : char -> bool) (s : str) (c : char) :
  lstrip_by f (s ++ [c])
  = match lstrip_by f s with
    | [] => if f c then [] else [c]
    | r => r ++ [c]
    end.
Proof.
  induction s as [| d s IH]; cbn [app lstrip_by]; [reflexivity|].
  destruct (f d); [exact IH | reflexivity].
Qed.

Lemma rstrip_by_cons (f : char -> bool) (c : char) (s : str) :
  rstrip_by f (c :: s)
  = match rstrip_by f s with
    | [] => if f c then [] else [c]
    | r => c :: r
    end.
Proof.
  unfold rstrip_by. cbn [rev]. rewrite lstrip_by_snoc.
  destruct (lstrip_by f (rev s)) as [| d r] eqn:E; cbn [rev].
  - destruct (f c); reflexivity.
  - rewrite rev_app_distr. cbn [rev app].
    destruct (rev r ++ [d]) eqn:X; [destruct (rev r); discriminate X|].
    reflexivity.
Qed.

Lemma rstrip_by_nil_lstrip (f : char -> bool) (s : str) :
  rstrip_by f s = [] -> lstrip_by f s = [].
Proof.
  induction s as [| c s IH]; [reflexivity|]. rewrite rstrip_by_cons.
  destruct (rstrip_by f s) eqn:E; [|discriminate].
  destruct (f c) eqn:F; [|discriminate]. intros _.
  cbn [lstrip_by]. rewrite F. apply IH. reflexivity.
Qed.

Lemma strip_commute (f : char -> bool) (s : str) :
  lstrip_by f (rstrip_by f s) = rstrip_by f (lstrip_by f s).
Proof.
  induction s as [| c s IH]; [reflexivity|].
  rewrite rstrip_by_cons. cbn [lstrip_by].
  destruct (f c) eqn:F.
  - destruct (rstrip_by f s) as [| d r] eqn:E.
    + cbn [lstrip_by]. rewrite <- IH. reflexivity.
    + rewrite <- IH. cbn [lstrip_by]. rewrite F. reflexivity.
  - rewrite rstrip_by_cons.
    destruct (rstrip_by f s) as [| d r] eqn:E; cbn [lstrip_by]; rewrite F;
      reflexivity.
Qed.

Lemma rstrip_by_idem (f : char -> bool) (s : str) :
  rstrip_by f (rstrip_by f s) = rstrip_by f s.
Proof.
  unfold rstrip_by. rewrite rev_involutive, lstrip_by_idem. reflexivity.
Qed.

Lemma strip_by_idem (f : char -> bool) (s : str) :
  rstrip_by f (lstrip_by f (rstrip_by f (lstrip_by f s)))
  = rstrip_by f (lstrip_by f s).
Proof. rewrite strip_commute, rstrip_by_idem, lstrip_by_idem. reflexivity. Qed.

Lemma strip_idem (s : str) : strip (strip s) = strip s.
Proof. apply strip_by_idem. Qed.

Lemma rstrip_by_last (f : char -> bool) (s : str) :
  match rev (rstrip_by f s) with
  | [] => True
  | c :: _ => f c = false
  end.
Proof.
  unfold rstrip_by. rewrite rev_involutive. apply lstrip_by_head.
Qed.

Lemma lstrip_by_length_le (f : char -> bool) (s : str) :
  (List.length (lstrip_by f s) <= List.length s)%nat.
Proof.
  induction s as [| c s IH]; cbn [lstrip_by List.length]; [lia|].
  destruct (f c); cbn [List.length]; lia.
Qed.

Lemma rstrip_by_length_le (f : char -> bool) (s : str) :
  (List.length (rstrip_by f s) <= List.length s)%nat.
Proof.
  unfold rstrip_by. rewrite length_rev.
  pose proof (lstrip_by_length_le f (rev s)) as H. rewrite length_rev in H.
  exact H.
Qed.

Lemma lstrip_by_incl (f : char -> bool) (s : str) (c : char) :
  In c (lstrip_by f s) -> In c s.
Proof.
  induction s as [| d s IH]; cbn [lstrip_by]; [auto|].
  destruct (f d); [right; auto | auto].
Qed.

Lemma rstrip_by_incl (f : char -> bool) (s : str) (c : char) :
  In c (rstrip_by f s) -> In c s.
Proof.
  unfold rstrip_by. intros H. apply in_rev in H. apply lstrip_by_incl in H.
  apply in_rev. exact H.
Qed.

(** ** Nicknames *)

(** X14: [validate_nickname] judges a nickname by its stripped form: the
    verdict and the message for a nickname and for the nickname stripped
    are the same.  An accepted nickname has, stripped, between 1 and 50
    characters and none of the eight forbidden ones. *)
Theorem validate_nickname_stripped (nickname : str) :
  Utils.validate_nickname (strip nickname) = Utils.validate_nickname nickname
  /\ (fst (Utils.validate_nickname nickname) = true ->
      (1 <= List.length (strip nickname) <= 50)%nat
      /\ forall c, In c (strip nickname) -> Utils.nickname_illegal c = false).
Proof.
  split.
  - unfold Utils.validate_nickname.
    destruct nickname as [| c n]; [reflexivity|].
    destruct (strip (c :: n)) as [| d r] eqn:E; [reflexivity|].
    rewrite <- E, strip_idem. reflexivity.
  - unfold Utils.validate_nickname. destruct nickname as [| c n]; [discriminate|].
    destruct (Nat.ltb (List.length (strip (c :: n))) 1) eqn:L1; [discriminate|].
    destruct (Nat.ltb 50 (List.length (strip (c :: n)))) eqn:L2; [discriminate|].
    destruct (existsb Utils.nickname_illegal (strip (c :: n))) eqn:X;
      [discriminate|].
    intros _. apply Nat.ltb_ge in L1, L2. split; [lia|].
    intros d Hd. destruct (Utils.nickname_illegal d) eqn:Q; [|reflexivity].
    assert (existsb Utils.nickname_illegal (strip (c :: n)) = true)
      by (apply existsb_exists; exists d; auto).
    congruence.
Qed.

Lemma validate_nickname_stripped_witness :
  Utils.validate_nickname (u "  Ann Lee ") = (true, u "昵称格式正确")
  /\ (1 <= List.length (strip (u "  Ann Lee ")) <= 50)%nat.
Proof.
  split; [vm_compute; reflexivity|].
  apply (validate_nickname_stripped (u "  Ann Lee ")). vm_compute. reflexivity.
Defined.

(** ** Previews and display names *)

Lemma collapse_ws_spaces (b : bool) (s : str) (c : char) :
  In c (Utils.collapse_ws_from b s) -> isspace c = true -> c = 32.
Proof.
  revert b. induction s as [| d s IH]; intros b; cbn [Utils.collapse_ws_from];
    [intros []|].
  destruct (isspace d) eqn:D.
  - destruct b; [apply IH|]. intros [<- | H]; [reflexivity | apply (IH true H)].
  - intros [<- | H] W; [congruence | apply (IH false H W)].
Qed.

Lemma firstn_incl {A} (n : nat) (l : list A) (x : A) :
  In x (firstn n l) -> In x l.
Proof.
  intros H. rewrite <- (firstn_skipn n l). apply in_or_app. left. exact H.
Qed.

Lemma slice_to_incl (n : Z) (s : str) (c : char) :
  In c (Utils.slice_to n s) -> In c s.
Proof.
  unfold Utils.slice_to. destruct (0 <=? n)%Z; apply firstn_incl.
Qed.

(** X15: A preview is a single line: the only white space in it is the
    ordinary space.  For a limit that is not negative it has at most
    three characters more than the limit. *)
Theorem format_message_preview_shape (message : str) (max_length : Z) :
  (forall c, In c (Utils.format_message_preview message max_length) ->
             isspace c = true -> c = 32)
  /\ ((0 <= max_length)%Z ->
      (List.length (Utils.format_message_preview message max_length)
       <= Z.to_nat max_length + 3)%nat).
Proof.
  unfold Utils.format_message_preview.
  destruct message as [| m0 message]; [split; [intros c [] | cbn; lia]|].
  set (cleaned := Utils.collapse_ws (strip (m0 :: message))).
  destruct (Z.of_nat (List.length cleaned) <=? max_length)%Z eqn:L.
  - split.
    + intros c H. apply (collapse_ws_spaces false _ c H).
    + intros _. apply Z.leb_le in L. lia.
  - split.
    + intros c H W. apply in_app_or in H as [H | H].
      * apply slice_to_incl in H. apply (collapse_ws_spaces false _ c H W).
      * vm_compute in H. destruct H as [<- | [<- | [<- | []]]]; discriminate W.
    + intros P. rewrite length_app. unfold Utils.slice_to.
      apply Z.leb_le in P. rewrite P.
      pose proof (firstn_le_length (Z.to_nat max_length) cleaned) as F.
      rewrite length_firstn. change (List.length (u "...")) with 3%nat. lia.
Qed.

Lemma format_message_preview_shape_witness :
  (List.length (Utils.format_message_preview (repeat 97%N 100) 30) <= 33)%nat.
Proof.
  apply (format_message_preview_shape (repeat 97%N 100) 30). lia.
Defined.

Lemma split_char_nonempty (sep : char) (s : str) : split_char sep s <> [].
Proof.
  destruct s as [| c s]; cbn [split_char]; [discriminate|].
  destruct (split_char sep s); [discriminate|].
  destruct (c =? sep); discriminate.
Qed.

Lemma split_char_head (sep : char) (s : str) :
  ~ In sep (hd [] (split_char sep s))
  /\ exists rest, s = hd [] (split_char sep s) ++ rest.
Proof.
  induction s as [| c s [N (rest & E)]]; cbn [split_char].
  - split; [intros [] | exists []; reflexivity].
  - pose proof (split_char_nonempty sep s) as NE.
    destruct (split_char sep s) as [| w ws]; [congruence|]. cbn [hd] in *.
    destruct (c =? sep) eqn:C; cbn [hd].
    + split; [intros [] | exists (c :: s); reflexivity].
    + apply N.eqb_neq in C. split.
      * intros [H | H]; [congruence | contradiction].
      * exists rest. cbn [app]. rewrite E at 1. reflexivity.
Qed.

(** X16: Without a nickname, or with a blank one, the display name is the part
    of the address before the first [@]: it is a prefix of the address
    and holds no [@]. *)
Theorem format_contact_name_from_email (email : str) (nickname : option str) :
  match nickname with
  | Some n => strip n = []
  | None => True
  end ->
  ~ In 64 (Utils.format_contact_name email nickname)
  /\ exists rest, email = Utils.format_contact_name email nickname ++ rest.
Proof.
  intros B.
  assert (F : Utils.format_contact_name email nickname
              = if Utils.has_char 64 email
                then hd [] (split_char 64 email) else email).
  { unfold Utils.format_contact_name.
    destruct nickname as [[| c n] |]; try reflexivity. rewrite B. reflexivity. }
  rewrite F. destruct (Utils.has_char 64 email) eqn:H.
  - apply split_char_head.
  - split; [|exists []; symmetry; apply app_nil_r].
    intros I. unfold Utils.has_char in H.
    assert (existsb (N.eqb 64) email = true)
      by (apply existsb_exists; exists 64; split; [exact I | apply N.eqb_refl]).
    congruence.
Qed.

Lemma format_contact_name_from_email_witness :
  Utils.format_contact_name alice (Some (u "   ")) = u "alice"
  /\ ~ In 64 (Utils.format_contact_name alice (Some (u "   "))).
Proof.
  split; [vm_compute; reflexivity|].
  apply (format_contact_name_from_email alice (Some (u "   "))).
  vm_compute. reflexivity.
Defined.

(** ** File names *)

Lemma map_safe_chars (s : str) :
  (forall c, In c s -> Utils.filename_unsafe c = false) ->
  map (fun c => if Utils.filename_unsafe c then 95 else c) s = s.
Proof.
  induction s as [| c s IH]; intros H; [reflexivity|]. cbn [map].
  rewrite (H c (or_introl eq_refl)), IH; [reflexivity|].
  intros d Hd. apply H. right. exact Hd.
Qed.

(** X17: For a file name of at most 255 characters [sanitize_filename] returns
    a name that holds none of the nine unsafe characters, neither starts
    nor ends with a dot or a space, is no longer than the name given, and
    is left as it is when it is sanitized again. *)
Theorem sanitize_filename_short (P : Utils.pathlib) (filename : str) :
  (List.length filename <= 255)%nat ->
  (forall c, In c (Utils.sanitize_filename P filename) ->
             Utils.filename_unsafe c = false)
  /\ Utils.strip_chars (u ". ") (Utils.sanitize_filename P filename)
     = Utils.sanitize_filename P filename
  /\ (List.length (Utils.sanitize_filename P filename)
      <= List.length filename)%nat
  /\ Utils.sanitize_filename P (Utils.sanitize_filename P filename)
     = Utils.sanitize_filename P filename.
Proof.
  intros L.
  set (mapped := map (fun c => if Utils.filename_unsafe c then 95 else c) filename).
  set (r := Utils.strip_chars (u ". ") mapped).
  assert (Lr : (List.length r <= List.length filename)%nat).
  { subst r. unfold Utils.strip_chars.
    etransitivity; [apply rstrip_by_length_le|].
    etransitivity; [apply lstrip_by_length_le|].
    subst mapped. rewrite length_map. lia. }
  assert (E : Utils.sanitize_filename P filename = r).
  { unfold Utils.sanitize_filename. fold mapped. fold r.
    destruct (Nat.ltb 255 (List.length r)) eqn:X; [|reflexivity].
    apply Nat.ltb_lt in X. lia. }
  assert (Safe : forall c, In c r -> Utils.filename_unsafe c = false).
  { intros c Hc. subst r. unfold Utils.strip_chars in Hc.
    apply rstrip_by_incl, lstrip_by_incl in Hc. subst mapped.
    apply in_map_iff in Hc as (d & <- & _).
    destruct (Utils.filename_unsafe d) eqn:D; [reflexivity | exact D]. }
  assert (Fix : Utils.strip_chars (u ". ") r = r).
  { subst r. apply strip_by_idem. }
  rewrite E. split; [exact Safe|]. split; [exact Fix|]. split; [exact Lr|].
  unfold Utils.sanitize_filename. rewrite (map_safe_chars r Safe), Fix.
  destruct (Nat.ltb 255 (List.length r)) eqn:X; [|reflexivity].
  apply Nat.ltb_lt in X. lia.
Qed.

Lemma sanitize_filename_short_witness :
  Utils.sanitize_filename {| Utils.stem := fun s => s; Utils.suffix := fun _ => [] |}
    (u " ..a<b>:c?.txt. ") = u "a_b__c_.txt"
  /\ forall c, In c (u "a_b__c_.txt") -> Utils.filename_unsafe c = false.
Proof.
  split; [vm_compute; reflexivity|].
  apply (sanitize_filename_short
           {| Utils.stem := fun s => s; Utils.suffix := fun _ => [] |}
           (u " ..a<b>:c?.txt. ")).
  vm_compute. lia.
Defined.

(** ** Subjects *)

Lemma split_char_app (sep : char) (a b : str) :
  ~ In sep a -> split_char sep (a ++ sep :: b) = a :: split_char sep b.
Proof.
  induction a as [| c a IH]; intros N; cbn [app split_char].
  - pose proof (split_char_nonempty sep b) as NE.
    destruct (split_char sep b); [congruence|]. rewrite N.eqb_refl. reflexivity.
  - rewrite IH by (intros H; apply N; right; exact H).
    destruct (c =? sep) eqn:C; [|reflexivity].
    apply N.eqb_eq in C. exfalso. apply N. left. exact C.
Qed.

Lemma split_char_plain (sep : char) (a : str) :
  ~ In sep a -> split_char sep a = [a].
Proof.
  induction a as [| c a IH]; intros N; cbn [split_char]; [reflexivity|].
  rewrite IH by (intros H; apply N; right; exact H).
  destruct (c =? sep) eqn:C; [|reflexivity].
  apply N.eqb_eq in C. exfalso. apply N. left. exact C.
Qed.

Lemma join_split (sep : char) (s : str) :
  Utils.join [sep] (split_char sep s) = s.
Proof.
  induction s as [| c s IH]; [reflexivity|]. cbn [split_char].
  pose proof (split_char_nonempty sep s) as NE.
  destruct (split_char sep s) as [| w ws]; [congruence|].
  destruct (c =? sep) eqn:C.
  - apply N.eqb_eq in C. subst c.
    change (Utils.join [sep] ([] :: w :: ws))
      with ([] ++ [sep] ++ Utils.join [sep] (w :: ws)).
    rewrite IH. reflexivity.
  - destruct ws as [| w' ws].
    + cbn [Utils.join] in *. rewrite IH. reflexivity.
    + change (Utils.join [sep] ((c :: w) :: w' :: ws))
        with (c :: (w ++ [sep] ++ Utils.join [sep] (w' :: ws))).
      change (Utils.join [sep] (w :: w' :: ws))
        with (w ++ [sep] ++ Utils.join [sep] (w' :: ws)) in IH.
      rewrite IH. reflexivity.
Qed.

Lemma token_char_facts (c : char) :
  Utils.token_char c = true -> c <> 95 /\ isspace c = false.
Proof.
  unfold Utils.token_char. intros H. apply andb_true_iff in H as [A B].
  apply negb_true_iff in A, B. apply N.eqb_neq in A. auto.
Qed.

Lemma tokens_no_underscore (s : str) :
  forallb Utils.token_char s = true -> ~ In 95 s.
Proof.
  intros F H. rewrite forallb_forall in F.
  destruct (token_char_facts 95 (F 95 H)) as [N _]. congruence.
Qed.

Lemma hex_digit_token (v : N) : v < 16 -> Utils.token_char (hex_digit v) = true.
Proof.
  intros H.
  assert (K : all_below 4 (fun v => Utils.token_char (hex_digit v)) = true)
    by (vm_compute; reflexivity).
  exact (all_below_spec 4 _ K v H).
Qed.

Lemma hex_fixed_tokens (w : nat) :
  forall n, forallb Utils.token_char (hex_fixed w n) = true.
Proof.
  induction w as [| w IH]; intros n; [reflexivity|]. cbn [hex_fixed].
  rewrite forallb_app, IH. cbn [forallb].
  rewrite hex_digit_token; [reflexivity|]. apply N.mod_lt. discriminate.
Qed.

Lemma hex_fixed_length (w : nat) : forall n, List.length (hex_fixed w n) = w.
Proof.
  induction w as [| w IH]; intros n; [reflexivity|]. cbn [hex_fixed].
  rewrite length_app, IH. cbn [List.length]. lia.
Qed.

Lemma forallb_firstn {A} (f : A -> bool) (n : nat) (l : list A) :
  forallb f l = true -> forallb f (firstn n l) = true.
Proof.
  intros H. apply forallb_forall. intros x Hx.
  rewrite forallb_forall in H. apply H. apply (firstn_incl n). exact Hx.
Qed.

Lemma digit_token (c : char) : is_digit c = true -> Utils.token_char c = true.
Proof.
  intros D.
  assert (K : all_below 7 (fun c => implb (is_digit c) (Utils.token_char c)) = true)
    by (vm_compute; reflexivity).
  assert (B : c < 2 ^ N.of_nat 7).
  { unfold is_digit in D. apply andb_true_iff in D as [_ D].
    apply N.leb_le in D. change (2 ^ N.of_nat 7) with 128. lia. }
  pose proof (all_below_spec 7 _ K c B) as H. cbv beta in H.
  rewrite D in H. exact H.
Qed.

Lemma zero_pad_tokens (w : nat) (n : N) :
  forallb Utils.token_char (zero_pad w n) = true.
Proof.
  unfold zero_pad. rewrite forallb_app. apply andb_true_iff. split.
  - apply forallb_forall. intros c Hc. apply repeat_spec in Hc. subst c.
    reflexivity.
  - apply forallb_forall. intros c Hc. apply digit_token.
    pose proof (uint_chars_digits (N.to_uint n)) as F.
    rewrite Forall_forall in F. apply F. exact Hc.
Qed.

Lemma strftime_compact_tokens (t : datetime) :
  forallb Utils.token_char (strftime_compact t) = true.
Proof.
  unfold strftime_compact. rewrite !forallb_app, !zero_pad_tokens. reflexivity.
Qed.

Lemma lstrip_by_keep (f : char -> bool) (a b : str) :
  a <> [] -> lstrip_by f a = a -> lstrip_by f (a ++ b) = a ++ b.
Proof.
  destruct a as [| c a]; [congruence|]. intros _ H.
  pose proof (lstrip_by_head f (c :: a)) as Hd. rewrite H in Hd.
  cbn [app]. apply lstrip_by_fixed. exact Hd.
Qed.

Lemma rstrip_by_keep (f : char -> bool) (a b : str) :
  b <> [] -> rstrip_by f b = b -> rstrip_by f (a ++ b) = a ++ b.
Proof.
  intros NE H. unfold rstrip_by in *. rewrite rev_app_distr.
  rewrite lstrip_by_keep.
  - rewrite <- rev_app_distr, rev_involutive. reflexivity.
  - intros X. apply NE. rewrite <- (rev_involutive b), X. reflexivity.
  - rewrite <- H at 2. rewrite rev_involutive. reflexivity.
Qed.

Lemma tokens_rstrip (s : str) :
  forallb Utils.token_char s = true -> rstrip_by isspace s = s.
Proof.
  intros F. unfold rstrip_by.
  rewrite lstrip_by_none; [apply rev_involutive|].
  apply Forall_forall. intros c Hc. apply in_rev in Hc.
  rewrite forallb_forall in F. apply token_char_facts, F, Hc.
Qed.

(** The text behind the prefix of a subject: kind, time and id, and the
    extra information if there is any. *)
Lemma subject_parts (ty ts rid extra : str) :
  ~ In 95 ty -> lstrip_by isspace ty = ty ->
  forallb Utils.token_char ts = true ->
  forallb Utils.token_char rid = true -> rid <> [] ->
  rstrip_by isspace extra = extra ->
  Utils.parse_email_subject
    (u "[E-Chat] " ++ ty ++ u "_" ++ ts ++ u "_" ++ rid
     ++ match extra with [] => [] | _ => u "_" ++ extra end)
  = [(u "message_type", JStr ty);
     (u "timestamp", JStr ts);
     (u "random_id", JStr rid);
     (u "extra_info", JStr extra)].
Proof.
  intros Nty Lty Fts Frid Nrid Rex.
  unfold Utils.parse_email_subject.
  change (u "[E-Chat] ") with (u "[E-Chat]" ++ [32]).
  rewrite <- app_assoc, startswith_app. cbn [negb].
  change (u "[E-Chat]") with [91; 69; 45; 67; 104; 97; 116; 93].
  cbn [app skipn]. change (u "_") with [95]. cbn [app].
  set (tail := match extra with [] => [] | _ :: _ => 95 :: extra end).
  assert (St : strip (ty ++ 95 :: ts ++ 95 :: rid ++ tail)
               = ty ++ 95 :: ts ++ 95 :: rid ++ tail).
  { unfold strip.
    assert (L : lstrip_by isspace (ty ++ 95 :: ts ++ 95 :: rid ++ tail)
                = ty ++ 95 :: ts ++ 95 :: rid ++ tail).
    { destruct ty as [| c ty]; [reflexivity|].
      apply lstrip_by_keep; [discriminate | exact Lty]. }
    rewrite L.
    change (ty ++ 95 :: ts ++ 95 :: rid ++ tail)
      with (ty ++ [95] ++ ts ++ [95] ++ rid ++ tail).
    rewrite !app_assoc. rewrite <- (app_assoc _ rid tail).
    apply rstrip_by_keep.
    - destruct rid; [congruence | discriminate].
    - subst tail. destruct extra as [| e extra].
      + rewrite app_nil_r. apply tokens_rstrip. exact Frid.
      + change (rid ++ 95 :: e :: extra) with (rid ++ [95] ++ e :: extra).
        rewrite app_assoc. apply rstrip_by_keep; [discriminate | exact Rex]. }
  rewrite St.
  rewrite (split_char_app 95 ty _ Nty).
  rewrite (split_char_app 95 ts _ (tokens_no_underscore ts Fts)).
  subst tail. destruct extra as [| e extra].
  - rewrite app_nil_r, (split_char_plain 95 rid (tokens_no_underscore rid Frid)).
    reflexivity.
  - rewrite (split_char_app 95 rid _ (tokens_no_underscore rid Frid)).
    pose proof (split_char_nonempty 95 (e :: extra)) as NE.
    pose proof (join_split 95 (e :: extra)) as J.
    destruct (split_char 95 (e :: extra)) as [| w ws]; [congruence|].
    rewrite J. reflexivity.
Qed.

(** X18: What [create_email_subject] writes, [parse_email_subject] reads back:
    the kind, the time stamp, the random id and the extra information,
    underscores in it included, provided the kind holds no underscore and
    does not start with white space and the extra information does not
    end with white space. *)
Theorem email_subject_round_trip
    (now : datetime) (uuid : N) (message_type extra_info : str) :
  ~ In 95 message_type ->
  lstrip_by isspace message_type = message_type ->
  rstrip_by isspace extra_info = extra_info ->
  Utils.parse_email_subject
    (Utils.create_email_subject now uuid message_type extra_info)
  = [(u "message_type", JStr message_type);
     (u "timestamp", JStr (strftime_compact now));
     (u "random_id", JStr (firstn 6 (hex_fixed 32 uuid)));
     (u "extra_info", JStr extra_info)].
Proof.
  intros Nty Lty Rex.
  assert (C : Utils.create_email_subject now uuid message_type extra_info
              = u "[E-Chat] " ++ message_type ++ u "_" ++ strftime_compact now
                ++ u "_" ++ firstn 6 (hex_fixed 32 uuid)
                ++ match extra_info with [] => [] | _ => u "_" ++ extra_info end).
  { unfold Utils.create_email_subject. destruct extra_info.
    - rewrite app_nil_r. reflexivity.
    - rewrite <- !app_assoc. reflexivity. }
  rewrite C. apply subject_parts; try assumption.
  - apply strftime_compact_tokens.
  - apply forallb_firstn, hex_fixed_tokens.
  - intros X. apply (f_equal (@List.length _)) in X.
    rewrite length_firstn, hex_fixed_length in X. discriminate X.
Qed.

Lemma email_subject_round_trip_witness :
  Utils.parse_email_subject
    (Utils.create_email_subject t0 0x1f2e3d4c5b6a79880123456789abcdef
       (u "text") (u "part 1_of_2"))
  = [(u "message_type", JStr (u "text"));
     (u "timestamp", JStr (strftime_compact t0));
     (u "random_id",
      JStr (firstn 6 (hex_fixed 32 0x1f2e3d4c5b6a79880123456789abcdef)));
     (u "extra_info", JStr (u "part 1_of_2"))].
Proof.
  apply (email_subject_round_trip t0 _ (u "text") (u "part 1_of_2")).
  - vm_compute. intros H.
    repeat (destruct H as [H | H]; [discriminate H|]). exact H.
  - vm_compute. reflexivity.
  - vm_compute. reflexivity.
Defined.

Lemma skipn_prefix {A} (a b : list A) : skipn (List.length a) (a ++ b) = b.
Proof. induction a as [| x a IH]; [reflexivity | exact IH]. Qed.

Lemma contains_app (a needle b : str) :
  contains (a ++ needle ++ b) needle = true.
Proof.
  induction a as [| c a IH].
  - cbn [app]. destruct (needle ++ b) eqn:E.
    + destruct needle; [reflexivity | discriminate E].
    + cbn [contains]. rewrite <- E, startswith_app. reflexivity.
  - cbn [app contains]. rewrite IH. apply orb_true_r.
Qed.

Lemma kind_is_token (ty : str) :
  known_type ty = true -> ~ In 95 ty /\ lstrip_by isspace ty = ty.
Proof.
  intros K. apply known_type_In in K. unfold MESSAGE_TYPES in K.
  repeat (destruct K as [<- | K];
          [split; [vm_compute; intros H;
                   repeat (destruct H as [H | H]; [discriminate H|]); exact H
                  | vm_compute; reflexivity]|]).
  destruct K.
Qed.

(** X19: The subject that [format_email_subject] writes for an envelope of
    [_create_base_message] is read back by
    [MessageParser.parse_email_subject] as the kind of the envelope, the
    time the subject was written, and the eight hexadecimal characters
    that end the message id; there is no extra information. *)
Theorem built_subject_round_trip
    (I : interp) (E : env) (now : datetime)
    (sender recipient message_type : str) (content m : dict) :
  _create_base_message E sender recipient message_type content = Return m ->
  exists subject,
    format_email_subject I now m = Return subject
    /\ MessageParserSubject.parse_email_subject subject
       = [(u "message_type", JStr message_type);
          (u "timestamp", JStr (strftime_compact now));
          (u "random_id", JStr (firstn 8 (hex_fixed 32 (uuid4 E))));
          (u "extra_info", JStr [])]
    /\ generate_message_id E
       = u "echat_" ++ strftime_compact (now_id E) ++ u "_"
         ++ firstn 8 (hex_fixed 32 (uuid4 E)).
Proof.
  intros H. apply base_message_inv in H as (_ & _ & K & ->).
  destruct (kind_is_token message_type K) as [Nty Lty].
  set (hex8 := firstn 8 (hex_fixed 32 (uuid4 E))).
  assert (Fh : forallb Utils.token_char hex8 = true)
    by (apply forallb_firstn, hex_fixed_tokens).
  assert (Lh : List.length hex8 = 8%nat)
    by (subst hex8; rewrite length_firstn, hex_fixed_length; reflexivity).
  assert (Short : firstn 8 (last (split_char 95 (generate_message_id E)) [])
                  = hex8).
  { unfold generate_message_id. fold hex8.
    change (u "echat_") with (u "echat" ++ [95]). change (u "_") with [95].
    rewrite <- !app_assoc. cbn [app].
    rewrite (split_char_app 95 (u "echat")).
    2:{ vm_compute. intros X.
        repeat (destruct X as [X | X]; [discriminate X|]). exact X. }
    rewrite (split_char_app 95 _ _
               (tokens_no_underscore _ (strftime_compact_tokens (now_id E)))).
    rewrite (split_char_plain 95 hex8 (tokens_no_underscore _ Fh)).
    cbn [last]. rewrite <- Lh. apply firstn_all. }
  assert (Sj : format_email_subject I now
                 [(u "version", JStr MESSAGE_VERSION);
                  (u "message_id", JStr (generate_message_id E));
                  (u "type", JStr message_type);
                  (u "sender", JStr sender);
                  (u "recipient", JStr recipient);
                  (u "timestamp", JStr (isoformat (now_stamp E)));
                  (u "content", JDict content);
                  (u "client_info", JDict app_info)]
               = Return (SUBJECT_PREFIX ++ u " " ++ message_type ++ u "_"
                         ++ strftime_compact now ++ u "_" ++ hex8)).
  { unfold format_email_subject, get_default.
    change (dict_get (u "type") _) with (Some (JStr message_type)).
    change (dict_get (u "message_id") _)
      with (Some (JStr (generate_message_id E))).
    cbv iota.
    assert (Cn : contains (generate_message_id E) (u "_") = true).
    { unfold generate_message_id.
      change (u "echat_") with (u "echat" ++ u "_").
      rewrite <- app_assoc. apply contains_app. }
    rewrite Cn, Short. reflexivity. }
  eexists. split; [exact Sj|]. split; [|reflexivity].
  unfold MessageParserSubject.parse_email_subject, is_echat_message.
  rewrite startswith_app. cbn [negb]. rewrite skipn_prefix.
  change (u " ") with [32]. cbn [app].
  assert (St : strip (32 :: message_type ++ u "_" ++ strftime_compact now
                      ++ u "_" ++ hex8)
               = message_type ++ u "_" ++ strftime_compact now ++ u "_" ++ hex8).
  { unfold strip. cbn [lstrip_by]. change (isspace 32) with true. cbv iota.
    assert (L : lstrip_by isspace (message_type ++ u "_" ++ strftime_compact now
                                   ++ u "_" ++ hex8)
                = message_type ++ u "_" ++ strftime_compact now ++ u "_" ++ hex8).
    { destruct message_type as [| c ty]; [reflexivity|].
      apply lstrip_by_keep; [discriminate | exact Lty]. }
    rewrite L. rewrite !app_assoc. apply rstrip_by_keep.
    - intros X. rewrite X in Lh. discriminate Lh.
    - apply tokens_rstrip. exact Fh. }
  rewrite St.
  pose proof (subject_parts message_type (strftime_compact now) hex8 []
                Nty Lty (strftime_compact_tokens now) Fh) as P.
  rewrite app_nil_r in P.
  change (u "[E-Chat] ") with (SUBJECT_PREFIX ++ [32]) in P.
  rewrite <- app_assoc in P. apply P.
  - intros X. rewrite X in Lh. discriminate Lh.
  - reflexivity.
Qed.

Lemma built_subject_round_trip_witness :
  exists subject,
    format_email_subject I0 t0 hello = Return subject
    /\ MessageParserSubject.parse_email_subject subject
       = [(u "message_type", JStr (u "text"));
          (u "timestamp", JStr (u "20240309140507"));
          (u "random_id", JStr (u "1f2e3d4c"));
          (u "extra_info", JStr [])].
Proof.
  destruct (built_subject_round_trip I0 E0 t0 alice bob (u "text")
              [(u "text", JStr (u "hello"))] hello eq_refl)
    as (subject & S & P & _).
  exists subject. split; [exact S | exact P].
Defined.

(** ** The message body of [MessageUtils] *)







(** ** The folder listing *)

Example list_quoted_ex :
  _list_imap_folders true
    (ListAnswer true
       [dq "(\HasNoChildren) '/' 'INBOX'";
        dq "(\HasNoChildren \Sent) '/' 'Sent Messages'";
        dq "(\HasNoChildren) '/' 'INBOX'"])
  = [u "INBOX"; u "Sent Messages"].
Proof. vm_compute. reflexivity. Qed.

Example list_nil_ex :
  folder_name_of (u "(\Noselect) NIL Archive") = u "Archive".
Proof. vm_compute. reflexivity. Qed.

Lemma collect_folders_distinct (lines : list str) :
  forall names,
    NoDup names -> ~ In [] names ->
    NoDup (collect_folders lines names) /\ ~ In [] (collect_folders lines names).
Proof.
  induction lines as [| l lines IH]; intros names ND NE; [auto|].
  cbn [collect_folders]. apply IH.
  - destruct (folder_name_of l) as [| c n] eqn:F; [exact ND|].
    destruct (existsb (PyStr.eqb (c :: n)) names) eqn:X; [exact ND|].
    apply NoDup_app; [exact ND | repeat constructor; intros [] |].
    intros x Hx [<- | []].
    assert (existsb (PyStr.eqb (c :: n)) names = true)
      by (apply existsb_eqb_In; exact Hx).
    congruence.
  - destruct (folder_name_of l) as [| c n] eqn:F; [exact NE|].
    destruct (existsb (PyStr.eqb (c :: n)) names); [exact NE|].
    intros H. apply in_app_or in H as [H | [H | []]]; [auto | discriminate H].
Qed.

(** X21: The folder names that [_list_imap_folders] returns are distinct and
    none of them is empty, whatever the server answered. *)
Theorem list_imap_folders_distinct (connected : bool) (answer : list_answer) :
  NoDup (_list_imap_folders connected answer)
  /\ ~ In [] (_list_imap_folders connected answer).
Proof.
  unfold _list_imap_folders.
  destruct connected; cbn [negb]; [|split; [constructor | intros []]].
  destruct answer as [| ok lines]; [split; [constructor | intros []]|].
  destruct ok; cbn [negb]; [|split; [constructor | intros []]].
  apply collect_folders_distinct; [constructor | intros []].
Qed.

Lemma split_char_cat (sep : char) (a b : str) :
  split_char sep (a ++ sep :: b) = split_char sep a ++ split_char sep b.
Proof.
  induction a as [| c a IH]; cbn [app split_char].
  - pose proof (split_char_nonempty sep b) as NE.
    destruct (split_char sep b); [congruence|]. rewrite N.eqb_refl. reflexivity.
  - rewrite IH. pose proof (split_char_nonempty sep a) as NE.
    destruct (split_char sep a) as [| w ws]; [congruence|]. cbn [app].
    destruct (c =? sep); reflexivity.
Qed.

Lemma has_char_In (c : char) (s : str) : Utils.has_char c s = true <-> In c s.
Proof.
  unfold Utils.has_char. rewrite existsb_exists. split.
  - intros (x & I & E). apply N.eqb_eq in E. subst x. exact I.
  - intros I. exists c. split; [exact I | apply N.eqb_refl].
Qed.

(** X22: A line of the listing that ends with a quoted name gives that name:
    for every text before it, quoted parts included, the folder name of
    [text "name"] is [name], provided the name is not empty and holds no
    double quote. *)
Theorem folder_name_quoted (before name : str) :
  name <> [] -> ~ In 34 name ->
  folder_name_of (before ++ 34 :: name ++ [34]) = name.
Proof.
  intros NE NQ. unfold folder_name_of.
  assert (H : Utils.has_char 34 (before ++ 34 :: name ++ [34]) = true).
  { apply has_char_In. apply in_or_app. right. left. reflexivity. }
  rewrite H, split_char_cat, (split_char_app 34 name [] NQ).
  cbn [split_char]. rewrite rev_app_distr. cbn [rev app].
  pose proof (split_char_nonempty 34 before) as NB.
  destruct (rev (split_char 34 before)) as [| w ws] eqn:R.
  - exfalso. apply NB. rewrite <- (rev_involutive (split_char 34 before)), R.
    reflexivity.
  - destruct name; [congruence | reflexivity].
Qed.

Lemma folder_name_quoted_witness :
  folder_name_of (dq "(\HasChildren) '/' '&ZTZO9nux-'") = u "&ZTZO9nux-".
Proof.
  apply (folder_name_quoted (dq "(\HasChildren) '/' ") (u "&ZTZO9nux-")).
  - discriminate.
  - vm_compute. intros H.
    repeat (destruct H as [H | H]; [discriminate H|]). exact H.
Defined.

(** X23: A line whose folder name is not quoted, behind a quoted hierarchy
    delimiter, gives the delimiter as the folder name: for
    [flags "delimiter" name] without further double quotes the name taken
    is [delimiter].  A listing of such lines with one delimiter is
    returned as that delimiter alone. *)
Theorem folder_name_unquoted (flags delimiter name : str) :
  ~ In 34 flags -> ~ In 34 delimiter -> delimiter <> [] -> ~ In 34 name ->
  folder_name_of (flags ++ 34 :: delimiter ++ 34 :: name) = delimiter
  /\ forall more,
       Forall (fun line => folder_name_of line = delimiter) more ->
       _list_imap_folders true
         (ListAnswer true ((flags ++ 34 :: delimiter ++ 34 :: name) :: more))
       = [delimiter].
Proof.
  intros NF ND NE NN.
  assert (One : folder_name_of (flags ++ 34 :: delimiter ++ 34 :: name)
                = delimiter).
  { unfold folder_name_of.
    assert (H : Utils.has_char 34 (flags ++ 34 :: delimiter ++ 34 :: name) = true).
    { apply has_char_In. apply in_or_app. right. left. reflexivity. }
    rewrite H, (split_char_app 34 flags _ NF), (split_char_app 34 delimiter _ ND),
      (split_char_plain 34 name NN).
    cbn [rev app]. destruct delimiter; [congruence | reflexivity]. }
  split; [exact One|].
  intros more F. unfold _list_imap_folders. cbn [negb collect_folders].
  rewrite One. destruct delimiter as [| d delimiter]; [congruence|].
  cbn [existsb app].
  induction F as [| line more L F IH]; [reflexivity|].
  cbn [collect_folders]. rewrite L. cbn [existsb].
  rewrite str_eqb_refl. cbn [orb]. exact IH.
Qed.

Lemma folder_name_unquoted_witness :
  _list_imap_folders true
    (ListAnswer true
       [dq "(\HasNoChildren) '.' INBOX"; dq "(\HasNoChildren) '.' Sent"])
  = [u "."].
Proof.
  destruct (folder_name_unquoted (u "(\HasNoChildren) ") (u ".") (u " INBOX"))
    as [_ H].
  - vm_compute. intros H.
    repeat (destruct H as [H | H]; [discriminate H|]). exact H.
  - vm_compute. intros H.
    repeat (destruct H as [H | H]; [discriminate H|]). exact H.
  - discriminate.
  - vm_compute. intros H.
    repeat (destruct H as [H | H]; [discriminate H|]). exact H.
  - apply (H [dq "(\HasNoChildren) '.' Sent"]).
    constructor; [vm_compute; reflexivity | constructor].
Defined.

(** ** Formatting what was parsed *)




(** ** A file and its attachment *)

(** X25: The inline data of a file message on their way to the other side.
    For a message that [create_file_message] builds with data, an octet
    each, and a size within the digit limit, the body is read back and the
    data are attached as one part under the sanitized file name.  When
    that name is not empty and written in graphic ASCII characters other
    than the quote, the backslash and the angle brackets, the part comes
    through the [email] library as it is,
    [extract_attachments_from_email] reads it as one attachment with the
    data in Base64 as they were in the message, and
    [merge_message_with_attachments] puts them back into the content that
    [parse_message_body] read, with the encoding, and with the size of the
    data in place of the size that was declared.  When the name has a
    character outside ASCII (and no surrogate), the part comes through
    without its disposition and nothing is extracted from it. *)
Theorem file_data_comes_back
    (L : limits) (M : email_library) (P : Utils.pathlib) (I : interp) (E : env)
    (sender recipient content file_name : str) (file_size : Z)
    (b : N) (data : bytes) :
  validate_email sender = true -> validate_email recipient = true ->
  too_many_digits L (int_digits file_size) = false ->
  Forall octet (b :: data) ->
  exists m body parsed,
    create_file_message E sender recipient content file_name file_size
      (Some (b :: data)) = Return m
    /\ format_message_body I m = Return body
    /\ parse_message_body L body = Some parsed
    /\ attached_parts P I m
       = Return [{| part_is_attachment := true;
                    part_filename := Some (Utils.sanitize_filename P file_name);
                    part_payload := Some (b :: data) |}]
    /\ (Utils.sanitize_filename P file_name <> [] ->
        forallb verbatim (Utils.sanitize_filename P file_name) = true ->
        walk M [{| part_is_attachment := true;
                   part_filename := Some (Utils.sanitize_filename P file_name);
                   part_payload := Some (b :: data) |}]
        = Some [{| part_is_attachment := true;
                   part_filename := Some (Utils.sanitize_filename P file_name);
                   part_payload := Some (b :: data) |}]
        /\ extract_attachments_from_email P
             [{| part_is_attachment := true;
                 part_filename := Some (Utils.sanitize_filename P file_name);
                 part_payload := Some (b :: data) |}]
           = [{| att_filename :=
                   Utils.sanitize_filename P
                     (Utils.sanitize_filename P file_name);
                 att_size := Z.of_nat (List.length (b :: data));
                 att_data := Base64.b64encode (b :: data) |}]
        /\ exists merged c,
             merge_message_with_attachments parsed
               [{| att_filename :=
                     Utils.sanitize_filename P
                       (Utils.sanitize_filename P file_name);
                   att_size := Z.of_nat (List.length (b :: data));
                   att_data := Base64.b64encode (b :: data) |}]
             = Return merged
             /\ dict_get (u "content") merged = Some (JDict c)
             /\ dict_get (u "text") c = Some (JStr content)
             /\ dict_get (u "file_name") c = Some (JStr file_name)
             /\ dict_get (u "file_data") c
                = Some (JStr (Base64.b64encode (b :: data)))
             /\ dict_get (u "encoding") c = Some (JStr (u "base64"))
             /\ dict_get (u "file_size") c
                = Some (JInt (Z.of_nat (List.length (b :: data)))))
    /\ (isascii (Utils.sanitize_filename P file_name) = false ->
        existsb is_surrogate (Utils.sanitize_filename P file_name) = false ->
        exists received,
          walk M [{| part_is_attachment := true;
                     part_filename :=
                       Some (Utils.sanitize_filename P file_name);
                     part_payload := Some (b :: data) |}]
          = Some received
          /\ extract_attachments_from_email P received = []).
Proof.
  intros S R T O.
  assert (Ti : negb (too_many_digits L (int_digits file_size)) = true)
    by (rewrite T; reflexivity).
  set (b64 := Base64.b64encode (b :: data)).
  set (built := [(u "text", JStr content); (u "file_name", JStr file_name);
                 (u "file_size", JInt file_size); (u "file_data", JStr b64);
                 (u "encoding", JStr (u "base64"))]).
  pose proof (base_message_built E sender recipient (u "file") built S R eq_refl)
    as C.
  destruct (base_message_round_trip L I E sender recipient (u "file") built
              (dict_del (u "file_data")
                 (dict_set (u "has_attachment") (JBool true) built)) _
              S R eq_refl C eq_refl) as [F Pa].
  { change (dict_del _ _)
      with [(u "text", JStr content); (u "file_name", JStr file_name);
            (u "file_size", JInt file_size);
            (u "encoding", JStr (u "base64"));
            (u "has_attachment", JBool true)].
    plain_literal. }
  { change (dict_del _ _)
      with [(u "text", JStr content); (u "file_name", JStr file_name);
            (u "file_size", JInt file_size);
            (u "encoding", JStr (u "base64"));
            (u "has_attachment", JBool true)].
    cbn [forallb snd fits]. rewrite Ti. reflexivity. }
  { reflexivity. }
  eexists _, _, _. split; [exact C|]. split; [exact F|]. split; [exact Pa|].
  split.
  { unfold attached_parts, subscript.
    change (dict_get (u "type") _) with (Some (JStr (u "file"))).
    cbn [bind]. change (is_str (u "file") (JStr (u "file"))) with true.
    cbv iota.
    change (dict_get (u "content") _) with (Some (JDict built)).
    cbn [bind]. change (dict_mem (u "file_data") built) with true.
    cbv iota. subst built b64.
    rewrite (attach_built_file P I E sender recipient content file_name
               file_size b data O).
    reflexivity. }
  split.
  - intros NE G. split; [|split].
    + cbn [walk carried part_filename]. rewrite G. reflexivity.
    + cbn [extract_attachments_from_email part_is_attachment
             part_filename part_payload].
      destruct (Utils.sanitize_filename P file_name) as [| s0 name];
        [congruence | reflexivity].
    + eexists _, _. split; [reflexivity|]. repeat split; reflexivity.
  - intros NA NS. eexists. split.
    + cbn [walk carried part_filename part_payload].
      destruct (forallb verbatim (Utils.sanitize_filename P file_name)) eqn:G.
      { exfalso. assert (A : isascii (Utils.sanitize_filename P file_name) = true).
        { unfold isascii. rewrite forallb_forall in G |- *. intros c Hc.
          specialize (G c Hc). unfold verbatim in G.
          apply andb_true_iff in G as [G _]. apply andb_true_iff in G as [_ G].
          apply N.leb_le in G. apply N.ltb_lt. lia. }
        congruence. }
      rewrite NA, NS. reflexivity.
    + reflexivity.
Qed.

Lemma file_data_comes_back_witness :
  exists m,
    create_file_message E0 alice bob (u "see") (u "a.txt") 99
      (Some [104; 105]) = Return m
    /\ walk {| reread := fun _ => None |}
         [{| part_is_attachment := true;
             part_filename := Some (Utils.sanitize_filename P0 (u "a.txt"));
             part_payload := Some [104; 105] |}]
       = Some [{| part_is_attachment := true;
                  part_filename := Some (Utils.sanitize_filename P0 (u "a.txt"));
                  part_payload := Some [104; 105] |}]
    /\ extract_attachments_from_email P0
         [{| part_is_attachment := true;
             part_filename := Some (Utils.sanitize_filename P0 (u "a.txt"));
             part_payload := Some [104; 105] |}]
       = [{| att_filename :=
               Utils.sanitize_filename P0
                 (Utils.sanitize_filename P0 (u "a.txt"));
             att_size := 2;
             att_data := Base64.b64encode [104; 105] |}].
Proof.
  destruct (file_data_comes_back L0 {| reread := fun _ => None |} P0
              I0 E0 alice bob (u "see") (u "a.txt") 99 104 [105])
    as (m & body & parsed & C & _ & _ & _ & G & _).
  - reflexivity.
  - reflexivity.
  - reflexivity.
  - repeat constructor.
  - destruct G as (W & X & _).
    + vm_compute. discriminate.
    + reflexivity.
    + exists m. split; [exact C|]. split; [exact W | exact X].
Defined.

(** A name outside ASCII: the part arrives without its disposition and the
    recipient extracts nothing. *)
Example name_outside_ascii :
  walk {| reread := fun _ => None |}
    [{| part_is_attachment := true;
        part_filename := Some (Utils.sanitize_filename P0 (u "报告.pdf"));
        part_payload := Some [104; 105] |}]
  = Some [{| part_is_attachment := false; part_filename := None;
             part_payload := Some [104; 105] |}]
  /\ extract_attachments_from_email P0
       [{| part_is_attachment := false; part_filename := None;
           part_payload := Some [104; 105] |}] = [].
Proof. split; vm_compute; reflexivity. Qed.

(** ** Messages without a text *)

(** X26: A status message has no text to store.  For an envelope of
    [create_status_message] whose status data hold no [text], the
    arguments of [add_message] raise [KeyError] when they are evaluated,
    the mail being out already: if the server accepts the mail in each of
    the three passes, [send_message_sync] sends it three times, counts
    three sent messages, stores none and does not return [True]. *)
Theorem status_message_is_sent_three_times
    (E : env) (sender recipient status_type : str) (status_data : option dict)
    (m : dict) (envs : nat -> pass_env) (w : world) :
  create_status_message E sender recipient status_type status_data = Return m ->
  match status_data with
  | Some d => dict_mem (u "text") d = false
  | None => True
  end ->
  (forall k, (k <= max_retries)%nat ->
             connects (envs k) = true
             /\ transmit_answer (envs k) = transmit_accepted m) ->
  stored_fields m = Raise (KeyError (u "text"))
  /\ fst (send_message_sync m envs w) <> Return true
  /\ stat_messages_sent (snd (send_message_sync m envs w))
     = (stat_messages_sent w + 3)%nat
  /\ filter is_delivery_event (trace (snd (send_message_sync m envs w)))
     = filter is_delivery_event (trace w) ++ [Sent m; Sent m; Sent m].
Proof.
  intros C T H.
  assert (SF : stored_fields m = Raise (KeyError (u "text"))).
  { unfold create_status_message in C.
    apply base_message_inv in C as (_ & _ & _ & ->).
    unfold stored_fields, subscript.
    change (dict_get (u "recipient") _) with (Some (JStr recipient)).
    change (dict_get (u "sender") _) with (Some (JStr sender)).
    cbn [bind].
    match goal with
    | |- context [dict_get (u "content") ?d] =>
      match d with
      | context [(u "content", JDict ?c)] =>
        change (dict_get (u "content") d) with (Some (JDict c));
        assert (N : dict_get (u "text") c = None)
      end
    end.
    { destruct status_data as [[| kv more] |]; try reflexivity.
      unfold dict_mem in T.
      assert (G : forall pairs acc,
                 dict_get (u "text") acc = None ->
                 dict_get (u "text") pairs = None ->
                 dict_get (u "text") (dict_update acc pairs) = None).
      { induction pairs as [| [k v] pairs IH]; intros acc A B; [exact A|].
        change (dict_update acc ((k, v) :: pairs))
          with (dict_update (dict_set k v acc) pairs).
        cbn [dict_get] in B. destruct (PyStr.eqb (u "text") k) eqn:K;
          [discriminate B|].
        apply IH; [|exact B].
        rewrite dict_get_set_other; [exact A|]. apply str_eqb_neq. exact K. }
      apply G; [reflexivity|].
      destruct (dict_get (u "text") (kv :: more)); [discriminate T | reflexivity]. }
    cbn [bind]. rewrite N. reflexivity. }
  split; [exact SF|].
  assert (R : forall j, (0 <= j < 0 + S max_retries)%nat ->
                        connects (envs j) = true /\ raises (envs j) = true).
  { intros j Hj. destruct (H j) as [Cj Tj]; [unfold max_retries in *; lia|].
    split; [exact Cj|]. unfold raises. rewrite Tj. unfold transmit_accepted.
    rewrite SF. reflexivity. }
  destruct (retry_loop_resends m envs (S max_retries) 0 w R) as [M Tr].
  destruct (retry_loop_all_raise m envs (S max_retries) 0 w R) as (w' & Ew & _).
  unfold send_message_sync. rewrite M, Tr, Ew. cbn [fst].
  unfold max_retries. cbn [resent].
  destruct (H 0%nat) as [_ ->]; [unfold max_retries; lia|].
  destruct (H 1%nat) as [_ ->]; [unfold max_retries; lia|].
  destruct (H 2%nat) as [_ ->]; [unfold max_retries; lia|].
  unfold transmit_accepted. rewrite SF.
  cbn [app List.length]. split; [discriminate|]. split; reflexivity.
Qed.

Lemma status_message_is_sent_three_times_witness :
  exists m,
    create_status_message E0 alice bob (u "typing") None = Return m
    /\ filter is_delivery_event
         (trace (snd (send_message_sync m
                        (fun _ => {| probe_answer := ProbeOk;
                                     config_complete := true;
                                     login_answer := LoginOk;
                                     transmit_answer := transmit_accepted m |})
                        w0)))
       = [Sent m; Sent m; Sent m].
Proof.
  eexists. split; [reflexivity|].
  refine (proj2 (proj2 (proj2
            (status_message_is_sent_three_times E0 alice bob (u "typing") None
               _ (fun _ => {| probe_answer := ProbeOk;
                              config_complete := true;
                              login_answer := LoginOk;
                              transmit_answer := transmit_accepted _ |})
               w0 eq_refl I _)))).
  intros k _. split; reflexivity.
Defined.

(** ** What is stored of a received message *)

Lemma email_chars (a : str) (c : char) :
  validate_email a = true -> In c a ->
  alphabet email_pattern c = true \/ isspace c = true.
Proof.
  intros V Hc. destruct a as [| x a]; [discriminate V|].
  cbn [validate_email] in V. apply fullmatch_alphabet in V.
  rewrite forallb_forall in V.
  destruct (strip_keeps _ _ Hc) as [S | S]; [right; exact S|].
  left. apply V. exact S.
Qed.

Lemma email_no_angle (a : str) :
  validate_email a = true -> Utils.has_char 60 a = false.
Proof.
  intros V. destruct (Utils.has_char 60 a) eqn:H; [|reflexivity].
  apply has_char_In in H. destruct (email_chars a 60 V H) as [X | X];
    vm_compute in X; discriminate X.
Qed.

(** X27: The row stored for a received text message names the sender that the
    body names: for a text message built for valid addresses and fetched
    as in [text_message_reaches_callback], [_save_received_message] hands
    to [add_message] the built sender as contact and sender, the text,
    the kind and the message id, whatever the From header of the mail
    says. *)
Theorem received_text_message_row
    (L : limits) (I : interp) (E : env) (now : datetime)
    (sender recipient content mail_from mail_to username : str)
    (msg_id : bytes) (id_text : str) :
  validate_email sender = true -> validate_email recipient = true ->
  decode_utf8 msg_id = Some id_text ->
  exists m subject body p events,
    create_text_message E sender recipient content = Return m
    /\ format_email_subject I now m = Return subject
    /\ format_message_body I m = Return body
    /\ _fetch_email L true msg_id
         (Fetched {| email_subject := subject; email_from := mail_from;
                     email_to := mail_to; email_body := body;
                     email_attachments := [] |})
       = (Some p, events)
    /\ _save_received_message username p
       = Some {| contact_email := JStr sender;
                 sender_email := JStr sender;
                 receiver_email := username;
                 row_content := JStr content;
                 message_type := JStr (u "text");
                 row_message_id := JStr (generate_message_id E) |}.
Proof.
  intros S R D.
  pose proof (base_message_built E sender recipient (u "text")
                [(u "text", JStr content)] S R eq_refl) as C.
  destruct (base_message_round_trip L I E sender recipient (u "text")
              [(u "text", JStr content)] [(u "text", JStr content)] _
              S R eq_refl C eq_refl) as [F P];
    [plain_literal | reflexivity | reflexivity |].
  destruct (built_subject I E now sender recipient (u "text") _ _ C)
    as [rest Sj].
  eexists _, _, _, _, _. split; [exact C|]. split; [exact Sj|].
  split; [exact F|]. split.
  - unfold _fetch_email. cbn [email_subject email_body email_attachments
                                email_from email_to].
    unfold is_echat_message. rewrite startswith_app. cbn [negb].
    rewrite P, D. reflexivity.
  - unfold _save_received_message, get_default.
    match goal with
    | |- context [dict_get (u "sender") ?d] =>
      change (dict_get (u "sender") d) with (Some (JStr sender));
      change (dict_get (u "content") d)
        with (Some (JDict [(u "text", JStr content)]));
      change (dict_get (u "type") d) with (Some (JStr (u "text")));
      change (dict_get (u "message_id") d)
        with (Some (JStr (generate_message_id E)))
    end.
    cbv iota. unfold clean_sender. rewrite (email_no_angle sender S).
    reflexivity.
Qed.

Lemma received_text_message_row_witness :
  exists m subject body p events,
    create_text_message E0 alice bob (u "hello") = Return m
    /\ format_email_subject I0 t0 m = Return subject
    /\ format_message_body I0 m = Return body
    /\ _fetch_email L0 true (u "7")
         (Fetched {| email_subject := subject; email_from := bob;
                     email_to := bob; email_body := body;
                     email_attachments := [] |})
       = (Some p, events)
    /\ _save_received_message bob p
       = Some {| contact_email := JStr alice;
                 sender_email := JStr alice;
                 receiver_email := bob;
                 row_content := JStr (u "hello");
                 message_type := JStr (u "text");
                 row_message_id := JStr (generate_message_id E0) |}.
Proof.
  apply (received_text_message_row L0 I0 E0 t0 alice bob (u "hello")
           bob bob bob (u "7") (u "7")); reflexivity.
Defined.

Lemma split_char_hd_app (sep : char) (a b : str) :
  ~ In sep a ->
  hd [] (split_char sep (a ++ b)) = a ++ hd [] (split_char sep b).
Proof.
  induction a as [| c a IH]; intros N; [reflexivity|].
  cbn [app split_char].
  pose proof (split_char_nonempty sep (a ++ b)) as NE.
  specialize (IH (fun H => N (or_intror H))).
  destruct (split_char sep (a ++ b)) as [| w ws]; [congruence|].
  cbn [hd] in IH. destruct (c =? sep) eqn:C.
  - apply N.eqb_eq in C. exfalso. apply N. left. exact C.
  - cbn [hd]. rewrite IH. reflexivity.
Qed.

(** X28: A mail with the E-Chat subject prefix whose body holds no brace is
    stored as a text message from the address of the From header, the
    display name taken off: for a header [name <address> ...], no angle
    bracket in the name or the address, the row has the address as
    contact and sender, the stripped body as content, the kind text and
    an empty message id. *)
Theorem fallback_row_from_header
    (L : limits) (subject name address behind mail_to body username : str)
    (msg_id : bytes) (id_text : str) :
  is_echat_message subject = true ->
  find_char 123 body = None ->
  decode_utf8 msg_id = Some id_text ->
  ~ In 60 name -> ~ In 60 address -> ~ In 62 address ->
  exists p events,
    _fetch_email L true msg_id
      (Fetched {| email_subject := subject;
                  email_from := name ++ 60 :: address ++ 62 :: behind;
                  email_to := mail_to; email_body := body;
                  email_attachments := [] |})
    = (Some p, events)
    /\ _save_received_message username p
       = Some {| contact_email := JStr address;
                 sender_email := JStr address;
                 receiver_email := username;
                 row_content := JStr (strip body);
                 message_type := JStr (u "text");
                 row_message_id := JStr [] |}.
Proof.
  intros G B D Nn Na1 Na2.
  eexists _, _. split.
  - unfold _fetch_email. cbn [email_subject email_body email_attachments
                                email_from email_to].
    rewrite G. cbn [negb]. unfold parse_message_body. rewrite B, D. reflexivity.
  - unfold _save_received_message, get_default.
    match goal with
    | |- context [dict_get (u "sender") ?d] =>
      change (dict_get (u "sender") d) with (@None json);
      change (dict_get (u "email_sender") d)
        with (Some (JStr (name ++ 60 :: address ++ 62 :: behind)));
      change (dict_get (u "content") d)
        with (Some (JDict [(u "text", JStr (strip body))]));
      change (dict_get (u "type") d) with (Some (JStr (u "text")));
      change (dict_get (u "message_id") d) with (@None json)
    end.
    cbv iota. unfold clean_sender.
    assert (H60 : Utils.has_char 60 (name ++ 60 :: address ++ 62 :: behind) = true).
    { apply has_char_In. apply in_or_app. right. left. reflexivity. }
    assert (H62 : Utils.has_char 62 (name ++ 60 :: address ++ 62 :: behind) = true).
    { apply has_char_In. apply in_or_app. right. right.
      apply in_or_app. right. left. reflexivity. }
    rewrite H60, H62. cbn [andb].
    rewrite (split_char_app 60 name _ Nn).
    pose proof (split_char_nonempty 60 (address ++ 62 :: behind)) as NE.
    pose proof (split_char_hd_app 60 address (62 :: behind) Na1) as Hd.
    destruct (split_char 60 (address ++ 62 :: behind)) as [| w ws];
      [congruence|].
    cbn [nth hd] in *. rewrite Hd.
    assert (T : hd [] (split_char 60 (62 :: behind))
                = 62 :: hd [] (split_char 60 behind)).
    { apply (split_char_hd_app 60 [62] behind). intros [X | []]. discriminate X. }
    rewrite T, (split_char_app 62 address _ Na2). reflexivity.
Qed.

Lemma fallback_row_from_header_witness :
  exists p events,
    _fetch_email L0 true (u "3")
      (Fetched {| email_subject := u "[E-Chat] hi";
                  email_from := u "Bob <bob@mail.example.org>";
                  email_to := alice; email_body := u " see you ";
                  email_attachments := [] |})
    = (Some p, events)
    /\ _save_received_message alice p
       = Some {| contact_email := JStr bob;
                 sender_email := JStr bob;
                 receiver_email := alice;
                 row_content := JStr (u "see you");
                 message_type := JStr (u "text");
                 row_message_id := JStr [] |}.
Proof.
  apply (fallback_row_from_header L0 (u "[E-Chat] hi") (u "Bob ") bob []
           alice (u " see you ") alice (u "3") (u "3"));
    try (vm_compute; reflexivity);
    vm_compute; intros H;
    repeat (destruct H as [H | H]; [discriminate H|]); exact H.
Defined.

(** ** Queueing a message *)

(** X29: [send_message_async] answers [True] exactly when an address is
    configured, the kind is text, and the configured address and the
    recipient are valid addresses.  It then puts the text message of
    [create_text_message] at the tail of the queue, of whatever length
    the text is, and the sender thread runs; otherwise the queue and the
    thread are as they were. *)
Theorem send_message_async_queues
    (E : env) (username recipient content message_type : str)
    (send_running : bool) (w : world) :
  (username <> [] /\ message_type = u "text"
   /\ validate_email username = true /\ validate_email recipient = true ->
   exists m,
     create_text_message E username recipient content = Return m
     /\ dict_get (u "content") m = Some (JDict [(u "text", JStr content)])
     /\ send_message_async E username recipient content message_type
          send_running w
        = (true, set_queue (send_queue w ++ [m]) w, true))
  /\ (~ (username <> [] /\ message_type = u "text"
         /\ validate_email username = true /\ validate_email recipient = true) ->
      send_message_async E username recipient content message_type
        send_running w
      = (false, w, send_running)).
Proof.
  split.
  - intros (NE & -> & S & R).
    pose proof (base_message_built E username recipient (u "text")
                  [(u "text", JStr content)] S R eq_refl) as C.
    eexists. split; [exact C|]. split; [reflexivity|].
    unfold send_message_async. destruct username as [| c n]; [congruence|].
    change (PyStr.eqb (u "text") (u "text")) with true. cbv iota.
    unfold create_text_message. rewrite C. reflexivity.
  - intros N. unfold send_message_async.
    destruct username as [| c n]; [reflexivity|].
    destruct (PyStr.eqb message_type (u "text")) eqn:T; [|reflexivity].
    apply str_eqb_eq in T.
    unfold create_text_message, _create_base_message.
    destruct (validate_email (c :: n)) eqn:S; cbn [negb]; [|reflexivity].
    destruct (validate_email recipient) eqn:R; cbn [negb]; [|reflexivity].
    exfalso. apply N. repeat split; [discriminate | exact T].
Qed.

Lemma send_message_async_queues_witness :
  exists m,
    send_message_async E0 alice bob (repeat 120 (60 * 100)) (u "text") false w0
    = (true, set_queue (send_queue w0 ++ [m]) w0, true).
Proof.
  destruct (proj1 (send_message_async_queues E0 alice bob
                     (repeat 120 (60 * 100)) (u "text") false w0))
    as (m & _ & _ & Q).
  - split; [discriminate|]. split; [reflexivity|]. split; reflexivity.
  - exists m. exact Q.
Defined.
